(** * The generator store of stable-ui: a shallow embedding

    The store (a Pinia [defineStore] closure) submits an image-generation job
    to the Stable Horde HTTP API, polls it, cancels it on request and turns
    the finished generations into gallery entries.

    - State.  Everything the store reads or writes lives in one record,
      [World]: its own refs, the fields of the UI, options and output stores
      it touches, and the environment.
    - Effects.  An action is a function [World -> outcome A * World].  A
      call to an outside collaborator (network, timer, UI store, router,
      canvas) is appended to the trace of the world.
    - Asynchrony.  An [await] takes the next [Arrival] of the environment:
      the status and the parsed JSON body of a response, and whether the
      cancel button was pressed while the store was waiting.  The cancel
      button is the only outside writer; a second call running concurrently
      is not modelled.  Responses are taken after parsing: a transport
      failure or a body that is not JSON rejects the promise before any
      code of the store runs.
    - JavaScript.  Response bodies are dynamically typed values; reads of a
      property of [null] or [undefined] and spreads of something that is not
      iterable end the call with a [TypeError].  Numbers are the integers,
      [Infinity] and [NaN].  [console.log] is left out. *)

From Stdlib Require Import ZArith List String Ascii Bool Lia Permutation.
From Stdlib Require Import DecimalString QArith.
Import ListNotations.
Open Scope string_scope.
Open Scope Z_scope.

Set Warnings "-register-all".

(** ** JavaScript values *)

Module JS.

(** A JavaScript number.  Only integer values, [Infinity] and [NaN] are
    represented: the store does no fractional arithmetic.  [Fin z] stands
    for the Number of value [z] where Numbers are the integers, that is for
    [z] of magnitude up to 2^53: a step count or a pixel dimension.  Beyond
    that magnitude a Number is a rounded value, which [Fin] does not
    represent. *)
Inductive num : Type :=
| Fin (z : Z)
| Infinity
| NaN.

(** A JavaScript value as [response.json()] and property reads produce it.
    The fields of an object are in enumeration order and have distinct
    keys. *)
Inductive value : Type :=
| VUndefined
| VNull
| VBool (b : bool)
| VNum (n : num)
| VStr (s : string)
| VArr (l : list value)
| VObj (o : list (string * value)).

Definition string_of_Z (z : Z) : string := NilZero.string_of_int (Z.to_int z).
Definition string_of_nat (n : nat) : string := NilZero.string_of_uint (Nat.to_uint n).

(** [String(n)].  An integer Number below 1e21 in magnitude prints as its
    decimal digits, which is what [Fin z] gives within its range of 2^53;
    the exponent form that JavaScript uses from 1e21 on is outside it. *)
Definition num_to_string (n : num) : string :=
  match n with
  | Fin z => string_of_Z z
  | Infinity => "Infinity"
  | NaN => "NaN"
  end.

(** [`${v}`] and [s + v]: the ToString conversion. *)
Fixpoint to_string (v : value) : string :=
  match v with
  | VUndefined => "undefined"
  | VNull => "null"
  | VBool true => "true"
  | VBool false => "false"
  | VNum n => num_to_string n
  | VStr s => s
  | VArr l =>
      (fix join (l : list value) : string :=
         match l with
         | [] => ""
         | x :: r =>
             let sx := match x with
                       | VUndefined | VNull => ""
                       | _ => to_string x
                       end in
             match r with
             | [] => sx
             | _ :: _ => sx ++ "," ++ join r
             end
         end) l
  | VObj _ => "[object Object]"
  end.

(** The truthiness test of [if (v)], [!v] and [a && b]. *)
Definition truthy (v : value) : bool :=
  match v with
  | VUndefined | VNull => false
  | VBool b => b
  | VNum (Fin z) => negb (z =? 0)
  | VNum Infinity => true
  | VNum NaN => false
  | VStr s => negb (String.eqb s "")
  | VArr _ | VObj _ => true
  end.

Definition nullish (v : value) : bool :=
  match v with
  | VUndefined | VNull => true
  | _ => false
  end.

Fixpoint lookup (k : string) (o : list (string * value)) : value :=
  match o with
  | [] => VUndefined
  | (k', v) :: r => if String.eqb k k' then v else lookup k r
  end.

(** [v.k] for a property name [k] that is neither ["length"], an array
    index nor a prototype member, which covers every name the store reads.
    [None] is the TypeError of a read on [null] or [undefined]. *)
Definition prop (k : string) (v : value) : option value :=
  match v with
  | VUndefined | VNull => None
  | VObj o => Some (lookup k o)
  | _ => Some VUndefined
  end.

(** [v?.k] *)
Definition prop_opt (k : string) (v : value) : value :=
  match prop k v with
  | Some x => x
  | None => VUndefined
  end.

(** The characters of a string as JavaScript enumerates them.  A [string]
    here is a list of 8-bit characters and stands for a JavaScript string
    of ASCII characters, one UTF-16 code unit and one code point each, so
    that [Object.entries] (code units) and the spread (code points) agree
    with this split.  A string with other characters is not represented. *)
Definition chars (s : string) : list value :=
  map (fun c => VStr (String c EmptyString)) (list_ascii_of_string s).

Fixpoint index_from (i : nat) (l : list value) : list (string * value) :=
  match l with
  | [] => []
  | x :: r => (string_of_nat i, x) :: index_from (S i) r
  end.

(** [Object.entries(v)]; [None] is the TypeError on [null] and
    [undefined]. *)
Definition entries (v : value) : option (list (string * value)) :=
  match v with
  | VUndefined | VNull => None
  | VObj o => Some o
  | VArr l => Some (index_from 0 l)
  | VStr s => Some (index_from 0 (chars s))
  | VBool _ | VNum _ => Some []
  end.

Definition num_eqb (a b : num) : bool :=
  match a, b with
  | Fin x, Fin y => x =? y
  | Infinity, Infinity => true
  | _, _ => false
  end.

(** [a === b] between values of two different JSON documents: objects and
    arrays are compared by reference, so two parsed ones are never equal. *)
Definition strict_eq (a b : value) : bool :=
  match a, b with
  | VUndefined, VUndefined => true
  | VNull, VNull => true
  | VBool x, VBool y => Bool.eqb x y
  | VNum x, VNum y => num_eqb x y
  | VStr x, VStr y => String.eqb x y
  | _, _ => false
  end.

(** SameValueZero, the comparison of [Array.prototype.includes]: as [===]
    but [NaN] equals [NaN]. *)
Definition same_value_zero (a b : value) : bool :=
  match a, b with
  | VNum NaN, VNum NaN => true
  | _, _ => strict_eq a b
  end.

(** [l.includes(x)] *)
Definition includes (x : value) (l : list value) : bool :=
  existsb (same_value_zero x) l.

(** [l.indexOf(x)], [None] for -1. *)
Fixpoint indexOf (x : value) (l : list value) : option nat :=
  match l with
  | [] => None
  | y :: r => if strict_eq y x then Some 0%nat
              else option_map S (indexOf x r)
  end.

(** [n > m] on numbers. *)
Definition num_gt (n m : num) : bool :=
  match n, m with
  | NaN, _ | _, NaN => false
  | Infinity, Infinity => false
  | Infinity, Fin _ => true
  | Fin _, Infinity => false
  | Fin a, Fin b => b <? a
  end.

(** [n * k] for a finite factor [k > 0].  The product of the integers is
    the product of the Numbers while it stays within the range of [Fin];
    the rounding and the overflow to [Infinity] of larger products are
    outside it. *)
Definition num_scale (n : num) (k : Z) : num :=
  match n with
  | Fin z => Fin (z * k)
  | Infinity => Infinity
  | NaN => NaN
  end.

Definition num_truthy (n : num) : bool := truthy (VNum n).

End JS.

Import JS.

(** ** Data model *)

Inductive GeneratorType : Type := Text2Img | Img2Img | Inpainting.
Inductive NsfwMode : Type := NsfwEnabled | NsfwDisabled | NsfwCensored.
Inductive TrustMode : Type := AllWorkers | TrustedOnly.
Inductive SourceProcessing : Type := SPinpainting | SPimg2img | SPoutpainting.
Inductive Method : Type := GET | POST | DELETE.

(** [ModelGenerationInputStable]: the generation parameters.  An optional
    field that is absent is [None]. *)
Module Params.
Record t : Type := mk {
  steps : option num;
  n : option num;
  sampler_name : option string;
  width : option num;
  height : option num;
  cfg_scale : option num;
  seed_variation : option num;
  seed : value;
  karras : option bool;
  denoising_strength : option Q;
  post_processing : option (list string)
}.
Definition set_steps (x : option num) (p : t) : t :=
  mk x (n p) (sampler_name p) (width p) (height p) (cfg_scale p)
     (seed_variation p) (seed p) (karras p) (denoising_strength p)
     (post_processing p).
Definition set_sampler_name (x : option string) (p : t) : t :=
  mk (steps p) (n p) x (width p) (height p) (cfg_scale p)
     (seed_variation p) (seed p) (karras p) (denoising_strength p)
     (post_processing p).
Definition set_width (x : option num) (p : t) : t :=
  mk (steps p) (n p) (sampler_name p) x (height p) (cfg_scale p)
     (seed_variation p) (seed p) (karras p) (denoising_strength p)
     (post_processing p).
Definition set_height (x : option num) (p : t) : t :=
  mk (steps p) (n p) (sampler_name p) (width p) x (cfg_scale p)
     (seed_variation p) (seed p) (karras p) (denoising_strength p)
     (post_processing p).
Definition set_cfg_scale (x : option num) (p : t) : t :=
  mk (steps p) (n p) (sampler_name p) (width p) (height p) x
     (seed_variation p) (seed p) (karras p) (denoising_strength p)
     (post_processing p).
Definition set_seed_variation (x : option num) (p : t) : t :=
  mk (steps p) (n p) (sampler_name p) (width p) (height p) (cfg_scale p)
     x (seed p) (karras p) (denoising_strength p) (post_processing p).
Definition set_seed (x : value) (p : t) : t :=
  mk (steps p) (n p) (sampler_name p) (width p) (height p) (cfg_scale p)
     (seed_variation p) x (karras p) (denoising_strength p)
     (post_processing p).
Definition set_karras (x : option bool) (p : t) : t :=
  mk (steps p) (n p) (sampler_name p) (width p) (height p) (cfg_scale p)
     (seed_variation p) (seed p) x (denoising_strength p)
     (post_processing p).
Definition set_post_processing (x : option (list string)) (p : t) : t :=
  mk (steps p) (n p) (sampler_name p) (width p) (height p) (cfg_scale p)
     (seed_variation p) (seed p) (karras p) (denoising_strength p) x.
End Params.

(** [GenerationInput]: the body of a job submission. *)
Module GenerationInput.
Record t : Type := mk {
  prompt : string;
  params : option Params.t;
  nsfw : bool;
  censor_nsfw : bool;
  trusted_workers : bool;
  source_image : option string;
  source_mask : option string;
  source_processing : option SourceProcessing;
  workers : option (list string);
  models : list value
}.
End GenerationInput.

(** [ICurrentGeneration]: a queued job, the submitted input with the
    server-assigned id and the latest poll status. *)
Module ICurrentGeneration.
Record t : Type := mk {
  input : GenerationInput.t;
  id : value;
  waitData : option value
}.
End ICurrentGeneration.

(** [ImageData]: a gallery entry of the output store. *)
Module ImageData.
Record t : Type := mk {
  id : num;
  image : string;
  prompt : option string;
  modelName : value;
  workerID : value;
  workerName : value;
  seed : value;
  steps : option num;
  sampler_name : option string;
  width : option num;
  height : option num;
  cfg_scale : option num;
  karras : option bool;
  post_processing : option (list string);
  starred : bool
}.
End ImageData.

Module IModelData.
Record t : Type := mk {
  name : value;
  count : value;
  performance : value;
  description : value;
  style : value;
  nsfw : value;
  type : value;
  eta : value;
  queued : value
}.
End IModelData.

(** An entry of [availableModels]: [{ value, label }]. *)
Module ModelOption.
Record t : Type := mk {
  value : JS.value;
  label : string
}.
End ModelOption.

Module ITypeParams.
Record t : Type := mk {
  sourceImage : string;
  maskImage : string;
  fileList : list (string * string)
}.
End ITypeParams.

(** The fields of the options store that the generator store reads. *)
Module OptionsStore.
Record t : Type := mk {
  baseURL : string;
  apiKey : string;
  allowLargerParams : string;
  useWorker : string
}.
End OptionsStore.

(** What the environment delivers while the store awaits: the HTTP status
    and the parsed JSON body of the response, and whether the user pressed
    the cancel button ([cancelled.value = true]) in the meantime.  A timer
    reads the last field only. *)
Module Arrival.
Record t : Type := mk {
  status : Z;
  body : value;
  cancel_pressed : bool
}.
End Arrival.

(** The image a finished job hands to [generationDone]:
    [{...el, ...paramsCached}].  The ten keys of the input shadow the
    generation's own. *)
Module FinalImage.
Record t : Type := mk {
  generation : value;
  input : GenerationInput.t
}.
End FinalImage.

(** Calls to the collaborators of the store, in program order. *)
Inductive event : Type :=
| Fetch (m : Method) (url : string) (apikey : option string)
        (body : option GenerationInput.t)
| Sleep (ms : Z)
| RaiseError (msg : string)
| RaiseWarning (msg : string)
| UpdateProgress (statuses : list value) (secondsElapsed : Z)
| SaveImages
| RouterPush (path : string).

(** The refs of the store, the fields of the UI, options and output stores
    it touches, and the environment. *)
Record World : Type := mkWorld {
  generatorType : GeneratorType;
  prompt : string;
  negativePrompt : string;
  params : Params.t;
  nsfw : NsfwMode;
  trustedOnly : TrustMode;
  postProcessors : list string;
  availableModels : list ModelOption.t;
  modelsJSON : value;
  modelsData : list IModelData.t;
  selectedModel : value;
  inpainting : ITypeParams.t;
  img2img : ITypeParams.t;
  generating : bool;
  cancelled : bool;
  images : list ImageData.t;
  queue : list ICurrentGeneration.t;
  progress : num;
  activeCollapse : list string;
  activeIndex : string;
  options : OptionsStore.t;
  outputs : list ImageData.t;
  arrivals : list Arrival.t;
  dice : nat;
  trace : list event
}.

Definition set_generatorType (x : GeneratorType) (w : World) : World :=
  {| generatorType := x; prompt := prompt w;
     negativePrompt := negativePrompt w; params := params w; nsfw := nsfw w;
     trustedOnly := trustedOnly w; postProcessors := postProcessors w;
     availableModels := availableModels w; modelsJSON := modelsJSON w;
     modelsData := modelsData w; selectedModel := selectedModel w;
     inpainting := inpainting w; img2img := img2img w;
     generating := generating w; cancelled := cancelled w;
     images := images w; queue := queue w; progress := progress w;
     activeCollapse := activeCollapse w; activeIndex := activeIndex w;
     options := options w; outputs := outputs w; arrivals := arrivals w;
     dice := dice w; trace := trace w |}.

Definition set_prompt (x : string) (w : World) : World :=
  {| generatorType := generatorType w; prompt := x;
     negativePrompt := negativePrompt w; params := params w; nsfw := nsfw w;
     trustedOnly := trustedOnly w; postProcessors := postProcessors w;
     availableModels := availableModels w; modelsJSON := modelsJSON w;
     modelsData := modelsData w; selectedModel := selectedModel w;
     inpainting := inpainting w; img2img := img2img w;
     generating := generating w; cancelled := cancelled w;
     images := images w; queue := queue w; progress := progress w;
     activeCollapse := activeCollapse w; activeIndex := activeIndex w;
     options := options w; outputs := outputs w; arrivals := arrivals w;
     dice := dice w; trace := trace w |}.

Definition set_negativePrompt (x : string) (w : World) : World :=
  {| generatorType := generatorType w; prompt := prompt w;
     negativePrompt := x; params := params w; nsfw := nsfw w;
     trustedOnly := trustedOnly w; postProcessors := postProcessors w;
     availableModels := availableModels w; modelsJSON := modelsJSON w;
     modelsData := modelsData w; selectedModel := selectedModel w;
     inpainting := inpainting w; img2img := img2img w;
     generating := generating w; cancelled := cancelled w;
     images := images w; queue := queue w; progress := progress w;
     activeCollapse := activeCollapse w; activeIndex := activeIndex w;
     options := options w; outputs := outputs w; arrivals := arrivals w;
     dice := dice w; trace := trace w |}.

Definition set_params (x : Params.t) (w : World) : World :=
  {| generatorType := generatorType w; prompt := prompt w;
     negativePrompt := negativePrompt w; params := x; nsfw := nsfw w;
     trustedOnly := trustedOnly w; postProcessors := postProcessors w;
     availableModels := availableModels w; modelsJSON := modelsJSON w;
     modelsData := modelsData w; selectedModel := selectedModel w;
     inpainting := inpainting w; img2img := img2img w;
     generating := generating w; cancelled := cancelled w;
     images := images w; queue := queue w; progress := progress w;
     activeCollapse := activeCollapse w; activeIndex := activeIndex w;
     options := options w; outputs := outputs w; arrivals := arrivals w;
     dice := dice w; trace := trace w |}.

Definition set_postProcessors (x : list string) (w : World) : World :=
  {| generatorType := generatorType w; prompt := prompt w;
     negativePrompt := negativePrompt w; params := params w; nsfw := nsfw w;
     trustedOnly := trustedOnly w; postProcessors := x;
     availableModels := availableModels w; modelsJSON := modelsJSON w;
     modelsData := modelsData w; selectedModel := selectedModel w;
     inpainting := inpainting w; img2img := img2img w;
     generating := generating w; cancelled := cancelled w;
     images := images w; queue := queue w; progress := progress w;
     activeCollapse := activeCollapse w; activeIndex := activeIndex w;
     options := options w; outputs := outputs w; arrivals := arrivals w;
     dice := dice w; trace := trace w |}.

Definition set_availableModels (x : list ModelOption.t) (w : World) : World :=
  {| generatorType := generatorType w; prompt := prompt w;
     negativePrompt := negativePrompt w; params := params w; nsfw := nsfw w;
     trustedOnly := trustedOnly w; postProcessors := postProcessors w;
     availableModels := x; modelsJSON := modelsJSON w;
     modelsData := modelsData w; selectedModel := selectedModel w;
     inpainting := inpainting w; img2img := img2img w;
     generating := generating w; cancelled := cancelled w;
     images := images w; queue := queue w; progress := progress w;
     activeCollapse := activeCollapse w; activeIndex := activeIndex w;
     options := options w; outputs := outputs w; arrivals := arrivals w;
     dice := dice w; trace := trace w |}.

Definition set_modelsJSON (x : value) (w : World) : World :=
  {| generatorType := generatorType w; prompt := prompt w;
     negativePrompt := negativePrompt w; params := params w; nsfw := nsfw w;
     trustedOnly := trustedOnly w; postProcessors := postProcessors w;
     availableModels := availableModels w; modelsJSON := x;
     modelsData := modelsData w; selectedModel := selectedModel w;
     inpainting := inpainting w; img2img := img2img w;
     generating := generating w; cancelled := cancelled w;
     images := images w; queue := queue w; progress := progress w;
     activeCollapse := activeCollapse w; activeIndex := activeIndex w;
     options := options w; outputs := outputs w; arrivals := arrivals w;
     dice := dice w; trace := trace w |}.

Definition set_modelsData (x : list IModelData.t) (w : World) : World :=
  {| generatorType := generatorType w; prompt := prompt w;
     negativePrompt := negativePrompt w; params := params w; nsfw := nsfw w;
     trustedOnly := trustedOnly w; postProcessors := postProcessors w;
     availableModels := availableModels w; modelsJSON := modelsJSON w;
     modelsData := x; selectedModel := selectedModel w;
     inpainting := inpainting w; img2img := img2img w;
     generating := generating w; cancelled := cancelled w;
     images := images w; queue := queue w; progress := progress w;
     activeCollapse := activeCollapse w; activeIndex := activeIndex w;
     options := options w; outputs := outputs w; arrivals := arrivals w;
     dice := dice w; trace := trace w |}.

Definition set_selectedModel (x : value) (w : World) : World :=
  {| generatorType := generatorType w; prompt := prompt w;
     negativePrompt := negativePrompt w; params := params w; nsfw := nsfw w;
     trustedOnly := trustedOnly w; postProcessors := postProcessors w;
     availableModels := availableModels w; modelsJSON := modelsJSON w;
     modelsData := modelsData w; selectedModel := x;
     inpainting := inpainting w; img2img := img2img w;
     generating := generating w; cancelled := cancelled w;
     images := images w; queue := queue w; progress := progress w;
     activeCollapse := activeCollapse w; activeIndex := activeIndex w;
     options := options w; outputs := outputs w; arrivals := arrivals w;
     dice := dice w; trace := trace w |}.

Definition set_inpainting (x : ITypeParams.t) (w : World) : World :=
  {| generatorType := generatorType w; prompt := prompt w;
     negativePrompt := negativePrompt w; params := params w; nsfw := nsfw w;
     trustedOnly := trustedOnly w; postProcessors := postProcessors w;
     availableModels := availableModels w; modelsJSON := modelsJSON w;
     modelsData := modelsData w; selectedModel := selectedModel w;
     inpainting := x; img2img := img2img w; generating := generating w;
     cancelled := cancelled w; images := images w; queue := queue w;
     progress := progress w; activeCollapse := activeCollapse w;
     activeIndex := activeIndex w; options := options w;
     outputs := outputs w; arrivals := arrivals w; dice := dice w;
     trace := trace w |}.

Definition set_img2img (x : ITypeParams.t) (w : World) : World :=
  {| generatorType := generatorType w; prompt := prompt w;
     negativePrompt := negativePrompt w; params := params w; nsfw := nsfw w;
     trustedOnly := trustedOnly w; postProcessors := postProcessors w;
     availableModels := availableModels w; modelsJSON := modelsJSON w;
     modelsData := modelsData w; selectedModel := selectedModel w;
     inpainting := inpainting w; img2img := x; generating := generating w;
     cancelled := cancelled w; images := images w; queue := queue w;
     progress := progress w; activeCollapse := activeCollapse w;
     activeIndex := activeIndex w; options := options w;
     outputs := outputs w; arrivals := arrivals w; dice := dice w;
     trace := trace w |}.

Definition set_generating (x : bool) (w : World) : World :=
  {| generatorType := generatorType w; prompt := prompt w;
     negativePrompt := negativePrompt w; params := params w; nsfw := nsfw w;
     trustedOnly := trustedOnly w; postProcessors := postProcessors w;
     availableModels := availableModels w; modelsJSON := modelsJSON w;
     modelsData := modelsData w; selectedModel := selectedModel w;
     inpainting := inpainting w; img2img := img2img w; generating := x;
     cancelled := cancelled w; images := images w; queue := queue w;
     progress := progress w; activeCollapse := activeCollapse w;
     activeIndex := activeIndex w; options := options w;
     outputs := outputs w; arrivals := arrivals w; dice := dice w;
     trace := trace w |}.

Definition set_cancelled (x : bool) (w : World) : World :=
  {| generatorType := generatorType w; prompt := prompt w;
     negativePrompt := negativePrompt w; params := params w; nsfw := nsfw w;
     trustedOnly := trustedOnly w; postProcessors := postProcessors w;
     availableModels := availableModels w; modelsJSON := modelsJSON w;
     modelsData := modelsData w; selectedModel := selectedModel w;
     inpainting := inpainting w; img2img := img2img w;
     generating := generating w; cancelled := x; images := images w;
     queue := queue w; progress := progress w;
     activeCollapse := activeCollapse w; activeIndex := activeIndex w;
     options := options w; outputs := outputs w; arrivals := arrivals w;
     dice := dice w; trace := trace w |}.

Definition set_images (x : list ImageData.t) (w : World) : World :=
  {| generatorType := generatorType w; prompt := prompt w;
     negativePrompt := negativePrompt w; params := params w; nsfw := nsfw w;
     trustedOnly := trustedOnly w; postProcessors := postProcessors w;
     availableModels := availableModels w; modelsJSON := modelsJSON w;
     modelsData := modelsData w; selectedModel := selectedModel w;
     inpainting := inpainting w; img2img := img2img w;
     generating := generating w; cancelled := cancelled w; images := x;
     queue := queue w; progress := progress w;
     activeCollapse := activeCollapse w; activeIndex := activeIndex w;
     options := options w; outputs := outputs w; arrivals := arrivals w;
     dice := dice w; trace := trace w |}.

Definition set_queue (x : list ICurrentGeneration.t) (w : World) : World :=
  {| generatorType := generatorType w; prompt := prompt w;
     negativePrompt := negativePrompt w; params := params w; nsfw := nsfw w;
     trustedOnly := trustedOnly w; postProcessors := postProcessors w;
     availableModels := availableModels w; modelsJSON := modelsJSON w;
     modelsData := modelsData w; selectedModel := selectedModel w;
     inpainting := inpainting w; img2img := img2img w;
     generating := generating w; cancelled := cancelled w;
     images := images w; queue := x; progress := progress w;
     activeCollapse := activeCollapse w; activeIndex := activeIndex w;
     options := options w; outputs := outputs w; arrivals := arrivals w;
     dice := dice w; trace := trace w |}.

Definition set_progress (x : num) (w : World) : World :=
  {| generatorType := generatorType w; prompt := prompt w;
     negativePrompt := negativePrompt w; params := params w; nsfw := nsfw w;
     trustedOnly := trustedOnly w; postProcessors := postProcessors w;
     availableModels := availableModels w; modelsJSON := modelsJSON w;
     modelsData := modelsData w; selectedModel := selectedModel w;
     inpainting := inpainting w; img2img := img2img w;
     generating := generating w; cancelled := cancelled w;
     images := images w; queue := queue w; progress := x;
     activeCollapse := activeCollapse w; activeIndex := activeIndex w;
     options := options w; outputs := outputs w; arrivals := arrivals w;
     dice := dice w; trace := trace w |}.

Definition set_activeCollapse (x : list string) (w : World) : World :=
  {| generatorType := generatorType w; prompt := prompt w;
     negativePrompt := negativePrompt w; params := params w; nsfw := nsfw w;
     trustedOnly := trustedOnly w; postProcessors := postProcessors w;
     availableModels := availableModels w; modelsJSON := modelsJSON w;
     modelsData := modelsData w; selectedModel := selectedModel w;
     inpainting := inpainting w; img2img := img2img w;
     generating := generating w; cancelled := cancelled w;
     images := images w; queue := queue w; progress := progress w;
     activeCollapse := x; activeIndex := activeIndex w;
     options := options w; outputs := outputs w; arrivals := arrivals w;
     dice := dice w; trace := trace w |}.

Definition set_activeIndex (x : string) (w : World) : World :=
  {| generatorType := generatorType w; prompt := prompt w;
     negativePrompt := negativePrompt w; params := params w; nsfw := nsfw w;
     trustedOnly := trustedOnly w; postProcessors := postProcessors w;
     availableModels := availableModels w; modelsJSON := modelsJSON w;
     modelsData := modelsData w; selectedModel := selectedModel w;
     inpainting := inpainting w; img2img := img2img w;
     generating := generating w; cancelled := cancelled w;
     images := images w; queue := queue w; progress := progress w;
     activeCollapse := activeCollapse w; activeIndex := x;
     options := options w; outputs := outputs w; arrivals := arrivals w;
     dice := dice w; trace := trace w |}.

Definition set_outputs (x : list ImageData.t) (w : World) : World :=
  {| generatorType := generatorType w; prompt := prompt w;
     negativePrompt := negativePrompt w; params := params w; nsfw := nsfw w;
     trustedOnly := trustedOnly w; postProcessors := postProcessors w;
     availableModels := availableModels w; modelsJSON := modelsJSON w;
     modelsData := modelsData w; selectedModel := selectedModel w;
     inpainting := inpainting w; img2img := img2img w;
     generating := generating w; cancelled := cancelled w;
     images := images w; queue := queue w; progress := progress w;
     activeCollapse := activeCollapse w; activeIndex := activeIndex w;
     options := options w; outputs := x; arrivals := arrivals w;
     dice := dice w; trace := trace w |}.

Definition set_arrivals (x : list Arrival.t) (w : World) : World :=
  {| generatorType := generatorType w; prompt := prompt w;
     negativePrompt := negativePrompt w; params := params w; nsfw := nsfw w;
     trustedOnly := trustedOnly w; postProcessors := postProcessors w;
     availableModels := availableModels w; modelsJSON := modelsJSON w;
     modelsData := modelsData w; selectedModel := selectedModel w;
     inpainting := inpainting w; img2img := img2img w;
     generating := generating w; cancelled := cancelled w;
     images := images w; queue := queue w; progress := progress w;
     activeCollapse := activeCollapse w; activeIndex := activeIndex w;
     options := options w; outputs := outputs w; arrivals := x;
     dice := dice w; trace := trace w |}.

Definition set_trace (x : list event) (w : World) : World :=
  {| generatorType := generatorType w; prompt := prompt w;
     negativePrompt := negativePrompt w; params := params w; nsfw := nsfw w;
     trustedOnly := trustedOnly w; postProcessors := postProcessors w;
     availableModels := availableModels w; modelsJSON := modelsJSON w;
     modelsData := modelsData w; selectedModel := selectedModel w;
     inpainting := inpainting w; img2img := img2img w;
     generating := generating w; cancelled := cancelled w;
     images := images w; queue := queue w; progress := progress w;
     activeCollapse := activeCollapse w; activeIndex := activeIndex w;
     options := options w; outputs := outputs w; arrivals := arrivals w;
     dice := dice w; trace := x |}.

(** ** Control: results, exceptions, awaits *)

(** How a call ends: with a value, with an uncaught [TypeError], or still
    waiting on an [await] the environment never resolves. *)
Inductive outcome (A : Type) : Type :=
| Returned (a : A)
| TypeError
| Pending.
Arguments Returned {A} a.
Arguments TypeError {A}.
Arguments Pending {A}.

Definition M (A : Type) : Type := World -> outcome A * World.

Definition ret {A : Type} (a : A) : M A := fun w => (Returned a, w).
Definition throw {A : Type} : M A := fun w => (TypeError, w).
Definition bind {A B : Type} (m : M A) (k : A -> M B) : M B :=
  fun w =>
    match m w with
    | (Returned a, w') => k a w'
    | (TypeError, w') => (TypeError, w')
    | (Pending, w') => (Pending, w')
    end.

Notation "x <- m ;; k" := (bind m (fun x => k))
  (at level 61, m at next level, right associativity).
Notation "m ;;; k" := (bind m (fun _ => k))
  (at level 61, right associativity).

Definition gets {A : Type} (f : World -> A) : M A :=
  fun w => (Returned (f w), w).
Definition modify (f : World -> World) : M unit :=
  fun w => (Returned tt, f w).
Definition emit (e : event) : M unit :=
  modify (fun w => set_trace (trace w ++ [e]) w).

(** An [await]: the next arrival, if any; a cancel press during the wait
    sets the [cancelled] ref. *)
Definition await : M Arrival.t :=
  fun w =>
    match arrivals w with
    | [] => (Pending, w)
    | a :: rest =>
        let w1 := set_arrivals rest w in
        (Returned a,
         if Arrival.cancel_pressed a then set_cancelled true w1 else w1)
    end.

(** [await fetch(url, init)] followed by [await response.json()]. *)
Definition fetch (m : Method) (url : string) (apikey : option string)
    (body : option GenerationInput.t) : M Arrival.t :=
  emit (Fetch m url apikey body) ;;; await.

Definition sleep (ms : Z) : M unit :=
  emit (Sleep ms) ;;; _ <- await ;; ret tt.

(** ** The store *)

Definition getDefaultStore : Params.t :=
  Params.mk (Some (Fin 30)) (Some (Fin 1)) (Some "k_euler")
    (Some (Fin 512)) (Some (Fin 512)) (Some (Fin 7)) (Some (Fin 1000))
    (VStr "") (Some true) (Some (3 # 4)%Q) None.

Definition maxDimensions (w : World) : num :=
  if String.eqb (OptionsStore.allowLargerParams (options w)) "Enabled"
  then Fin 3072 else Fin 1024.

Definition maxSteps (w : World) : num :=
  if String.eqb (OptionsStore.allowLargerParams (options w)) "Enabled"
  then Fin 500 else Fin 50.

Definition getFullPrompt (w : World) : string :=
  if String.eqb (negativePrompt w) "" then prompt w
  else prompt w ++ " ### " ++ negativePrompt w.

Definition onInvalidResponse (msg : string) : M bool :=
  emit (RaiseError msg) ;;;
  modify (set_progress (Fin 0)) ;;;
  modify (set_cancelled false) ;;;
  modify (set_images []) ;;;
  ret false.

Definition formatError (kv : string * value) : string :=
  fst kv ++ " - " ++ to_string (snd kv).

(** [validateResponse(response, json, goodStatus, msg)]; every caller
    passes a single number as [goodStatus]. *)
Definition validateResponse (status : Z) (json : value) (goodStatus : Z)
    (msg : string) : M bool :=
  if (status =? goodStatus) && truthy json then ret true
  else
    match prop "message" json with
    | None => throw
    | Some message =>
        if negb (truthy message) then
          onInvalidResponse
            (msg ++ ": Got response code " ++ string_of_Z status)
        else
          match prop "errors" json with
          | None => throw
          | Some errors =>
              if negb (truthy errors) then
                onInvalidResponse (msg ++ ": " ++ to_string message)
              else
                match entries errors with
                | None => throw
                | Some es =>
                    let formattedError :=
                      String.concat " | " (map formatError es) in
                    onInvalidResponse
                      (msg ++ ": " ++ to_string message
                           ++ " (" ++ formattedError ++ ")")
                end
          end
    end.

Definition url_async (w : World) : string :=
  OptionsStore.baseURL (options w) ++ "/api/v2/generate/async".
Definition url_check (w : World) (imageID : value) : string :=
  OptionsStore.baseURL (options w) ++ "/api/v2/generate/check/"
    ++ to_string imageID.
Definition url_status (w : World) (imageID : value) : string :=
  OptionsStore.baseURL (options w) ++ "/api/v2/generate/status/"
    ++ to_string imageID.
Definition url_models (w : World) : string :=
  OptionsStore.baseURL (options w) ++ "/api/v2/status/models".

(** [fetchNewID]: [None] is the result [false]. *)
Definition fetchNewID (parameters : GenerationInput.t) : M (option value) :=
  url <- gets url_async ;;
  key <- gets (fun w => OptionsStore.apiKey (options w)) ;;
  response <- fetch POST url (Some key) (Some parameters) ;;
  let resJSON := Arrival.body response in
  ok <- validateResponse (Arrival.status response) resJSON 202
          "Failed to fetch ID" ;;
  if negb ok then ret None else ret (Some resJSON).

(** The record [{ wait_time: 0, done: false }]. *)
Definition cancelled_status : value :=
  VObj [("wait_time", VNum (Fin 0)); ("done", VBool false)].

Definition checkImage (imageID : value) : M (option value) :=
  url <- gets (fun w => url_check w imageID) ;;
  response <- fetch GET url None None ;;
  let resJSON := Arrival.body response in
  c <- gets cancelled ;;
  if c then ret (Some cancelled_status)
  else
    ok <- validateResponse (Arrival.status response) resJSON 200
            "Failed to check image status" ;;
    if negb ok then ret None else ret (Some resJSON).

(** [cancelImage] up to its first [await]: the DELETE request is sent. *)
Definition cancelImage_request (imageID : value) : M unit :=
  url <- gets (fun w => url_status w imageID) ;;
  emit (Fetch DELETE url None None).

(** [cancelImage]: [None] is the result [false], [Some g] the value of
    [resJSON.generations]. *)
Definition cancelImage (imageID : value) : M (option value) :=
  cancelImage_request imageID ;;;
  response <- await ;;
  let resJSON := Arrival.body response in
  ok <- validateResponse (Arrival.status response) resJSON 200
          "Failed to cancel image" ;;
  if negb ok then ret None
  else
    match prop "generations" resJSON with
    | None => throw
    | Some generations => ret (Some generations)
    end.

Definition getImageStatus (imageID : value) : M (option value) :=
  url <- gets (fun w => url_status w imageID) ;;
  response <- fetch GET url None None ;;
  let resJSON := Arrival.body response in
  ok <- validateResponse (Arrival.status response) resJSON 200
          "Failed to check image status" ;;
  if negb ok then ret None
  else
    match prop "generations" resJSON with
    | None => throw
    | Some generations => ret (Some generations)
    end.

(** [queue.value.forEach(el => cancelImage(el.id))]: the calls are not
    awaited, so each runs to its first [await] and the responses arrive
    after the caller has returned. *)
Fixpoint cancelAll (q : list ICurrentGeneration.t) : M unit :=
  match q with
  | [] => ret tt
  | el :: rest =>
      cancelImage_request (ICurrentGeneration.id el) ;;; cancelAll rest
  end.

Definition generationFailed : M (list ImageData.t) :=
  modify (set_generating false) ;;;
  q <- gets queue ;;
  cancelAll q ;;;
  modify (set_queue []) ;;;
  ret [].

(** *** The poll loop *)

(** [el.waitData?.done] as a condition. *)
Definition job_done (el : ICurrentGeneration.t) : bool :=
  match ICurrentGeneration.waitData el with
  | None => false
  | Some waitData => truthy (prop_opt "done" waitData)
  end.

Definition set_waitData (status : value) (el : ICurrentGeneration.t)
  : ICurrentGeneration.t :=
  ICurrentGeneration.mk (ICurrentGeneration.input el)
    (ICurrentGeneration.id el) (Some status).

Definition waitData_value (el : ICurrentGeneration.t) : value :=
  match ICurrentGeneration.waitData el with
  | None => VUndefined
  | Some waitData => waitData
  end.

(** The [for ... of queue.value] of one poll iteration.  [checked] are the
    jobs already visited, [todo] the ones still to visit; the assignment
    [queuedImage.waitData = status] updates the job in place in the queue.
    The result [false] is the exit through [return generationFailed()]. *)
Fixpoint pollJobs (checked todo : list ICurrentGeneration.t) : M bool :=
  match todo with
  | [] => ret true
  | queuedImage :: rest =>
      if job_done queuedImage then pollJobs (checked ++ [queuedImage]) rest
      else
        status <- checkImage (ICurrentGeneration.id queuedImage) ;;
        match status with
        | None => ret false
        | Some st =>
            let updated := set_waitData st queuedImage in
            modify (set_queue (checked ++ updated :: rest)) ;;;
            pollJobs (checked ++ [updated]) rest
        end
  end.

(** How control leaves the [while]: by its condition, or by the [return]
    inside its body. *)
Inductive loop_exit : Type :=
| ConditionFalse
| CheckFailed.

Definition loop_condition (w : World) : bool :=
  negb (forallb job_done (queue w)) && negb (cancelled w).

(** The [while] of [generateImage].  [mergeObjects(mapped)] is a pure fold
    whose result only the UI store reads; the progress event keeps its
    argument.  The fuel bounds the number of iterations and is spent only
    when the arrivals are. *)
Fixpoint pollLoop (fuel : nat) (secondsElapsed : Z) : M loop_exit :=
  match fuel with
  | O => fun w => (Pending, w)
  | S fuel' =>
      continue <- gets loop_condition ;;
      if negb continue then ret ConditionFalse
      else
        q <- gets queue ;;
        ok <- pollJobs [] q ;;
        if negb ok then ret CheckFailed
        else
          mapped <- gets (fun w => map waitData_value (queue w)) ;;
          emit (UpdateProgress mapped (secondsElapsed + 1)) ;;;
          sleep 500 ;;;
          pollLoop fuel' (secondsElapsed + 1)
  end.

(** *** Final retrieval *)

(** [...finalImages]: the elements of an iterable; [None] is the TypeError
    of spreading a value that is not iterable. *)
Definition spread (v : value) : option (list value) :=
  match v with
  | VArr l => Some l
  | VStr s => Some (chars s)
  | _ => None
  end.

(** The [for ... of queueCached].  [None] is the exit through
    [return generationFailed()]. *)
Fixpoint collectFinal (queueCached : list ICurrentGeneration.t)
    (allImages : list value) : M (option (list value)) :=
  match queueCached with
  | [] => ret (Some allImages)
  | queuedImage :: rest =>
      let id := ICurrentGeneration.id queuedImage in
      c <- gets cancelled ;;
      finalImages <- (if c then cancelImage id else getImageStatus id) ;;
      match finalImages with
      | None => ret None
      | Some generations =>
          if negb (truthy generations) then ret None
          else
            match spread generations with
            | None => throw
            | Some l => collectFinal rest (allImages ++ l)
            end
      end
  end.

Definition has_upscaler (p : option Params.t) : bool :=
  match p with
  | Some q =>
      match Params.post_processing q with
      | Some l => existsb (String.eqb "RealESRGAN_x4plus") l
      | None => false
      end
  | None => false
  end.

(** [(params?.width as number) * (upscaled ? 4 : 1)] *)
Definition scaled (dim : option num) (upscaled : bool) : num :=
  match dim with
  | None => NaN
  | Some d => num_scale d (if upscaled then 4 else 1)
  end.

Definition opt_bind {A B : Type} (o : option A) (f : A -> option B)
  : option B :=
  match o with
  | Some a => f a
  | None => None
  end.

(** The gallery entry of one finished image. *)
Definition gallery_entry (newID : num) (image : FinalImage.t) : ImageData.t :=
  let el := FinalImage.generation image in
  let params := GenerationInput.params (FinalImage.input image) in
  let upscaled := has_upscaler params in
  {| ImageData.id := newID;
     ImageData.image := "data:image/webp;base64," ++ to_string (prop_opt "img" el);
     ImageData.prompt := Some (GenerationInput.prompt (FinalImage.input image));
     ImageData.modelName := prop_opt "model" el;
     ImageData.workerID := prop_opt "worker_id" el;
     ImageData.workerName := prop_opt "worker_name" el;
     ImageData.seed := prop_opt "seed" el;
     ImageData.steps := opt_bind params Params.steps;
     ImageData.sampler_name := opt_bind params Params.sampler_name;
     ImageData.width := Some (scaled (opt_bind params Params.width) upscaled);
     ImageData.height := Some (scaled (opt_bind params Params.height) upscaled);
     ImageData.cfg_scale := opt_bind params Params.cfg_scale;
     ImageData.karras := opt_bind params Params.karras;
     ImageData.post_processing := opt_bind params Params.post_processing;
     ImageData.starred := false |}.

(** [validateParam]: the default comes back as it was passed. *)
Definition validateParam (paramName : string) (param max : num)
    (defaultValue : option num) : M (option num) :=
  if num_gt param max then
    emit (RaiseWarning
            ("This image was generated using the 'Larger Values' option. Setting '"
               ++ paramName ++ "' to its default value instead of "
               ++ num_to_string param ++ ".")) ;;;
    ret defaultValue
  else ret (Some param).

(** [s.split(sep)] for a non-empty [sep]: [skip] counts the characters of a
    separator already matched that remain to be dropped. *)
Fixpoint split_from (sep : string) (skip : nat) (cur s : string)
  : list string :=
  match s with
  | EmptyString => [cur]
  | String c r =>
      match skip with
      | S k => split_from sep k cur r
      | O =>
          if String.prefix sep s
          then cur :: split_from sep (String.length sep - 1) "" r
          else split_from sep 0 (cur ++ String c "") r
      end
  end.

Definition split (sep s : string) : list string := split_from sep 0 "" s.

Definition when (b : bool) (m : M unit) : M unit :=
  if b then m else ret tt.

Definition modify_params (f : Params.t -> Params.t) : M unit :=
  modify (fun w => set_params (f (params w)) w).

Definition str_truthy (o : option string) : bool :=
  match o with
  | Some s => negb (String.eqb s "")
  | None => false
  end.

Definition opt_num_truthy (o : option num) : bool :=
  match o with
  | Some n => num_truthy n
  | None => false
  end.

Definition as_num (o : option num) : num :=
  match o with
  | Some n => n
  | None => NaN
  end.

(** [generateText2Img]: load a gallery entry back into the form. *)
Definition generateText2Img (data : ImageData.t) : M unit :=
  let defaults := getDefaultStore in
  modify (set_generatorType Text2Img) ;;;
  modify (set_activeCollapse ["2"]) ;;;
  modify (set_activeIndex "/") ;;;
  emit (RouterPush "/") ;;;
  when (str_truthy (ImageData.prompt data))
    (let splitPrompt :=
       split " ### " (match ImageData.prompt data with
                      | Some p => p
                      | None => ""
                      end) in
     modify (set_prompt (nth 0 splitPrompt "")) ;;;
     modify (set_negativePrompt (nth 1 splitPrompt ""))) ;;;
  when (str_truthy (ImageData.sampler_name data))
    (modify_params (Params.set_sampler_name (ImageData.sampler_name data))) ;;;
  when (opt_num_truthy (ImageData.steps data))
    (cap <- gets maxSteps ;;
     v <- validateParam "steps" (as_num (ImageData.steps data)) cap
            (Params.steps defaults) ;;
     modify_params (Params.set_steps v)) ;;;
  when (opt_num_truthy (ImageData.cfg_scale data))
    (modify_params (Params.set_cfg_scale (ImageData.cfg_scale data))) ;;;
  when (opt_num_truthy (ImageData.width data))
    (cap <- gets maxDimensions ;;
     v <- validateParam "width" (as_num (ImageData.width data)) cap
            (Params.width defaults) ;;
     modify_params (Params.set_width v)) ;;;
  when (opt_num_truthy (ImageData.height data))
    (cap <- gets maxDimensions ;;
     v <- validateParam "height" (as_num (ImageData.height data)) cap
            (Params.height defaults) ;;
     modify_params (Params.set_height v)) ;;;
  when (truthy (ImageData.seed data))
    (modify_params (Params.set_seed (ImageData.seed data))) ;;;
  when (match ImageData.karras data with Some true => true | _ => false end)
    (modify_params (Params.set_karras (ImageData.karras data))) ;;;
  when (match ImageData.post_processing data with Some _ => true | None => false end)
    (modify (set_postProcessors
               (match ImageData.post_processing data with
                | Some l => l
                | None => []
                end))) ;;;
  when (truthy (ImageData.modelName data))
    (modify (set_selectedModel (ImageData.modelName data))).

(** *** What the store takes from outside

    The constant [MODELS_DB_URL] of [@/constants], the two methods of the
    output store that [generationDone] calls, the canvas store's
    [saveImages], and the engine's [Array.prototype.sort] under the
    comparator [(a, b) => b.count - a.count] are not part of the store.
    They are parameters of the model. *)
Record Outside : Type := mkOutside {
  MODELS_DB_URL : string;
  (** [useOutputStore().getNewImageID()], a function of the stored outputs *)
  getNewImageID : list ImageData.t -> num;
  (** [useOutputStore().correctOutputIDs()], acting on the stored outputs *)
  correctOutputIDs : list ImageData.t -> list ImageData.t;
  (** [useCanvasStore().saveImages()], acting on the [img2img] and
      [inpainting] refs *)
  canvasSaveImages : ITypeParams.t * ITypeParams.t -> ITypeParams.t * ITypeParams.t;
  (** [resJSON.sort((a, b) => b.count - a.count)] on non-nullish elements *)
  sortByCount : list value -> list value
}.

Section Store.

Variable ext : Outside.

(** [generationDone] *)
Definition generationDone (finalImages : list FinalImage.t)
  : M (list ImageData.t) :=
  modify (set_generating false) ;;;
  modify (set_progress (Fin 0)) ;;;
  modify (set_cancelled false) ;;;
  finalParams <-
    gets (fun w =>
            map (fun image => gallery_entry (getNewImageID ext (outputs w)) image)
                finalImages) ;;
  modify (set_images finalParams) ;;;
  modify (fun w => set_outputs (outputs w ++ finalParams) w) ;;;
  modify (fun w => set_outputs (correctOutputIDs ext (outputs w)) w) ;;;
  ret finalParams.

Definition saveImages : M unit :=
  emit SaveImages ;;;
  modify (fun w =>
            let r := canvasSaveImages ext (img2img w, inpainting w) in
            set_inpainting (snd r) (set_img2img (fst r) w)).

Definition is_random (v : value) : bool := strict_eq v (VStr "Random!").

(** The [models] of the request.  [Math.floor(Math.random() * n)] is the
    index [dice mod n]; with no real model the read of [.value] on
    [undefined] throws. *)
Definition pickModel : M (list value) :=
  sel <- gets selectedModel ;;
  if is_random sel then
    realModels <-
      gets (fun w => filter (fun el => negb (is_random (ModelOption.value el)))
                            (availableModels w)) ;;
    d <- gets dice ;;
    match nth_error realModels (Nat.modulo d (List.length realModels)) with
    | None => throw
    | Some el => ret [ModelOption.value el]
    end
  else ret [sel].

Definition sources (type : GeneratorType)
  : M (option string * option string * option SourceProcessing) :=
  match type with
  | Text2Img => ret (None, None, None)
  | Img2Img =>
      saveImages ;;;
      i <- gets img2img ;;
      ret (Some (ITypeParams.sourceImage i),
           if String.eqb (ITypeParams.maskImage i) "" then None
           else Some (ITypeParams.maskImage i),
           Some SPimg2img)
  | Inpainting =>
      saveImages ;;;
      i <- gets inpainting ;;
      ret (Some (ITypeParams.sourceImage i),
           Some (ITypeParams.maskImage i),
           Some SPinpainting)
  end.

Definition cacheParams
    (src : option string * option string * option SourceProcessing)
    (model : list value) (w : World) : GenerationInput.t :=
  let '(sourceImage, maskImage, sourceProcessing) := src in
  {| GenerationInput.prompt := getFullPrompt w;
     GenerationInput.params :=
       Some (Params.set_post_processing (Some (postProcessors w))
               (Params.set_seed_variation
                  (Some (if strict_eq (Params.seed (params w)) (VStr "")
                         then Fin 1000 else Fin 1))
                  (params w)));
     GenerationInput.nsfw :=
       match nsfw w with NsfwEnabled => true | _ => false end;
     GenerationInput.censor_nsfw :=
       match nsfw w with NsfwCensored => true | _ => false end;
     GenerationInput.trusted_workers :=
       match trustedOnly w with TrustedOnly => true | _ => false end;
     GenerationInput.source_image := sourceImage;
     GenerationInput.source_mask := maskImage;
     GenerationInput.source_processing := sourceProcessing;
     GenerationInput.workers :=
       if String.eqb (OptionsStore.useWorker (options w)) "None" then None
       else Some [OptionsStore.useWorker (options w)];
     GenerationInput.models := model |}.

(** The part of [generateImage] from the poll loop on, once the new job is
    in the queue. *)
Definition pollAndCollect (paramsCached : GenerationInput.t)
  : M (list ImageData.t) :=
  fuel <- gets (fun w => S (List.length (arrivals w))) ;;
  exit <- pollLoop fuel 0 ;;
  match exit with
  | CheckFailed => generationFailed
  | ConditionFalse =>
      queueCached <- gets queue ;;
      modify (set_queue []) ;;;
      collected <- collectFinal queueCached [] ;;
      match collected with
      | None => generationFailed
      | Some allImages =>
          generationDone
            (map (fun el => FinalImage.mk el paramsCached) allImages)
      end
  end.

(** [generateImage] *)
Definition generateImage (type : GeneratorType) : M (list ImageData.t) :=
  p <- gets prompt ;;
  if String.eqb p "" then ret []
  else
    src <- sources type ;;
    model <- pickModel ;;
    paramsCached <- gets (cacheParams src model) ;;
    modify (set_generating true) ;;;
    resJSON <- fetchNewID paramsCached ;;
    match resJSON with
    | None => generationFailed
    | Some r =>
        modify (set_images []) ;;;
        match prop "id" r with
        | None => throw
        | Some id =>
            modify (fun w =>
                      set_queue
                        (queue w ++ [ICurrentGeneration.mk paramsCached id None])
                        w) ;;;
            pollAndCollect paramsCached
        end
    end.

(** *** The model registry *)

Definition model_option (el : value) : ModelOption.t :=
  ModelOption.mk (prop_opt "name" el)
    (to_string (prop_opt "name" el) ++ " ("
       ++ to_string (prop_opt "count" el) ++ ")").

Definition random_option : ModelOption.t :=
  ModelOption.mk (VStr "Random!") "Random!".

(** One turn of the [for] over [nameList]: the record pushed for the
    database entry [entry]; [None] is the TypeError of destructuring
    [null] or [undefined]. *)
Definition merge_model (resJSON : list value) (entry : value)
  : option IModelData.t :=
  if nullish entry then None
  else
    let name := prop_opt "name" entry in
    let description := prop_opt "description" entry in
    let style := prop_opt "style" entry in
    let nsfw := prop_opt "nsfw" entry in
    let type := prop_opt "type" entry in
    let names := map (prop_opt "name") resJSON in
    if includes name names then
      match opt_bind (indexOf name names) (nth_error resJSON) with
      | None => None
      | Some live =>
          if nullish live then None
          else
            Some {| IModelData.name := name;
                    IModelData.description := description;
                    IModelData.style := style;
                    IModelData.nsfw := nsfw;
                    IModelData.type := type;
                    IModelData.queued := prop_opt "queued" live;
                    IModelData.eta := prop_opt "eta" live;
                    IModelData.count := prop_opt "count" live;
                    IModelData.performance := prop_opt "performance" live |}
      end
    else
      Some {| IModelData.name := name;
              IModelData.description := description;
              IModelData.style := style;
              IModelData.nsfw := nsfw;
              IModelData.type := type;
              IModelData.queued := VNum (Fin 0);
              IModelData.eta := VNum Infinity;
              IModelData.count := VNum (Fin 0);
              IModelData.performance := VNum (Fin 0) |}.

Fixpoint merge_models (resJSON : list value) (dbEntries : list value)
  : option (list IModelData.t) :=
  match dbEntries with
  | [] => Some []
  | entry :: rest =>
      match merge_model resJSON entry with
      | None => None
      | Some record =>
          match merge_models resJSON rest with
          | None => None
          | Some records => Some (record :: records)
          end
      end
  end.

(** [Object.keys(dbJSON)] and, key by key, [dbJSON[key]]. *)
Definition db_entries (dbJSON : value) : option (list value) :=
  match entries dbJSON with
  | None => None
  | Some es => Some (map (fun key => lookup key es) (map fst es))
  end.

(** [updateAvailableModels] *)
Definition updateAvailableModels : M unit :=
  url <- gets url_models ;;
  response <- fetch GET url None None ;;
  ok <- validateResponse (Arrival.status response) (Arrival.body response)
          200 "Failed to get available models" ;;
  if negb ok then ret tt
  else
    match Arrival.body response with
    | VArr l =>
        if existsb nullish l then throw
        else
          let resJSON := sortByCount ext l in
          modify (set_availableModels
                    (map model_option resJSON ++ [random_option])) ;;;
          dbResponse <- fetch GET (MODELS_DB_URL ext) None None ;;
          let dbJSON := Arrival.body dbResponse in
          modify (set_modelsJSON dbJSON) ;;;
          match opt_bind (db_entries dbJSON) (merge_models resJSON) with
          | None => throw
          | Some newStuff => modify (set_modelsData newStuff)
          end
    | _ => throw
    end.

End Store.

(** ** Concrete instances

    One choice of the outside parameters and a few worlds, used to run the
    model on examples. *)

Definition set_id (i : num) (d : ImageData.t) : ImageData.t :=
  {| ImageData.id := i;
     ImageData.image := ImageData.image d;
     ImageData.prompt := ImageData.prompt d;
     ImageData.modelName := ImageData.modelName d;
     ImageData.workerID := ImageData.workerID d;
     ImageData.workerName := ImageData.workerName d;
     ImageData.seed := ImageData.seed d;
     ImageData.steps := ImageData.steps d;
     ImageData.sampler_name := ImageData.sampler_name d;
     ImageData.width := ImageData.width d;
     ImageData.height := ImageData.height d;
     ImageData.cfg_scale := ImageData.cfg_scale d;
     ImageData.karras := ImageData.karras d;
     ImageData.post_processing := ImageData.post_processing d;
     ImageData.starred := ImageData.starred d |}.

(** An id correction that numbers the entries by position. *)
Fixpoint renumber_from (i : Z) (l : list ImageData.t) : list ImageData.t :=
  match l with
  | [] => []
  | d :: r => set_id (Fin i) d :: renumber_from (i + 1) r
  end.

Definition count_of (el : value) : Z :=
  match prop_opt "count" el with
  | VNum (Fin z) => z
  | _ => 0
  end.

(** A stable insertion sort by descending [count]: an element is put in
    front of the first one whose count is not larger, so that it stays in
    front of the elements of equal count that came after it. *)
Fixpoint insert_by_count (x : value) (l : list value) : list value :=
  match l with
  | [] => [x]
  | y :: r =>
      if count_of y <=? count_of x then x :: y :: r
      else y :: insert_by_count x r
  end.

Fixpoint sort_by_count_desc (l : list value) : list value :=
  match l with
  | [] => []
  | x :: r => insert_by_count x (sort_by_count_desc r)
  end.

Definition sample_outside : Outside :=
  {| MODELS_DB_URL := "https://models.example/db.json";
     getNewImageID := fun l => Fin (Z.of_nat (List.length l));
     correctOutputIDs := renumber_from 0;
     canvasSaveImages := fun p => p;
     sortByCount := sort_by_count_desc |}.

(** A fresh store with the prompt ["cat"] typed in. *)
Definition sample_world : World :=
  {| generatorType := Text2Img; prompt := "cat"; negativePrompt := "";
     params := getDefaultStore; nsfw := NsfwEnabled;
     trustedOnly := AllWorkers; postProcessors := [];
     availableModels := []; modelsJSON := VObj []; modelsData := [];
     selectedModel := VStr "stable_diffusion";
     inpainting := ITypeParams.mk "" "" [];
     img2img := ITypeParams.mk "" "" [];
     generating := false; cancelled := false; images := []; queue := [];
     progress := Fin 0; activeCollapse := []; activeIndex := "/";
     options := OptionsStore.mk "https://horde.example" "0000000000" "Disabled" "None";
     outputs := []; arrivals := []; dice := 0%nat; trace := [] |}.

Definition reply (status : Z) (body : value) : Arrival.t :=
  Arrival.mk status body false.
Definition reply_with_cancel (status : Z) (body : value) : Arrival.t :=
  Arrival.mk status body true.
Definition timer : Arrival.t := Arrival.mk 0 VUndefined false.

(** The method and URL of the requests of a trace. *)
Fixpoint requests (tr : list event) : list (Method * string) :=
  match tr with
  | [] => []
  | Fetch m url _ _ :: r => (m, url) :: requests r
  | _ :: r => requests r
  end.

(** The user-facing error messages of a trace. *)
Fixpoint errors (tr : list event) : list string :=
  match tr with
  | [] => []
  | RaiseError msg :: r => msg :: errors r
  | _ :: r => errors r
  end.

(** ** Vocabulary of the statements *)

(** The endpoints of the interface: the five of the Horde API under the
    base URL [base] and the model database at [db]. *)
Inductive endpoint (db base : string) : Method -> string -> Prop :=
| ep_async : endpoint db base POST (base ++ "/api/v2/generate/async")
| ep_check (id : string) :
    endpoint db base GET (base ++ "/api/v2/generate/check/" ++ id)
| ep_status (id : string) :
    endpoint db base GET (base ++ "/api/v2/generate/status/" ++ id)
| ep_cancel (id : string) :
    endpoint db base DELETE (base ++ "/api/v2/generate/status/" ++ id)
| ep_models : endpoint db base GET (base ++ "/api/v2/status/models")
| ep_db : endpoint db base GET db.

Definition documented (db : string) (o : OptionsStore.t)
    (r : Method * string) : Prop :=
  endpoint db (OptionsStore.baseURL o) (fst r) (snd r).

(** [w'] is [w] some steps later: the options are the same and the trace
    has grown, by requests to documented endpoints only. *)
Definition advance (db : string) (w w' : World) : Prop :=
  options w' = options w /\
  exists new, trace w' = (trace w ++ new)%list /\
              Forall (documented db (options w)) (requests new).

Definition advances_at (db : string) {A : Type} (m : M A) (w : World)
  : Prop :=
  forall out w', m w = (out, w') -> advance db w w'.

(** The status request of a queued job. *)
Definition check_event (base : string) (el : ICurrentGeneration.t) : event :=
  Fetch GET (base ++ "/api/v2/generate/check/" ++ to_string (ICurrentGeneration.id el))
        None None.

(** The jobs an iteration does not skip. *)
Definition pending_jobs (q : list ICurrentGeneration.t) : list ICurrentGeneration.t :=
  filter (fun el => negb (job_done el)) q.

Definition ids (q : list ICurrentGeneration.t) : list value :=
  map ICurrentGeneration.id q.

(** The trace of a run of the poll loop that is left by its condition,
    from the queue [q] and the counter [se]: a sequence of whole
    iterations.  An iteration queries every job of the queue that is not
    done, in order, updates the progress and sleeps 500 ms. *)
Inductive poll_trace (base : string)
  : list ICurrentGeneration.t -> Z -> list event -> Prop :=
| poll_exit q se : poll_trace base q se []
| poll_iteration q q' se rest :
    ids q' = ids q ->
    poll_trace base q' (se + 1) rest ->
    poll_trace base q se
      (map (check_event base) (pending_jobs q)
         ++ UpdateProgress (map waitData_value q') (se + 1)
         :: Sleep 500 :: rest).

(** *** Rounds of the poll loop *)

(** Whether [checkImage] returns a status for the reply [a], [c] telling
    whether the [cancelled] flag is set when the reply arrives: with the
    flag set every reply will do, otherwise the reply has to be valid. *)
Definition accepts (c : bool) (a : Arrival.t) : bool :=
  c || ((Arrival.status a =? 200) && truthy (Arrival.body a)).

(** The status [checkImage] then returns. *)
Definition status_of (c : bool) (a : Arrival.t) : value :=
  if c then cancelled_status else Arrival.body a.

(** The flag after the arrivals [l], from the flag [c] before them. *)
Definition pressed (c : bool) (l : list Arrival.t) : bool :=
  c || existsb Arrival.cancel_pressed l.

(** Every reply of [replies] is accepted in its turn; a press during one
    reply sets the flag for those after it. *)
Fixpoint all_accepted (c : bool) (replies : list Arrival.t) : bool :=
  match replies with
  | [] => true
  | a :: later =>
      let c' := c || Arrival.cancel_pressed a in
      accepts c' a && all_accepted c' later
  end.

(** The jobs [q] after one round answered by [replies], one reply for each
    job that is not done, in the order of the queue. *)
Fixpoint answered (c : bool) (q : list ICurrentGeneration.t)
    (replies : list Arrival.t) : list ICurrentGeneration.t :=
  match q with
  | [] => []
  | el :: r =>
      if job_done el then el :: answered c r replies
      else
        match replies with
        | [] => el :: r
        | a :: later =>
            let c' := c || Arrival.cancel_pressed a in
            set_waitData (status_of c' a) el :: answered c' r later
        end
  end.

(** The world after one round of the loop entered in [w] with the counter
    [se]: the checks were answered by [replies], the sleep ended with the
    arrival [t], and [rest] are the arrivals still to come. *)
Definition after_round (se : Z) (replies : list Arrival.t) (t : Arrival.t)
    (rest : list Arrival.t) (w : World) : World :=
  let q' := answered false (queue w) replies in
  set_cancelled (pressed false (replies ++ [t]))
    (set_arrivals rest
       (set_trace
          (trace w
             ++ map (check_event (OptionsStore.baseURL (options w)))
                    (pending_jobs (queue w))
             ++ [UpdateProgress (map waitData_value q') (se + 1); Sleep 500])
          (set_queue q' w))).

(** A job whose reply was discarded because the flag was set. *)
Definition discarded (el : ICurrentGeneration.t) : ICurrentGeneration.t :=
  if job_done el then el else set_waitData cancelled_status el.

(** A job waiting for its first status check. *)
Definition sample_job (id : string) : ICurrentGeneration.t :=
  ICurrentGeneration.mk (cacheParams (None, None, None) [] sample_world)
    (VStr id) None.

(** The cancel request of a queued job. *)
Definition cancel_event (base : string) (el : ICurrentGeneration.t) : event :=
  Fetch DELETE
    (base ++ "/api/v2/generate/status/" ++ to_string (ICurrentGeneration.id el))
    None None.

(** A step of the part of [generateImage] after the submission returns
    [false] in the world [w1]: a status check inside the poll loop, or a
    cancellation or final status retrieval after it. *)
Inductive later_step_fails (w : World) : World -> Prop :=
| poll_check_fails w1 :
    pollLoop (S (List.length (arrivals w))) 0 w = (Returned CheckFailed, w1) ->
    later_step_fails w w1
| retrieval_fails w1 w2 :
    pollLoop (S (List.length (arrivals w))) 0 w = (Returned ConditionFalse, w1) ->
    collectFinal (queue w1) [] (set_queue [] w1) = (Returned None, w2) ->
    later_step_fails w w2.

(** A step of [generateImage ext type] started in [w] returns [false] in
    the world [w1]. *)
Inductive step_fails (ext : Outside) (type : GeneratorType) (w : World)
  : World -> Prop :=
| submission_fails src ws model wm w1 :
    prompt w <> "" ->
    sources ext type w = (Returned src, ws) ->
    pickModel ws = (Returned model, wm) ->
    fetchNewID (cacheParams src model wm) (set_generating true wm)
      = (Returned None, w1) ->
    step_fails ext type w w1
| after_submission src ws model wm resJSON id w1 w2 :
    prompt w <> "" ->
    sources ext type w = (Returned src, ws) ->
    pickModel ws = (Returned model, wm) ->
    fetchNewID (cacheParams src model wm) (set_generating true wm)
      = (Returned (Some resJSON), w1) ->
    prop "id" resJSON = Some id ->
    later_step_fails
      (set_queue
         (queue w1 ++ [ICurrentGeneration.mk (cacheParams src model wm) id None])
         (set_images [] w1))
      w2 ->
    step_fails ext type w w2.

(** Two calls in a row.  The first is left by an exception (the status
    reply has the body [null]) with its job ["a"] still queued.  During the
    submission of the second the cancel button is pressed, and the server
    answers the cancel request of ["a"] with 404. *)
Definition first_call : outcome (list ImageData.t) * World :=
  generateImage sample_outside Text2Img
    (set_arrivals [reply 202 (VObj [("id", VStr "a")]); reply 200 VNull]
       sample_world).

Definition second_call : outcome (list ImageData.t) * World :=
  generateImage sample_outside Text2Img
    (set_arrivals
       [reply_with_cancel 202 (VObj [("id", VStr "b")]);
        reply 404 (VObj [])]
       (snd first_call)).

(** An entry with its id blanked: what an entry is apart from its id. *)
Definition without_id (d : ImageData.t) : ImageData.t := set_id (Fin 0) d.

(** The id correction rewrites ids and nothing else. *)
Definition corrects_ids_only (ext : Outside) : Prop :=
  forall l, map without_id (correctOutputIDs ext l) = map without_id l.



(** The warnings of a trace. *)
Fixpoint warnings (tr : list event) : list string :=
  match tr with
  | [] => []
  | RaiseWarning msg :: r => msg :: warnings r
  | _ :: r => warnings r
  end.

Definition warning_text (paramName : string) (param : num) : string :=
  "This image was generated using the 'Larger Values' option. Setting '"
    ++ paramName ++ "' to its default value instead of "
    ++ num_to_string param ++ ".".

(** [n] is a multiple of 64. *)
Definition multiple_of_64 (o : option num) : Prop :=
  match o with
  | Some (Fin z) => Z.modulo z 64 = 0
  | _ => False
  end.

(** What [generateText2Img] looks at and writes of the ranges: the three
    validated parameters, the caps, and the warnings raised. *)
Record ranges : Type := mkRanges {
  r_steps : option num;
  r_width : option num;
  r_height : option num;
  r_options : OptionsStore.t;
  r_warnings : list string
}.

Definition ranges_of (w : World) : ranges :=
  {| r_steps := Params.steps (params w);
     r_width := Params.width (params w);
     r_height := Params.height (params w);
     r_options := options w;
     r_warnings := warnings (trace w) |}.

(** The value a validated parameter takes and the warning it raises. *)
Definition validated (paramName : string) (given : option num) (cap : num)
    (defaultValue current : option num) : option num * list string :=
  match given with
  | Some v =>
      if num_truthy v then
        if num_gt v cap then (defaultValue, [warning_text paramName v])
        else (Some v, [])
      else (current, [])
  | None => (current, [])
  end.

Definition cap_steps (o : OptionsStore.t) : num :=
  if String.eqb (OptionsStore.allowLargerParams o) "Enabled" then Fin 500 else Fin 50.
Definition cap_dimensions (o : OptionsStore.t) : num :=
  if String.eqb (OptionsStore.allowLargerParams o) "Enabled" then Fin 3072 else Fin 1024.

Definition text2img_ranges (data : ImageData.t) (r : ranges) : ranges :=
  let s := validated "steps" (ImageData.steps data) (cap_steps (r_options r))
             (Some (Fin 30)) (r_steps r) in
  let x := validated "width" (ImageData.width data) (cap_dimensions (r_options r))
             (Some (Fin 512)) (r_width r) in
  let y := validated "height" (ImageData.height data) (cap_dimensions (r_options r))
             (Some (Fin 512)) (r_height r) in
  {| r_steps := fst s; r_width := fst x; r_height := fst y;
     r_options := r_options r;
     r_warnings := (r_warnings r ++ snd s ++ snd x ++ snd y)%list |}.

Definition acts (m : M unit) (f : ranges -> ranges) : Prop :=
  forall w, exists w', m w = (Returned tt, w') /\ ranges_of w' = f (ranges_of w).

Definition with_steps (data : ImageData.t) (r : ranges) : ranges :=
  let s := validated "steps" (ImageData.steps data) (cap_steps (r_options r))
             (Some (Fin 30)) (r_steps r) in
  {| r_steps := fst s; r_width := r_width r; r_height := r_height r;
     r_options := r_options r; r_warnings := (r_warnings r ++ snd s)%list |}.

Definition with_width (data : ImageData.t) (r : ranges) : ranges :=
  let x := validated "width" (ImageData.width data) (cap_dimensions (r_options r))
             (Some (Fin 512)) (r_width r) in
  {| r_steps := r_steps r; r_width := fst x; r_height := r_height r;
     r_options := r_options r; r_warnings := (r_warnings r ++ snd x)%list |}.

Definition with_height (data : ImageData.t) (r : ranges) : ranges :=
  let y := validated "height" (ImageData.height data) (cap_dimensions (r_options r))
             (Some (Fin 512)) (r_height r) in
  {| r_steps := r_steps r; r_width := r_width r; r_height := fst y;
     r_options := r_options r; r_warnings := (r_warnings r ++ snd y)%list |}.

(** A gallery entry that carries a width and nothing else. *)
Definition entry_of_width (x : num) : ImageData.t :=
  {| ImageData.id := Fin 0; ImageData.image := "data:image/webp;base64,";
     ImageData.prompt := None; ImageData.modelName := VUndefined;
     ImageData.workerID := VUndefined; ImageData.workerName := VUndefined;
     ImageData.seed := VUndefined; ImageData.steps := None;
     ImageData.sampler_name := None; ImageData.width := Some x;
     ImageData.height := None; ImageData.cfg_scale := None;
     ImageData.karras := None; ImageData.post_processing := None;
     ImageData.starred := false |}.

Definition entry_of_steps (s : num) : ImageData.t :=
  {| ImageData.id := Fin 0; ImageData.image := "data:image/webp;base64,";
     ImageData.prompt := None; ImageData.modelName := VUndefined;
     ImageData.workerID := VUndefined; ImageData.workerName := VUndefined;
     ImageData.seed := VUndefined; ImageData.steps := Some s;
     ImageData.sampler_name := None; ImageData.width := None;
     ImageData.height := None; ImageData.cfg_scale := None;
     ImageData.karras := None; ImageData.post_processing := None;
     ImageData.starred := false |}.

(** The record of [modelsData] that the database entry [entry] gets, given
    the live list [live]. *)
Definition merged_record (live : list value) (entry : value)
    (record : IModelData.t) : Prop :=
  IModelData.name record = prop_opt "name" entry /\
  IModelData.description record = prop_opt "description" entry /\
  IModelData.style record = prop_opt "style" entry /\
  IModelData.nsfw record = prop_opt "nsfw" entry /\
  IModelData.type record = prop_opt "type" entry /\
  ((exists el,
       In el live /\
       strict_eq (prop_opt "name" el) (prop_opt "name" entry) = true /\
       IModelData.count record = prop_opt "count" el /\
       IModelData.performance record = prop_opt "performance" el /\
       IModelData.eta record = prop_opt "eta" el /\
       IModelData.queued record = prop_opt "queued" el)
   \/
   ((forall el, In el live ->
                same_value_zero (prop_opt "name" entry) (prop_opt "name" el) = false) /\
    IModelData.queued record = VNum (Fin 0) /\
    IModelData.eta record = VNum Infinity /\
    IModelData.count record = VNum (Fin 0) /\
    IModelData.performance record = VNum (Fin 0))).

(** A live model list and a model database. *)
Definition sample_live : list value :=
  [VObj [("name", VStr "stable_diffusion"); ("count", VNum (Fin 12));
         ("performance", VNum (Fin 3)); ("eta", VNum (Fin 40));
         ("queued", VNum (Fin 5))]].

Definition sample_db : value :=
  VObj [("stable_diffusion",
         VObj [("name", VStr "stable_diffusion");
               ("description", VStr "Generalist model");
               ("style", VStr "generalist"); ("nsfw", VBool false);
               ("type", VStr "ckpt")]);
        ("waifu_diffusion",
         VObj [("name", VStr "waifu_diffusion");
               ("description", VStr "Anime model");
               ("style", VStr "anime"); ("nsfw", VBool false);
               ("type", VStr "ckpt")])].

(** ** The rest of the store *)

(** [s.includes(sub)] on strings. *)
Fixpoint contains (sub s : string) : bool :=
  String.prefix sub s
  || match s with
     | EmptyString => false
     | String _ r => contains sub r
     end.

(** [v.includes(needle)] for a string [needle]: the method of a string or
    of an array; a value of another kind has none and the call is a
    TypeError ([None]). *)
Definition value_includes (needle : string) (v : value) : option bool :=
  match v with
  | VStr s => Some (contains needle s)
  | VArr l => Some (includes (VStr needle) l)
  | _ => None
  end.

(** [l.filter(p)] for a predicate that may throw. *)
Fixpoint filter_throwing (p : ModelOption.t -> option bool)
    (l : list ModelOption.t) : option (list ModelOption.t) :=
  match l with
  | [] => Some []
  | el :: rest =>
      match p el with
      | None => None
      | Some keep =>
          match filter_throwing p rest with
          | None => None
          | Some kept => Some (if keep then el :: kept else kept)
          end
      end
  end.

(** The filter of [filteredAvailableModels] for a generator type. *)
Definition filter_for (type : GeneratorType) (all : list ModelOption.t)
  : option (list ModelOption.t) :=
  match type with
  | Inpainting =>
      filter_throwing
        (fun el => value_includes "inpainting" (ModelOption.value el)) all
  | Img2Img =>
      Some (filter
              (fun el => negb (strict_eq (ModelOption.value el)
                                 (VStr "stable_diffusion_2.0")))
              all)
  | Text2Img =>
      filter_throwing
        (fun el => option_map negb
                     (value_includes "inpainting" (ModelOption.value el)))
        all
  end.

(** One evaluation of the computed [filteredAvailableModels].  The test
    [includes(selectedModel.value)] compares objects and arrays by
    reference; the model takes two of them as distinct, which is what
    happens for names that are primitive values. *)
Definition filteredAvailableModels : M (list ModelOption.t) :=
  all <- gets availableModels ;;
  match all with
  | [] => ret []
  | _ :: _ =>
      type <- gets generatorType ;;
      match filter_for type all with
      | None => throw
      | Some filtered =>
          sel <- gets selectedModel ;;
          if negb (includes sel (map ModelOption.value filtered)) then
            match filtered with
            | [] => throw
            | first :: _ =>
                modify (set_selectedModel (ModelOption.value first)) ;;;
                ret filtered
            end
          else ret filtered
      end
  end.

(** [key in v] together with [v[key]], for the own keys of an object or an
    array: [None] is the TypeError of [in] on a primitive, [Some None] a key
    that is not an own key.  A key that [v] only inherits is [in] it too,
    but what it names (a method, the length) has no [trigger], which ends
    [addDreamboothTrigger] as a missing key does. *)
Definition own_entry (key : string) (v : value) : option (option value) :=
  match entries v with
  | Some es =>
      match v with
      | VObj _ | VArr _ =>
          Some (if existsb (String.eqb key) (map fst es)
                then Some (lookup key es) else None)
      | _ => None
      end
  | None => None
  end.

(** [v[0]]; [None] is the TypeError on [null] and [undefined]. *)
Definition first_of (v : value) : option value :=
  match v with
  | VUndefined | VNull => None
  | VArr (x :: _) => Some x
  | VStr (String c _) => Some (VStr (String c EmptyString))
  | VObj o => Some (lookup "0" o)
  | _ => Some VUndefined
  end.

(** [addDreamboothTrigger(trigger?)] *)
Definition addDreamboothTrigger (trigger : option string) : M unit :=
  sel <- gets selectedModel ;;
  db <- gets modelsJSON ;;
  match own_entry (to_string sel) db with
  | None => throw
  | Some None => ret tt
  | Some (Some entry) =>
      match prop "trigger" entry with
      | None => throw
      | Some triggers =>
          if negb (truthy triggers) then ret tt
          else if str_truthy trigger then
            modify (fun w =>
                      set_prompt
                        (prompt w ++ match trigger with
                                     | Some t => t
                                     | None => ""
                                     end) w)
          else
            match first_of triggers with
            | None => throw
            | Some t =>
                modify (fun w => set_prompt (prompt w ++ to_string t) w)
            end
      end
  end.

(** [resetStore] *)
Definition resetStore : M bool :=
  modify (set_params getDefaultStore) ;;;
  modify (fun w =>
            set_inpainting
              (ITypeParams.mk "" (ITypeParams.maskImage (inpainting w))
                 (ITypeParams.fileList (inpainting w))) w) ;;;
  modify (fun w =>
            set_inpainting
              (ITypeParams.mk (ITypeParams.sourceImage (inpainting w)) ""
                 (ITypeParams.fileList (inpainting w))) w) ;;;
  modify (fun w =>
            set_img2img
              (ITypeParams.mk (ITypeParams.sourceImage (img2img w))
                 (ITypeParams.maskImage (img2img w)) []) w) ;;;
  modify (fun w =>
            set_img2img
              (ITypeParams.mk "" (ITypeParams.maskImage (img2img w))
                 (ITypeParams.fileList (img2img w))) w) ;;;
  modify (fun w =>
            set_img2img
              (ITypeParams.mk (ITypeParams.sourceImage (img2img w)) ""
                 (ITypeParams.fileList (img2img w))) w) ;;;
  modify (fun w =>
            set_img2img
              (ITypeParams.mk (ITypeParams.sourceImage (img2img w))
                 (ITypeParams.maskImage (img2img w)) []) w) ;;;
  modify (set_images []) ;;;
  ret true.

(** The negative prompt library is one ref, [negativePromptLibrary]; the
    two actions on it are functions of its value. *)
Definition pushToNegativeLibrary (prompt : string) (library : list string)
  : list string :=
  if existsb (String.eqb prompt) library then library
  else library ++ [prompt].

Definition removeFromNegativeLibrary (prompt : string)
    (library : list string) : list string :=
  filter (fun el => negb (String.eqb el prompt)) library.

(** A use of the library, and a history of uses from a stored value. *)
Inductive library_action : Type :=
| Push (prompt : string)
| Remove (prompt : string).

Definition act_on_library (library : list string) (a : library_action)
  : list string :=
  match a with
  | Push p => pushToNegativeLibrary p library
  | Remove p => removeFromNegativeLibrary p library
  end.

(** ** Vocabulary of the further statements *)

(** [m] leaves the observation [f] of the world as it is, however it
    ends. *)
Definition keeps {T A : Type} (f : World -> T) (m : M A) : Prop :=
  forall w out w', m w = (out, w') -> f w' = f w.

(** A string without the character [#]. *)
Fixpoint no_hash (s : string) : bool :=
  match s with
  | EmptyString => true
  | String c r => negb (Ascii.eqb c "#"%char) && no_hash r
  end.

(** The option values are all strings. *)
Definition string_names (l : list ModelOption.t) : Prop :=
  Forall (fun el => exists s, ModelOption.value el = VStr s) l.

(** The arrivals of an undisturbed job: the submission is accepted, the
    checks answer the bodies [polls] and then [done], each followed by the
    timer, and the final status has the body [final]. *)
Definition undisturbed (accepted : value) (polls : list value)
    (done final : value) : list Arrival.t :=
  (reply 202 accepted
     :: flat_map (fun b => [reply 200 b; timer]) polls
     ++ [reply 200 done; timer; reply 200 final])%list.

(** [m] returns and changes the observation [obs] of the world by [F]. *)
Definition transforms {O : Type} (obs : World -> O) (m : M unit)
    (F : O -> O) : Prop :=
  forall w, exists w', m w = (Returned tt, w') /\ obs w' = F (obs w).

(** What [generateText2Img] leaves alone: the jobs, the flags, the images
    and outputs, and the requests and error messages of the trace. *)
Definition job_state (w : World)
  : list ICurrentGeneration.t * bool * bool * list ImageData.t
    * list ImageData.t * list (Method * string) * list string :=
  (queue w, generating w, cancelled w, images w, outputs w,
   requests (trace w), errors (trace w)).

(** The two prompts of the form, and what an entry makes of them. *)
Definition prompts (w : World) : string * string :=
  (prompt w, negativePrompt w).

Definition prompts_of_entry (data : ImageData.t) (o : string * string)
  : string * string :=
  match ImageData.prompt data with
  | Some p =>
      if negb (String.eqb p "") then
        (nth 0 (split " ### " p) "", nth 1 (split " ### " p) "")
      else o
  | None => o
  end.

(** The settings of the form besides the validated ranges. *)
Definition settings (w : World)
  : option string * option num * option bool * list string :=
  (Params.sampler_name (params w), Params.cfg_scale (params w),
   Params.karras (params w), postProcessors w).

Definition settings_of_entry (data : ImageData.t)
    (o : option string * option num * option bool * list string)
  : option string * option num * option bool * list string :=
  let '(sampler, cfg, karras, post) := o in
  (if str_truthy (ImageData.sampler_name data)
   then ImageData.sampler_name data else sampler,
   if opt_num_truthy (ImageData.cfg_scale data)
   then ImageData.cfg_scale data else cfg,
   match ImageData.karras data with
   | Some true => Some true
   | _ => karras
   end,
   match ImageData.post_processing data with
   | Some l => l
   | None => post
   end).

(** The world [resetStore] leaves. *)
Definition after_reset (w : World) : World :=
  set_images []
    (set_img2img (ITypeParams.mk "" "" [])
       (set_inpainting
          (ITypeParams.mk "" "" (ITypeParams.fileList (inpainting w)))
          (set_params getDefaultStore w))).

(** How a call of [generateImage] ends: the flag [generating] is cleared
    and the queue emptied when it returns, and only then. *)
Definition idle_iff_returned {A : Type} (r : outcome A * World) : Prop :=
  match fst r with
  | Returned _ => generating (snd r) = false /\ queue (snd r) = []
  | _ => generating (snd r) = true
  end.

(** The body of a status reply that is valid and not done. *)
Definition waiting (b : value) : Prop :=
  truthy b = true /\ truthy (prop_opt "done" b) = false.

(** The arrivals of a job that is cancelled while a status check is in
    flight: the submission is accepted, the checks answer the bodies
    [polls], the cancel button is pressed during the next check, whose
    reply is [a], and the cancel request has the body [final]. *)
Definition cancelled_in_flight (accepted : value) (polls : list value)
    (a : Arrival.t) (final : value) : list Arrival.t :=
  (reply 202 accepted
     :: flat_map (fun b => [reply 200 b; timer]) polls
     ++ [a; timer; reply 200 final])%list.

(** A model list as [updateAvailableModels] leaves it, and a database
    entry with a trigger. *)
Definition sample_options : list ModelOption.t :=
  [ModelOption.mk (VStr "stable_diffusion") "stable_diffusion (12)";
   ModelOption.mk (VStr "stable_diffusion_inpainting")
     "stable_diffusion_inpainting (3)";
   random_option].

Definition sample_triggers : value :=
  VObj [("stable_diffusion", VObj [("trigger", VArr [VStr "sks"; VStr "style"])])].

(** * Properties *)

(** ** Running the monad *)

Ltac run :=
  repeat (cbv beta delta [bind ret throw gets modify emit when modify_params] in *;
          cbn beta iota zeta in *).

Lemma requests_app (a b : list event) :
  requests (a ++ b) = (requests a ++ requests b)%list.
Proof.
  induction a as [|e a IH]; simpl; [reflexivity|].
  destruct e; simpl; rewrite IH; reflexivity.
Qed.

Lemma errors_app (a b : list event) :
  errors (a ++ b) = (errors a ++ errors b)%list.
Proof.
  induction a as [|e a IH]; simpl; [reflexivity|].
  destruct e; simpl; rewrite IH; reflexivity.
Qed.

(** ** Response validation *)

Lemma onInvalidResponse_eq (msg : string) (w : World) :
  onInvalidResponse msg w =
  (Returned false,
   set_images [] (set_cancelled false (set_progress (Fin 0)
     (set_trace (trace w ++ [RaiseError msg]) w)))).
Proof. reflexivity. Qed.

Lemma validateResponse_nullish (status goodStatus : Z) (json : value)
    (msg : string) (w : World) :
  nullish json = true ->
  validateResponse status json goodStatus msg w = (TypeError, w).
Proof.
  intros H. unfold validateResponse.
  destruct json; try discriminate; simpl;
    rewrite Bool.andb_false_r; reflexivity.
Qed.

(** C1, the failing input.  With the body [null] (or [undefined])
    [validateResponse] reads [json.message] and throws: it returns neither
    [false] nor [true] and raises no user-facing error, whatever the status
    is, also when it equals the expected one. *)
Theorem validateResponse_missing_body_throws :
  forall (status goodStatus : Z) (msg : string) (w : World),
    validateResponse status VNull goodStatus msg w = (TypeError, w) /\
    validateResponse status VUndefined goodStatus msg w = (TypeError, w).
Proof.
  intros status goodStatus msg w.
  split; apply validateResponse_nullish; reflexivity.
Qed.

Lemma entries_defined (v : value) :
  nullish v = false -> exists es, entries v = Some es.
Proof.
  destruct v; simpl; intros H; try discriminate; eauto.
Qed.

(** With a body other than [null] and [undefined] the function does what
    its documentation says: [true] without any effect when the status is the
    expected one and the body is truthy, [false] with one error message
    otherwise. *)
Lemma validateResponse_present_body :
  forall (status goodStatus : Z) (json : value) (msg : string) (w : World),
    nullish json = false ->
    (status = goodStatus /\ truthy json = true /\
     validateResponse status json goodStatus msg w = (Returned true, w))
    \/
    ((status <> goodStatus \/ truthy json = false) /\
     exists text,
       validateResponse status json goodStatus msg w =
       onInvalidResponse text w).
Proof.
  intros status goodStatus json msg w Hn.
  unfold validateResponse.
  destruct (status =? goodStatus) eqn:Es; simpl.
  - apply Z.eqb_eq in Es. destruct (truthy json) eqn:Et.
    + left. auto.
    + right. split; [now right|].
      destruct json; simpl in *; try discriminate; eauto;
        try (destruct n; eauto).
  - apply Z.eqb_neq in Es. right. split; [now left|].
    destruct (prop "message" json) as [m|] eqn:Em.
    2:{ destruct json; simpl in *; discriminate. }
    destruct (truthy m); simpl; [|eauto].
    destruct (prop "errors" json) as [e|] eqn:Ee.
    2:{ destruct json; simpl in *; discriminate. }
    destruct (truthy e) eqn:Ete; simpl; [|eauto].
    destruct (entries_defined e) as [es Hes].
    { destruct e; simpl in *; try discriminate; reflexivity. }
    rewrite Hes. eauto.
Qed.

Lemma validateResponse_cases (status goodStatus : Z) (json : value) (msg : string) (w : World) :
  validateResponse status json goodStatus msg w = (Returned true, w) \/
  validateResponse status json goodStatus msg w = (TypeError, w) \/
  exists text, validateResponse status json goodStatus msg w = onInvalidResponse text w.
Proof.
  destruct (nullish json) eqn:Hn.
  - right. left. now apply validateResponse_nullish.
  - destruct (validateResponse_present_body status goodStatus json msg w Hn)
      as [(_ & _ & H)|(_ & t & H)]; eauto.
Qed.

(** ** The empty prompt *)

(** C8.  With the empty prompt [generateImage] returns the empty list at
    once, for every generator type: the world is left as it was, so no
    request is sent, the queue is not touched and [generating] is not
    set. *)
Theorem generateImage_empty_prompt :
  forall (ext : Outside) (type : GeneratorType) (w : World),
    prompt w = "" ->
    generateImage ext type w = (Returned [], w).
Proof.
  intros ext type w H. unfold generateImage. run. rewrite H. reflexivity.
Qed.

Lemma generateImage_empty_prompt_witness :
  generateImage sample_outside Inpainting (set_prompt "" sample_world)
  = (Returned [], set_prompt "" sample_world).
Proof.
  apply (generateImage_empty_prompt sample_outside Inpainting
           (set_prompt "" sample_world)).
  reflexivity.
Defined.

(** ** A status check after cancellation *)

(** C9.  When the [cancelled] flag is set by the time the response has
    arrived (it was set at the call, or the cancel button was pressed while
    the request was in flight), [checkImage] returns
    [{ wait_time: 0, done: false }] for every response status and body.
    The request is the only event, so no error is raised; the flag stays
    set and a job given this status does not count as done. *)
Theorem checkImage_when_cancelled :
  forall (imageID : value) (w : World) (a : Arrival.t)
         (rest : list Arrival.t) (el : ICurrentGeneration.t),
    arrivals w = a :: rest ->
    cancelled w = true \/ Arrival.cancel_pressed a = true ->
    exists w',
      checkImage imageID w = (Returned (Some cancelled_status), w') /\
      trace w' = (trace w ++ [Fetch GET (url_check w imageID) None None])%list /\
      errors (trace w') = errors (trace w) /\
      cancelled w' = true /\
      arrivals w' = rest /\
      queue w' = queue w /\ images w' = images w /\
      progress w' = progress w /\ generating w' = generating w /\
      job_done (set_waitData cancelled_status el) = false.
Proof.
  intros imageID w a rest el Ha Hc.
  unfold checkImage, fetch. run.
  unfold await. simpl. rewrite Ha.
  destruct (Arrival.cancel_pressed a) eqn:Ep; simpl.
  - eexists. split; [reflexivity|]. simpl.
    rewrite errors_app. simpl. rewrite app_nil_r. repeat split; reflexivity.
  - destruct Hc as [Hc|Hc]; [|discriminate].
    rewrite Hc. eexists. split; [reflexivity|]. simpl.
    rewrite errors_app. simpl. rewrite app_nil_r. repeat split; auto.
Qed.

Lemma checkImage_when_cancelled_witness :
  exists w',
    checkImage (VStr "a")
      (set_arrivals [reply_with_cancel 500 VNull] sample_world)
    = (Returned (Some cancelled_status), w') /\
    errors (trace w') = [] /\ cancelled w' = true.
Proof.
  destruct (checkImage_when_cancelled (VStr "a")
              (set_arrivals [reply_with_cancel 500 VNull] sample_world)
              (reply_with_cancel 500 VNull) []
              (ICurrentGeneration.mk
                 (cacheParams (None, None, None) [] sample_world)
                 (VStr "a") None)
              eq_refl (or_intror eq_refl))
    as (w' & H1 & _ & H3 & H4 & _).
  exists w'. split; [exact H1|]. split; [exact H3|exact H4].
Defined.

(** ** Requests and endpoints *)

Lemma advance_refl db w : advance db w w.
Proof.
  split; [reflexivity|]. exists []. rewrite app_nil_r. split; [reflexivity|constructor].
Qed.

Lemma advance_trans db w1 w2 w3 :
  advance db w1 w2 -> advance db w2 w3 -> advance db w1 w3.
Proof.
  intros [O1 (n1 & T1 & F1)] [O2 (n2 & T2 & F2)].
  split; [congruence|].
  exists (n1 ++ n2)%list. split.
  - rewrite T2, T1, app_assoc. reflexivity.
  - rewrite requests_app. apply Forall_app. split; [assumption|].
    rewrite <- O1. assumption.
Qed.

Lemma advance_same db w w' :
  options w' = options w -> trace w' = trace w -> advance db w w'.
Proof.
  intros O T. split; [assumption|]. exists []. rewrite app_nil_r.
  split; [assumption|constructor].
Qed.

Lemma advance_event db w w' e :
  options w' = options w -> trace w' = (trace w ++ [e])%list ->
  Forall (documented db (options w)) (requests [e]) ->
  advance db w w'.
Proof.
  intros O T F. split; [assumption|]. exists [e]. split; assumption.
Qed.

Create HintDb adv.
#[local] Hint Resolve advance_refl : adv.

Section Advances.
Variable db : string.

Lemma adv_ret {A} (a : A) w : advances_at db (ret a) w.
Proof. intros out w' E; inversion E; apply advance_refl. Qed.

Lemma adv_throw {A} w : advances_at db (@throw A) w.
Proof. intros out w' E; inversion E; apply advance_refl. Qed.

Lemma adv_bind {A B} (m : M A) (k : A -> M B) w :
  advances_at db m w ->
  (forall a w1, m w = (Returned a, w1) -> advances_at db (k a) w1) ->
  advances_at db (bind m k) w.
Proof.
  intros Hm Hk out w'. unfold bind.
  remember (m w) as r eqn:E. symmetry in E.
  destruct r as [[a| |] w1]; intros E2.
  - eapply advance_trans; [apply (Hm _ _ E)|]. eapply Hk; eauto.
  - inversion E2; subst. apply (Hm _ _ E).
  - inversion E2; subst. apply (Hm _ _ E).
Qed.

Lemma adv_gets_bind {A B} (f : World -> A) (k : A -> M B) w :
  advances_at db (k (f w)) w -> advances_at db (bind (gets f) k) w.
Proof. intros H out w' E. exact (H out w' E). Qed.

Lemma adv_modify_bind {B} (f : World -> World) (k : unit -> M B) w :
  options (f w) = options w -> trace (f w) = trace w ->
  advances_at db (k tt) (f w) -> advances_at db (bind (modify f) k) w.
Proof.
  intros O T H out w' E. eapply advance_trans; [apply advance_same; eassumption|].
  exact (H out w' E).
Qed.

Lemma adv_modify (f : World -> World) w :
  options (f w) = options w -> trace (f w) = trace w ->
  advances_at db (modify f) w.
Proof. intros O T out w' E. inversion E; subst. now apply advance_same. Qed.

Lemma adv_emit (e : event) w :
  Forall (documented db (options w)) (requests [e]) ->
  advances_at db (emit e) w.
Proof.
  intros F out w' E. inversion E; subst.
  eapply advance_event; simpl; try reflexivity. exact F.
Qed.

Lemma adv_await w : advances_at db await w.
Proof.
  intros out w'. unfold await.
  destruct (arrivals w) as [|a rest]; intros E; inversion E; subst.
  - apply advance_refl.
  - apply advance_same; destruct (Arrival.cancel_pressed a); reflexivity.
Qed.

Lemma adv_onInvalidResponse text w : advances_at db (onInvalidResponse text) w.
Proof.
  intros out w'. rewrite onInvalidResponse_eq. intros E; inversion E; subst.
  eapply advance_event; simpl; try reflexivity. constructor.
Qed.

Lemma adv_validateResponse s j g m w : advances_at db (validateResponse s j g m) w.
Proof.
  intros out w'.
  destruct (validateResponse_cases s g j m w) as [H|[H|[t H]]]; rewrite H; intros E.
  - inversion E; apply advance_refl.
  - inversion E; apply advance_refl.
  - exact (adv_onInvalidResponse t w out w' E).
Qed.

Lemma adv_fetch m url k b w :
  endpoint db (OptionsStore.baseURL (options w)) m url ->
  advances_at db (fetch m url k b) w.
Proof.
  intros Hd. unfold fetch. apply adv_bind.
  - apply adv_emit. simpl. constructor; [exact Hd|constructor].
  - intros [] w1 E. inversion E; subst. apply adv_await.
Qed.

End Advances.

Ltac adv_step :=
  lazymatch goal with
  | |- advances_at _ (ret _) _ => apply adv_ret
  | |- advances_at _ throw _ => apply adv_throw
  | |- advances_at _ (bind (gets _) _) _ => apply adv_gets_bind
  | |- advances_at _ (bind (modify _) _) _ =>
      apply adv_modify_bind; [reflexivity|reflexivity|]
  | |- advances_at _ (modify _) _ => apply adv_modify; reflexivity
  | |- advances_at _ (bind _ _) _ =>
      apply adv_bind; [|let a := fresh "a" in let w1 := fresh "w" in
                        let E := fresh "E" in intros a w1 E]
  | |- advances_at _ (fetch _ _ _ _) _ =>
      apply adv_fetch; simpl; try (constructor; fail)
  | |- advances_at _ await _ => apply adv_await
  | |- advances_at _ (validateResponse _ _ _ _) _ => apply adv_validateResponse
  | |- advances_at _ (emit _) _ => apply adv_emit; simpl
  | |- advances_at _ (if ?b then _ else _) _ => destruct b
  | |- advances_at _ (match ?x with _ => _ end) _ => destruct x
  | |- advances_at _ _ _ => solve [auto with adv]
  end.

Lemma adv_fetchNewID db p w : advances_at db (fetchNewID p) w.
Proof.
  unfold fetchNewID. repeat adv_step.
Qed.

Lemma adv_checkImage db id w : advances_at db (checkImage id) w.
Proof.
  unfold checkImage. repeat adv_step.
Qed.

Lemma adv_cancelImage_request db id w : advances_at db (cancelImage_request id) w.
Proof.
  unfold cancelImage_request. repeat adv_step.
  constructor; [|constructor]. unfold url_status; simpl. constructor.
Qed.
#[local] Hint Resolve adv_fetchNewID adv_checkImage adv_cancelImage_request : adv.

Lemma adv_cancelImage db id w : advances_at db (cancelImage id) w.
Proof. unfold cancelImage. repeat adv_step. Qed.

Lemma adv_getImageStatus db id w : advances_at db (getImageStatus id) w.
Proof. unfold getImageStatus. repeat adv_step. Qed.

Lemma adv_cancelAll db q : forall w, advances_at db (cancelAll q) w.
Proof.
  induction q as [|el q IH]; intros w; simpl; repeat adv_step.
Qed.
#[local] Hint Resolve adv_cancelImage adv_getImageStatus adv_cancelAll : adv.

Lemma adv_generationFailed db w : advances_at db generationFailed w.
Proof. unfold generationFailed. repeat adv_step. Qed.
#[local] Hint Resolve adv_generationFailed : adv.

Lemma adv_pollJobs db todo : forall checked w, advances_at db (pollJobs checked todo) w.
Proof.
  induction todo as [|j todo IH]; intros checked w; simpl; repeat adv_step.
Qed.
#[local] Hint Resolve adv_pollJobs : adv.

Lemma adv_sleep db ms w : advances_at db (sleep ms) w.
Proof. unfold sleep. repeat adv_step. constructor. Qed.
#[local] Hint Resolve adv_sleep : adv.

Lemma adv_pollLoop db fuel : forall se w, advances_at db (pollLoop fuel se) w.
Proof.
  induction fuel as [|fuel IH]; intros se w; simpl.
  - intros out w' E; inversion E; apply advance_refl.
  - repeat adv_step. constructor.
Qed.
#[local] Hint Resolve adv_pollLoop : adv.

Lemma adv_collectFinal db q : forall acc w, advances_at db (collectFinal q acc) w.
Proof.
  induction q as [|j q IH]; intros acc w; simpl; repeat adv_step.
Qed.
#[local] Hint Resolve adv_collectFinal : adv.

Lemma adv_generationDone db ext l w : advances_at db (generationDone ext l) w.
Proof. unfold generationDone. repeat adv_step. Qed.
#[local] Hint Resolve adv_generationDone : adv.

Lemma adv_pollAndCollect db ext pc w : advances_at db (pollAndCollect ext pc) w.
Proof. unfold pollAndCollect. repeat adv_step. Qed.
#[local] Hint Resolve adv_pollAndCollect : adv.

Lemma adv_sources db ext t w : advances_at db (sources ext t) w.
Proof. unfold sources, saveImages. destruct t; repeat adv_step; constructor. Qed.

Lemma adv_pickModel db w : advances_at db pickModel w.
Proof. unfold pickModel. repeat adv_step. Qed.
#[local] Hint Resolve adv_sources adv_pickModel : adv.


Lemma adv_updateAvailableModels ext w :
  advances_at (MODELS_DB_URL ext) (updateAvailableModels ext) w.
Proof. unfold updateAvailableModels. repeat adv_step. Qed.

Ltac validate_cases :=
  match goal with
  | |- context [validateResponse ?s ?j ?g ?m ?w] =>
      let H := fresh "Hv" in
      destruct (validateResponse_cases s g j m w) as [H|[H|[? H]]];
      rewrite H; [ | |rewrite onInvalidResponse_eq]; simpl
  end.

Ltac close_requests :=
  simpl; repeat (rewrite requests_app; simpl);
  rewrite <- ?app_assoc; rewrite ?app_nil_r; reflexivity.




Lemma cancelImage_request_trace id w :
  requests (trace (snd (cancelImage id w))) =
  (requests (trace w) ++ [(DELETE, url_status w id)])%list.
Proof.
  unfold cancelImage, cancelImage_request. run. unfold await. simpl.
  destruct (arrivals w) as [|a rest]; simpl; [close_requests|].
  validate_cases; try (destruct (prop "generations" (Arrival.body a)));
    destruct (Arrival.cancel_pressed a); close_requests.
Qed.



(** ** The poll loop *)

Lemma checkImage_some id w st w1 :
  checkImage id w = (Returned (Some st), w1) ->
  trace w1 = (trace w ++ [Fetch GET (url_check w id) None None])%list /\
  queue w1 = queue w /\ options w1 = options w /\
  (List.length (arrivals w1) < List.length (arrivals w))%nat.
Proof.
  unfold checkImage, fetch. run. unfold await. simpl.
  destruct (arrivals w) as [|a rest]; simpl; [discriminate|].
  destruct (Arrival.cancel_pressed a); simpl.
  - intros E; inversion E; subst; simpl. auto.
  - destruct (cancelled w); simpl.
    + intros E; inversion E; subst; simpl; auto.
    + validate_cases; intros E; inversion E; subst; simpl; auto.
Qed.

Lemma pollJobs_true (todo : list ICurrentGeneration.t) :
  forall checked w w',
    queue w = (checked ++ todo)%list ->
    pollJobs checked todo w = (Returned true, w') ->
    exists todo',
      queue w' = (checked ++ todo')%list /\
      ids todo' = ids todo /\
      trace w' =
        (trace w ++ map (check_event (OptionsStore.baseURL (options w)))
                        (pending_jobs todo))%list /\
      options w' = options w /\
      (List.length (arrivals w') <= List.length (arrivals w))%nat.
Proof.
  induction todo as [|j todo IH]; intros checked w w' Hq E; simpl in E.
  - inversion E; subst. exists []. simpl. rewrite !app_nil_r.
    rewrite app_nil_r in Hq. repeat split; auto.
  - unfold pending_jobs. simpl. destruct (job_done j) eqn:Ed; simpl.
    + apply IH in E.
      2:{ rewrite Hq, <- app_assoc. reflexivity. }
      destruct E as (todo' & Q & I & T & O & L).
      exists (j :: todo'). rewrite <- app_assoc in Q. simpl in Q.
      unfold ids in *. simpl. rewrite I. repeat split; auto.
    + run. destruct (checkImage (ICurrentGeneration.id j) w) as [[[st|]| |] w1] eqn:Ec;
        try discriminate.
      apply checkImage_some in Ec as (T1 & Q1 & O1 & L1).
      apply IH in E.
      2:{ simpl. rewrite <- app_assoc. reflexivity. }
      destruct E as (todo' & Q & I & T & O & L). simpl in *.
      exists (set_waitData st j :: todo'). rewrite <- app_assoc in Q. simpl in Q.
      unfold ids in *. simpl. rewrite I. repeat split; auto.
      * rewrite T, T1, O1, <- app_assoc. reflexivity.
      * congruence.
      * lia.
Qed.

Lemma sleep_returned ms w u w1 :
  sleep ms w = (Returned u, w1) ->
  trace w1 = (trace w ++ [Sleep ms])%list /\
  queue w1 = queue w /\ options w1 = options w /\
  (List.length (arrivals w1) < List.length (arrivals w))%nat.
Proof.
  unfold sleep. run. unfold await. simpl.
  destruct (arrivals w) as [|a rest]; simpl; [discriminate|].
  intros E; inversion E; subst.
  destruct (Arrival.cancel_pressed a); simpl; auto.
Qed.

Lemma pollLoop_condition_false (fuel : nat) :
  forall se w w',
    pollLoop fuel se w = (Returned ConditionFalse, w') ->
    loop_condition w' = false /\
    options w' = options w /\
    ids (queue w') = ids (queue w) /\
    exists tr,
      trace w' = (trace w ++ tr)%list /\
      poll_trace (OptionsStore.baseURL (options w)) (queue w) se tr.
Proof.
  induction fuel as [|fuel IH]; intros se w w' E; simpl in E; [discriminate|].
  run. destruct (loop_condition w) eqn:Ec; simpl in E.
  2:{ inversion E; subst. repeat split; auto. exists []. rewrite app_nil_r.
      split; [reflexivity|constructor]. }
  destruct (pollJobs [] (queue w) w) as [[[|]| |] w1] eqn:Ej; simpl in E;
    try discriminate.
  apply pollJobs_true in Ej; [|reflexivity].
  destruct Ej as (q' & Q & I & T & O & L). simpl in Q.
  match type of E with
  | match sleep ?ms ?x with _ => _ end = _ =>
      destruct (sleep ms x) as [[[]| |] w2] eqn:Es; try discriminate
  end.
  apply sleep_returned in Es as (T2 & Q2 & O2 & L2). simpl in *.
  apply IH in E. destruct E as (C & O' & I' & tr & T' & P).
  repeat split; auto.
  - congruence.
  - rewrite I', Q2, Q. exact I.
  - eexists. split.
    + rewrite T', T2, T, <- !app_assoc. simpl. reflexivity.
    + rewrite O2, O, Q2 in P. subst q'.
      constructor; assumption.
Qed.

(** Fuel: with more fuel than arrivals the loop can only be left pending by
    the environment. *)
Lemma checkImage_pending id w w1 :
  checkImage id w = (Pending, w1) -> arrivals w1 = [].
Proof.
  unfold checkImage, fetch. run. unfold await. simpl.
  destruct (arrivals w) as [|a rest] eqn:Ea; simpl.
  - intros E; inversion E; subst; simpl. exact Ea.
  - destruct (Arrival.cancel_pressed a); simpl; [discriminate|].
    destruct (cancelled w); simpl; [discriminate|].
    validate_cases; discriminate.
Qed.

Lemma pollJobs_pending (todo : list ICurrentGeneration.t) :
  forall checked w w',
    pollJobs checked todo w = (Pending, w') -> arrivals w' = [].
Proof.
  induction todo as [|j todo IH]; intros checked w w' E; simpl in E.
  - discriminate.
  - destruct (job_done j); [eapply IH; eassumption|].
    run. destruct (checkImage (ICurrentGeneration.id j) w) as [[[st|]| |] w1] eqn:Ec;
      try discriminate.
    + eapply IH; eassumption.
    + inversion E; subst. eapply checkImage_pending; eassumption.
Qed.

Lemma pollLoop_pending (fuel : nat) :
  forall se w w',
    (List.length (arrivals w) < fuel)%nat ->
    pollLoop fuel se w = (Pending, w') -> arrivals w' = [].
Proof.
  induction fuel as [|fuel IH]; intros se w w' Hf E; [lia|]. simpl in E.
  run. destruct (loop_condition w); simpl in E; [|discriminate].
  destruct (pollJobs [] (queue w) w) as [[[|]| |] w1] eqn:Ej; simpl in E;
    try discriminate.
  - apply pollJobs_true in Ej; [|reflexivity].
    destruct Ej as (q' & Q & I & T & O & L).
    match type of E with
    | match sleep ?ms ?x with _ => _ end = _ =>
        destruct (sleep ms x) as [[[]| |] w2] eqn:Es; try discriminate
    end.
    + apply sleep_returned in Es as (T2 & Q2 & O2 & L2). simpl in *.
      eapply IH; [|eassumption]. lia.
    + inversion E; subst. revert Es. unfold sleep. run. unfold await. simpl.
      destruct (arrivals w1) eqn:Ea; simpl; [|discriminate].
      intros E2; inversion E2; subst; simpl. exact Ea.
  - inversion E; subst. eapply pollJobs_pending; eassumption.
Qed.

Lemma checkImage_cancelled_run (imageID : value) (w : World) (a : Arrival.t)
    (rest : list Arrival.t) :
  arrivals w = a :: rest ->
  cancelled w = true \/ Arrival.cancel_pressed a = true ->
  checkImage imageID w =
  (Returned (Some cancelled_status),
   set_cancelled true
     (set_arrivals rest
        (set_trace (trace w ++ [Fetch GET (url_check w imageID) None None]) w))).
Proof.
  intros Ha Hc. unfold checkImage, fetch. run. unfold await. simpl. rewrite Ha.
  destruct (Arrival.cancel_pressed a) eqn:Ep; simpl; [reflexivity|].
  destruct Hc as [Hc|Hc]; [|discriminate].
  rewrite Hc. unfold set_cancelled, set_arrivals, set_trace. simpl.
  rewrite Hc. reflexivity.
Qed.

(** Once the flag is set, the rest of the iteration runs as usual: every
    remaining job that is not done is still queried, one arrival each, and
    no check fails. *)
Lemma pollJobs_after_cancel (todo : list ICurrentGeneration.t) :
  forall checked w,
    cancelled w = true ->
    (List.length (pending_jobs todo) <= List.length (arrivals w))%nat ->
    exists w',
      pollJobs checked todo w = (Returned true, w') /\
      cancelled w' = true /\
      options w' = options w /\
      arrivals w' = skipn (List.length (pending_jobs todo)) (arrivals w) /\
      trace w' =
        (trace w ++ map (check_event (OptionsStore.baseURL (options w)))
                        (pending_jobs todo))%list.
Proof.
  induction todo as [|j todo IH]; intros checked w Hc Hl; simpl.
  - exists w. simpl. rewrite app_nil_r. auto.
  - unfold pending_jobs in *. simpl in *.
    destruct (job_done j) eqn:Ed; simpl in *.
    + apply IH; assumption.
    + destruct (arrivals w) as [|a rest] eqn:Ea; simpl in Hl; [lia|].
      run. rewrite (checkImage_cancelled_run _ w a rest Ea (or_introl Hc)).
      match goal with
      | |- context [pollJobs ?c todo ?x] =>
          destruct (IH c x) as (w' & E & C & O & A & T);
          [reflexivity|simpl; lia|]
      end.
      exists w'. rewrite E. simpl in *. repeat split; auto.
      rewrite T, <- app_assoc. reflexivity.
Qed.

Lemma sleep_run ms w a rest :
  arrivals w = a :: rest ->
  sleep ms w =
  (Returned tt,
   if Arrival.cancel_pressed a
   then set_cancelled true (set_arrivals rest (set_trace (trace w ++ [Sleep ms]) w))
   else set_arrivals rest (set_trace (trace w ++ [Sleep ms]) w)).
Proof.
  intros Ha. unfold sleep. run. unfold await. simpl. rewrite Ha. reflexivity.
Qed.

(** The cancel button pressed while the check of the first job is in
    flight: the check completes, the remaining jobs of the iteration are
    queried, progress is updated and the loop sleeps; it is left at the next
    test of its condition. *)
Lemma cancel_during_check (fuel : nat) (se : Z) (w : World)
    (j : ICurrentGeneration.t) (others : list ICurrentGeneration.t)
    (a : Arrival.t) (later : list Arrival.t) :
  queue w = j :: others ->
  job_done j = false ->
  cancelled w = false ->
  arrivals w = a :: later ->
  Arrival.cancel_pressed a = true ->
  (List.length (pending_jobs others) < List.length later)%nat ->
  exists w' statuses,
    pollLoop (S (S fuel)) se w = (Returned ConditionFalse, w') /\
    cancelled w' = true /\
    trace w' =
      (trace w
         ++ map (check_event (OptionsStore.baseURL (options w)))
                (j :: pending_jobs others)
         ++ [UpdateProgress statuses (se + 1); Sleep 500])%list.
Proof.
  intros Hq Hd Hc Ha Hp Hl.
  cbn [pollLoop]. run.
  assert (Hcond : loop_condition w = true).
  { unfold loop_condition. rewrite Hq, Hc. simpl. rewrite Hd. reflexivity. }
  rewrite Hcond. simpl. rewrite Hq. cbn [pollJobs]. rewrite Hd. run.
  rewrite (checkImage_cancelled_run _ w a later Ha (or_intror Hp)).
  match goal with
  | |- context [pollJobs ?c others ?x] =>
      destruct (pollJobs_after_cancel others c x) as (w1 & E & C & O & A & T);
      [reflexivity|simpl; lia|]
  end.
  rewrite E. run. simpl in A, T, O.
  destruct (arrivals w1) as [|t rest] eqn:Ea.
  { exfalso. apply (f_equal (@List.length _)) in A. rewrite length_skipn in A.
    simpl in A. lia. }
  cbn [negb]. cbn beta iota.
  match goal with
  | |- context [sleep ?ms ?x] => rewrite (sleep_run ms x t rest Ea)
  end.
  assert (Hx : forall x : World, cancelled x = true -> loop_condition x = false).
  { intros x Hxc. unfold loop_condition. rewrite Hxc. apply Bool.andb_false_r. }
  cbn beta iota.
  match goal with
  | |- context [loop_condition ?x] =>
      assert (Hcx : cancelled x = true)
        by (destruct (Arrival.cancel_pressed t); simpl; auto);
      rewrite (Hx x Hcx); cbn [negb]; cbn beta iota;
      exists x; eexists; split; [reflexivity|]; split; [exact Hcx|]
  end.
  destruct (Arrival.cancel_pressed t); simpl; rewrite T;
    rewrite <- !app_assoc; simpl; reflexivity.
Qed.

Lemma pollJobs_false_inv (todo : list ICurrentGeneration.t) :
  forall checked w w1,
    pollJobs checked todo w = (Returned false, w1) ->
    exists el w0,
      In el todo /\ job_done el = false /\
      checkImage (ICurrentGeneration.id el) w0 = (Returned None, w1).
Proof.
  induction todo as [|j todo IH]; intros checked w w1 E; simpl in E.
  - discriminate.
  - destruct (job_done j) eqn:Ed.
    + apply IH in E as (el & w0 & I & D & C). exists el, w0. simpl. auto.
    + run. destruct (checkImage (ICurrentGeneration.id j) w) as [[[st|]| |] w2] eqn:Ec;
        try discriminate.
      * apply IH in E as (el & w0 & I & D & C). exists el, w0. simpl. auto.
      * inversion E; subst. exists j, w. simpl. auto.
Qed.

Lemma pollLoop_check_failed_inv (fuel : nat) :
  forall se w w1,
    pollLoop fuel se w = (Returned CheckFailed, w1) ->
    exists el w0,
      job_done el = false /\
      checkImage (ICurrentGeneration.id el) w0 = (Returned None, w1).
Proof.
  induction fuel as [|fuel IH]; intros se w w1 E; simpl in E; [discriminate|].
  run. destruct (loop_condition w); simpl in E; [|discriminate].
  destruct (pollJobs [] (queue w) w) as [[[|]| |] w2] eqn:Ej; simpl in E;
    try discriminate.
  - match type of E with
    | match sleep ?ms ?x with _ => _ end = _ =>
        destruct (sleep ms x) as [[[]| |] w3]; try discriminate
    end.
    eapply IH; eassumption.
  - inversion E; subst.
    apply pollJobs_false_inv in Ej as (el & w0 & _ & D & C). eauto.
Qed.

Lemma checkImage_accepted (imageID : value) (w : World) (a : Arrival.t)
    (rest : list Arrival.t) :
  arrivals w = a :: rest ->
  accepts (cancelled w || Arrival.cancel_pressed a) a = true ->
  checkImage imageID w =
  (Returned (Some (status_of (cancelled w || Arrival.cancel_pressed a) a)),
   set_cancelled (cancelled w || Arrival.cancel_pressed a)
     (set_arrivals rest
        (set_trace (trace w ++ [Fetch GET (url_check w imageID) None None]) w))).
Proof.
  intros Ha Hacc. unfold checkImage, fetch. run. unfold await. simpl.
  rewrite Ha. unfold accepts, status_of in *.
  destruct (Arrival.cancel_pressed a) eqn:Ep; simpl.
  - rewrite Bool.orb_true_r. reflexivity.
  - rewrite Bool.orb_false_r in *.
    destruct (cancelled w) eqn:Ec; simpl in *.
    + destruct w; simpl in *; subst; reflexivity.
    + unfold validateResponse. rewrite Hacc. unfold ret. simpl.
      destruct w; simpl in *; subst; reflexivity.
Qed.

Lemma pollJobs_round (todo : list ICurrentGeneration.t) :
  forall checked w replies rest,
    queue w = (checked ++ todo)%list ->
    arrivals w = (replies ++ rest)%list ->
    List.length replies = List.length (pending_jobs todo) ->
    all_accepted (cancelled w) replies = true ->
    pollJobs checked todo w =
    (Returned true,
     set_cancelled (pressed (cancelled w) replies)
       (set_arrivals rest
          (set_trace
             (trace w ++ map (check_event (OptionsStore.baseURL (options w)))
                             (pending_jobs todo))
             (set_queue (checked ++ answered (cancelled w) todo replies) w)))).
Proof.
  induction todo as [|j todo IH]; intros checked w replies rest Hq Ha Hl Hacc.
  - destruct replies; [|discriminate]. simpl in *.
    unfold pressed. simpl. rewrite Bool.orb_false_r, !app_nil_r.
    rewrite app_nil_r in Hq.
    destruct w; simpl in *; subst; reflexivity.
  - unfold pending_jobs in *. cbn [pollJobs answered filter] in *.
    destruct (job_done j) eqn:Ed; cbn [negb] in *; cbn beta iota in *.
    + assert (Hq' : queue w = ((checked ++ [j]) ++ todo)%list)
        by (rewrite Hq, <- app_assoc; reflexivity).
      rewrite (IH (checked ++ [j])%list w replies rest Hq' Ha Hl Hacc).
      rewrite <- app_assoc. reflexivity.
    + destruct replies as [|a later]; [discriminate|].
      cbn [all_accepted] in Hacc. apply Bool.andb_true_iff in Hacc.
      destruct Hacc as [Hacc1 Hacc2].
      simpl in Ha, Hl. injection Hl as Hl.
      run. rewrite (checkImage_accepted _ w a (later ++ rest) Ha Hacc1).
      match goal with
      | |- context [pollJobs ?c todo ?x] =>
          rewrite (IH c x later rest)
      end.
      * unfold pressed, url_check, check_event. simpl.
        rewrite <- !app_assoc. simpl.
        destruct w; simpl in *; subst.
        rewrite Bool.orb_assoc. reflexivity.
      * simpl. rewrite <- app_assoc. reflexivity.
      * reflexivity.
      * exact Hl.
      * exact Hacc2.
Qed.

Lemma loop_condition_true (w : World) :
  loop_condition w = true ->
  cancelled w = false /\ pending_jobs (queue w) <> [].
Proof.
  unfold loop_condition. intros H. apply Bool.andb_true_iff in H.
  destruct H as [H1 H2]. apply Bool.negb_true_iff in H1, H2.
  split; [exact H2|].
  intros E. revert H1. unfold pending_jobs in E.
  induction (queue w) as [|el q IH]; simpl in *; [discriminate|].
  destruct (job_done el); simpl in *; [auto|discriminate].
Qed.

Lemma pollLoop_round (fuel : nat) (se : Z) (w : World)
    (replies : list Arrival.t) (t : Arrival.t) (rest : list Arrival.t) :
  loop_condition w = true ->
  arrivals w = (replies ++ t :: rest)%list ->
  List.length replies = List.length (pending_jobs (queue w)) ->
  all_accepted false replies = true ->
  pollLoop (S fuel) se w = pollLoop fuel (se + 1) (after_round se replies t rest w).
Proof.
  intros Hc Ha Hl Hacc.
  destruct (loop_condition_true w Hc) as [Hf _].
  cbn [pollLoop]. run. rewrite Hc. cbn [negb]. cbn beta iota.
  rewrite (pollJobs_round (queue w) [] w replies (t :: rest) eq_refl Ha Hl);
    [|rewrite Hf; exact Hacc].
  cbn [negb]. cbn beta iota.
  match goal with
  | |- context [sleep ?ms ?x] => rewrite (sleep_run ms x t rest eq_refl)
  end.
  cbn beta iota. f_equal.
  unfold after_round, pressed. rewrite Hf. simpl.
  rewrite existsb_app. simpl. rewrite Bool.orb_false_r.
  destruct (Arrival.cancel_pressed t); simpl;
    rewrite ?Bool.orb_true_r, ?Bool.orb_false_r, <- !app_assoc;
    destruct w; simpl in *; subst; reflexivity.
Qed.

Lemma pollLoop_exit (fuel : nat) (se : Z) (w : World) :
  loop_condition w = false ->
  pollLoop (S fuel) se w = (Returned ConditionFalse, w).
Proof.
  intros Hc. cbn [pollLoop]. run. rewrite Hc. reflexivity.
Qed.

Lemma answered_discarded (q : list ICurrentGeneration.t) :
  forall c replies,
    List.length replies = List.length (pending_jobs q) ->
    c = true \/ (exists a later, replies = a :: later /\
                                 Arrival.cancel_pressed a = true) ->
    answered c q replies = map discarded q.
Proof.
  induction q as [|el q IH]; intros c replies Hl Hc; [reflexivity|].
  unfold pending_jobs, discarded in *. simpl in *.
  destruct (job_done el) eqn:Ed; simpl in *.
  - f_equal. apply IH; assumption.
  - destruct replies as [|a later]; [discriminate|].
    injection Hl as Hl.
    assert (E : c || Arrival.cancel_pressed a = true).
    { destruct Hc as [->|(a' & l' & Er & Ep)]; [reflexivity|].
      inversion Er; subst. rewrite Ep. apply Bool.orb_true_r. }
    rewrite E. simpl. f_equal. apply IH; auto.
Qed.

Lemma all_accepted_true (replies : list Arrival.t) :
  all_accepted true replies = true.
Proof. induction replies; simpl; auto. Qed.

(** C3, counterexample.  A reply [500 {}] to the status check of
    the one queued job: the loop is left through [return
    generationFailed()] with no job done and [cancelled] unset.  And the
    flag is not read by the loop condition only: the server's reply
    [{done: true}] is stored when it arrives undisturbed, and replaced by
    [{ wait_time: 0, done: false }] when the cancel button was pressed while
    the check was in flight. *)
Lemma poll_loop_left_by_failed_check :
  (let w := set_arrivals [reply 500 (VObj [])]
              (set_queue [sample_job "a"] sample_world) in
   exists w',
     pollLoop 2 0 w = (Returned CheckFailed, w') /\
     forallb job_done (queue w') = false /\
     cancelled w' = false)
  /\
  (let finished := VObj [("done", VBool true)] in
   let w := set_queue [sample_job "a"] sample_world in
   (exists w',
       pollLoop 2 0 (set_arrivals [reply 200 finished; timer] w)
         = (Returned ConditionFalse, w') /\
       map waitData_value (queue w') = [finished] /\
       cancelled w' = false)
   /\
   (exists w',
       pollLoop 2 0 (set_arrivals [reply_with_cancel 200 finished; timer] w)
         = (Returned ConditionFalse, w') /\
       map waitData_value (queue w') = [cancelled_status] /\
       forallb job_done (queue w') = false)).
Proof.
  split; [|split]; vm_compute; eexists; repeat split; reflexivity.
Qed.

(** C3, amended.  The poll loop runs in rounds.  While some queued job is
    not done and [cancelled] is unset, a round sends a status request for
    each queued job whose [done] flag is not set (the others are skipped),
    stores each reply in its job, updates the progress, sleeps 500 ms, and
    the loop goes on from the world the round left.  With every job done or
    [cancelled] set the loop is left at once by its condition; a run that
    returns was left either so, after a sequence of whole rounds, or through
    [return generationFailed()] after the check of a job returned [false].
    The loop waits for nothing but replies and the timer.  A press of the
    cancel button while the first check of a round is in flight interrupts
    nothing: every job of the round is still queried, progress is updated
    and the loop sleeps before it is left by its condition; but [checkImage]
    reads the flag when a reply arrives, and every reply of that round is
    replaced by [{ wait_time: 0, done: false }]. *)
Theorem poll_loop_rounds :
  (forall (fuel : nat) (se : Z) (w : World) (replies : list Arrival.t)
          (t : Arrival.t) (rest : list Arrival.t),
      loop_condition w = true ->
      arrivals w = (replies ++ t :: rest)%list ->
      List.length replies = List.length (pending_jobs (queue w)) ->
      all_accepted false replies = true ->
      pollLoop (S fuel) se w
        = pollLoop fuel (se + 1) (after_round se replies t rest w))
  /\
  (forall (fuel : nat) (se : Z) (w : World),
      loop_condition w = false ->
      pollLoop (S fuel) se w = (Returned ConditionFalse, w))
  /\
  (forall (fuel : nat) (se : Z) (w w' : World) (exit : loop_exit),
      pollLoop fuel se w = (Returned exit, w') ->
      match exit with
      | ConditionFalse =>
          (forallb job_done (queue w') = true \/ cancelled w' = true) /\
          exists tr,
            trace w' = (trace w ++ tr)%list /\
            poll_trace (OptionsStore.baseURL (options w)) (queue w) se tr
      | CheckFailed =>
          exists el w0,
            job_done el = false /\
            checkImage (ICurrentGeneration.id el) w0 = (Returned None, w')
      end)
  /\
  (forall (fuel : nat) (se : Z) (w w' : World),
      (List.length (arrivals w) < fuel)%nat ->
      pollLoop fuel se w = (Pending, w') ->
      arrivals w' = [])
  /\
  (forall (fuel : nat) (se : Z) (w : World) (a t : Arrival.t)
          (later rest : list Arrival.t),
      loop_condition w = true ->
      arrivals w = (a :: later ++ t :: rest)%list ->
      Arrival.cancel_pressed a = true ->
      S (List.length later) = List.length (pending_jobs (queue w)) ->
      exists w',
        pollLoop (S (S fuel)) se w = (Returned ConditionFalse, w') /\
        cancelled w' = true /\
        queue w' = map discarded (queue w) /\
        arrivals w' = rest /\
        trace w' =
          (trace w
             ++ map (check_event (OptionsStore.baseURL (options w)))
                    (pending_jobs (queue w))
             ++ [UpdateProgress (map waitData_value (map discarded (queue w)))
                   (se + 1);
                 Sleep 500])%list).
Proof.
  split; [|split; [|split; [|split]]].
  - intros. apply pollLoop_round; assumption.
  - intros. apply pollLoop_exit; assumption.
  - intros fuel se w w' [|] E.
    + destruct (pollLoop_condition_false fuel se w w' E) as (C & _ & _ & T).
      split; [|exact T].
      unfold loop_condition in C. apply Bool.andb_false_iff in C.
      destruct C as [C|C]; apply Bool.negb_false_iff in C; auto.
    + eapply pollLoop_check_failed_inv; eassumption.
  - intros fuel se w w' Hf E. eapply pollLoop_pending; eassumption.
  - intros fuel se w a t later rest Hc Ha Hp Hl.
    assert (Hacc : all_accepted false (a :: later) = true).
    { cbn [all_accepted]. rewrite Hp. simpl. apply all_accepted_true. }
    assert (Hq : answered false (queue w) (a :: later) = map discarded (queue w)).
    { apply answered_discarded; [simpl; congruence|].
      right. exists a, later. auto. }
    exists (after_round se (a :: later) t rest w).
    rewrite (pollLoop_round (S fuel) se w (a :: later) t rest Hc Ha
               Hl Hacc).
    assert (Hx : cancelled (after_round se (a :: later) t rest w) = true).
    { unfold after_round, pressed. simpl. rewrite Hp. reflexivity. }
    split.
    { apply pollLoop_exit. unfold loop_condition. rewrite Hx.
      apply Bool.andb_false_r. }
    split; [exact Hx|].
    unfold after_round. rewrite Hq. simpl. auto.
Qed.

Lemma poll_loop_rounds_witness :
  (let waiting := VObj [("done", VBool false)] in
   let finished := VObj [("done", VBool true)] in
   let w := set_arrivals
              [reply 200 waiting; reply 200 finished; timer;
               reply 200 finished; timer]
              (set_queue [sample_job "a"; sample_job "b"] sample_world) in
   exists w',
     pollLoop 3 0 w = (Returned ConditionFalse, w') /\
     forallb job_done (queue w') = true /\
     arrivals w' = [] /\
     trace w' =
       [Fetch GET "https://horde.example/api/v2/generate/check/a" None None;
        Fetch GET "https://horde.example/api/v2/generate/check/b" None None;
        UpdateProgress [waiting; finished] 1;
        Sleep 500;
        Fetch GET "https://horde.example/api/v2/generate/check/a" None None;
        UpdateProgress [finished; finished] 2;
        Sleep 500])
  /\
  (let w := set_arrivals
              [reply_with_cancel 200 (VObj [("done", VBool true)]);
               reply 503 VNull; timer]
              (set_queue [sample_job "a"; sample_job "b"] sample_world) in
   exists w',
     pollLoop 2 0 w = (Returned ConditionFalse, w') /\
     cancelled w' = true /\
     map waitData_value (queue w') = [cancelled_status; cancelled_status] /\
     requests (trace w') =
       [(GET, "https://horde.example/api/v2/generate/check/a");
        (GET, "https://horde.example/api/v2/generate/check/b")]).
Proof.
  destruct poll_loop_rounds as (Round & Exit & _ & _ & Press).
  split.
  - intros waiting finished w.
    pose (w1 := after_round 0 [reply 200 waiting; reply 200 finished] timer
                  [reply 200 finished; timer] w).
    pose (w2 := after_round 1 [reply 200 finished] timer [] w1).
    exists w2. split; [|repeat split].
    exact (eq_trans
             (Round 2%nat 0 w [reply 200 waiting; reply 200 finished] timer
                [reply 200 finished; timer] eq_refl eq_refl eq_refl eq_refl)
             (eq_trans
                (Round 1%nat 1 w1 [reply 200 finished] timer [] eq_refl
                   eq_refl eq_refl eq_refl)
                (Exit 0%nat 2 w2 eq_refl))).
  - intros w.
    destruct (Press 0%nat 0 w
                (reply_with_cancel 200 (VObj [("done", VBool true)])) timer
                [reply 503 VNull] [] eq_refl eq_refl eq_refl eq_refl)
      as (w' & E & C & Q & _ & T).
    exists w'. split; [exact E|]. split; [exact C|].
    rewrite Q, T. split; reflexivity.
Defined.

(** ** Failure and cancellation *)

Lemma cancelAll_run (q : list ICurrentGeneration.t) :
  forall w,
    cancelAll q w =
    (Returned tt,
     set_trace (trace w ++ map (cancel_event (OptionsStore.baseURL (options w))) q) w).
Proof.
  induction q as [|el q IH]; intros w; simpl.
  - unfold ret. rewrite app_nil_r. destruct w; reflexivity.
  - unfold cancelImage_request. run. rewrite IH. simpl.
    rewrite <- app_assoc. reflexivity.
Qed.

Lemma generationFailed_run (w : World) :
  generationFailed w =
  (Returned [],
   set_queue []
     (set_trace
        (trace w ++ map (cancel_event (OptionsStore.baseURL (options w))) (queue w))
        (set_generating false w))).
Proof.
  unfold generationFailed. run. rewrite cancelAll_run. reflexivity.
Qed.

Lemma pollAndCollect_failure ext pc w w1 :
  later_step_fails w w1 ->
  pollAndCollect ext pc w = generationFailed w1.
Proof.
  intros H. unfold pollAndCollect. run.
  destruct H as [w1 E|w1 w2 E1 E2].
  - rewrite E. reflexivity.
  - rewrite E1. cbn beta iota. rewrite E2. reflexivity.
Qed.

Lemma generateImage_failure ext type w w1 :
  step_fails ext type w w1 ->
  generateImage ext type w = generationFailed w1.
Proof.
  intros H. unfold generateImage. run.
  destruct H as [src ws model wm w1 Hp Hs Hm Hf
                |src ws model wm r id w1 w2 Hp Hs Hm Hf Hid Hl].
  - apply String.eqb_neq in Hp. rewrite Hp. rewrite Hs. cbn beta iota.
    rewrite Hm. cbn beta iota. rewrite Hf. reflexivity.
  - apply String.eqb_neq in Hp. rewrite Hp. rewrite Hs. cbn beta iota.
    rewrite Hm. cbn beta iota. rewrite Hf. cbn beta iota. rewrite Hid.
    apply (pollAndCollect_failure ext _ _ _ Hl).
Qed.

Lemma pollJobs_check_fails checked el rest w w1 :
  job_done el = false ->
  checkImage (ICurrentGeneration.id el) w = (Returned None, w1) ->
  pollJobs checked (el :: rest) w = (Returned false, w1).
Proof.
  intros Hd E. simpl. rewrite Hd. run. rewrite E. reflexivity.
Qed.

Lemma collectFinal_retrieval_fails el rest acc w w1 :
  (if cancelled w then cancelImage (ICurrentGeneration.id el) w
   else getImageStatus (ICurrentGeneration.id el) w) = (Returned None, w1) ->
  collectFinal (el :: rest) acc w = (Returned None, w1).
Proof.
  intros E. simpl. run. destruct (cancelled w); rewrite E; reflexivity.
Qed.

Lemma cancelImage_some id w g w1 :
  cancelled w = true ->
  cancelImage id w = (Returned (Some g), w1) ->
  cancelled w1 = true /\ options w1 = options w /\
  trace w1 =
    (trace w ++ [Fetch DELETE (url_status w id) None None])%list.
Proof.
  intros Hc. unfold cancelImage, cancelImage_request. run. unfold await. simpl.
  destruct (arrivals w) as [|a rest]; simpl; [discriminate|].
  validate_cases; try discriminate;
    destruct (prop "generations" (Arrival.body a)); try discriminate;
    destruct (Arrival.cancel_pressed a); intros E; inversion E; subst; simpl; auto.
Qed.

(** When the final loop runs to its end with [cancelled] set, it has sent
    one DELETE for each job of the list, in order, and nothing else. *)
Lemma collectFinal_cancels_every_job (q : list ICurrentGeneration.t) :
  forall acc w imgs w',
    cancelled w = true ->
    collectFinal q acc w = (Returned (Some imgs), w') ->
    cancelled w' = true /\
    trace w' =
      (trace w ++ map (cancel_event (OptionsStore.baseURL (options w))) q)%list.
Proof.
  induction q as [|j q IH]; intros acc w imgs w' Hc E; simpl in E.
  - inversion E; subst. rewrite app_nil_r. auto.
  - run. rewrite Hc in E.
    destruct (cancelImage (ICurrentGeneration.id j) w) as [[[g|]| |] w1] eqn:Ec;
      try discriminate.
    apply (cancelImage_some _ _ _ _ Hc) in Ec as (C1 & O1 & T1).
    destruct (truthy g); simpl in E; [|discriminate].
    destruct (spread g) as [l|]; [|discriminate].
    apply IH in E; [|exact C1]. destruct E as (C & T).
    split; [exact C|]. rewrite T, T1, O1, <- app_assoc. reflexivity.
Qed.

(** With a single job and [cancelled] set, the final loop sends the DELETE
    of that job whatever the reply. *)
Lemma collectFinal_cancels_single_job (j : ICurrentGeneration.t) acc w :
  cancelled w = true ->
  requests (trace (snd (collectFinal [j] acc w))) =
  (requests (trace w)
     ++ [(DELETE, url_status w (ICurrentGeneration.id j))])%list.
Proof.
  intros Hc. simpl. run. rewrite Hc.
  pose proof (cancelImage_request_trace (ICurrentGeneration.id j) w) as R.
  destruct (cancelImage (ICurrentGeneration.id j) w) as [[[g|]| |] w1];
    simpl in *; try exact R.
  destruct (truthy g); simpl; [|exact R].
  destruct (spread g); simpl; exact R.
Qed.

Lemma collectFinal_none_inv (q : list ICurrentGeneration.t) :
  forall acc w w1,
    collectFinal q acc w = (Returned None, w1) ->
    exists el w0 r,
      In el q /\
      (if cancelled w0 then cancelImage (ICurrentGeneration.id el) w0
       else getImageStatus (ICurrentGeneration.id el) w0) = (Returned r, w1) /\
      (r = None \/ exists g, r = Some g /\ truthy g = false).
Proof.
  induction q as [|j q IH]; intros acc w w1 E; simpl in E; [discriminate|].
  run.
  destruct ((if cancelled w then cancelImage (ICurrentGeneration.id j)
             else getImageStatus (ICurrentGeneration.id j)) w)
    as [[[g|]| |] w2] eqn:Ec; try discriminate.
  - destruct (truthy g) eqn:Et; simpl in E.
    + destruct (spread g); [|discriminate].
      apply IH in E as (el & w0 & r & I & C & R).
      exists el, w0, r. simpl. auto.
    + inversion E; subst. exists j, w, (Some g). simpl. split; [auto|].
      split; [destruct (cancelled w); exact Ec|]. right. eauto.
  - inversion E; subst. exists j, w, None. simpl. split; [auto|].
    split; [destruct (cancelled w); exact Ec|]. now left.
Qed.

(** C10.  When a step of [generateImage] returns [false] (the submission,
    a status check of the poll loop, or a cancellation or final status
    retrieval after it), the call ends as [generationFailed] run in the
    world the step left: it returns the empty list, [generating] is
    [false], the queue is empty, and the trace has grown by exactly one
    cancel request for each job that was in the queue at that point. *)
Theorem failed_step_ends_in_generationFailed :
  forall (ext : Outside) (type : GeneratorType) (w w1 : World),
    step_fails ext type w w1 ->
    generateImage ext type w = generationFailed w1 /\
    exists w',
      generateImage ext type w = (Returned [], w') /\
      generating w' = false /\
      queue w' = [] /\
      trace w' =
        (trace w1
           ++ map (cancel_event (OptionsStore.baseURL (options w1))) (queue w1))%list.
Proof.
  intros ext type w w1 H.
  pose proof (generateImage_failure ext type w w1 H) as E.
  split; [exact E|].
  rewrite E, generationFailed_run. eexists. split; [reflexivity|].
  repeat split.
Qed.

Lemma failed_step_ends_in_generationFailed_witness :
  let w := set_arrivals [reply 500 (VObj [("message", VStr "down")])]
             (set_queue [sample_job "a"] sample_world) in
  exists w',
    generateImage sample_outside Text2Img w = (Returned [], w') /\
    generating w' = false /\ queue w' = [] /\
    requests (trace w') =
      [(POST, "https://horde.example/api/v2/generate/async");
       (DELETE, "https://horde.example/api/v2/generate/status/a")].
Proof.
  intros w.
  assert (F : step_fails sample_outside Text2Img w
                (snd (fetchNewID
                        (cacheParams (None, None, None)
                           [VStr "stable_diffusion"] w)
                        (set_generating true w)))).
  { eapply submission_fails with (src := (None, None, None))
      (ws := w) (model := [VStr "stable_diffusion"]) (wm := w).
    - discriminate.
    - reflexivity.
    - reflexivity.
    - vm_compute. reflexivity. }
  destruct (failed_step_ends_in_generationFailed _ _ _ _ F)
    as (_ & w' & E & G & Q & T).
  exists w'. repeat split; try assumption.
  rewrite T. vm_compute. reflexivity.
Defined.

(** C2, the failing input.  The queue holds the job ["a"] of an earlier
    call besides the new job ["b"], and [cancelled] is set when the poll
    loop is reached.  The cancel request of ["a"] is answered with 404, so
    [onInvalidResponse] clears the flag and [generationFailed] runs on the
    queue that was emptied just before: the call returns with an empty
    queue, and no DELETE was ever sent for ["b"]. *)
Theorem failed_cancel_leaves_job_uncancelled :
  fst first_call = TypeError /\
  ids (queue (snd first_call)) = [VStr "a"] /\
  fst second_call = Returned [] /\
  queue (snd second_call) = [] /\
  requests (trace (snd second_call)) =
    (requests (trace (snd first_call))
       ++ [(POST, "https://horde.example/api/v2/generate/async");
           (DELETE, "https://horde.example/api/v2/generate/status/a")])%list /\
  ~ In (DELETE, "https://horde.example/api/v2/generate/status/b")
       (requests (trace (snd second_call))).
Proof.
  repeat split; try (vm_compute; reflexivity).
  vm_compute. intros H.
  repeat (destruct H as [H|H]; [discriminate|]). exact H.
Qed.

(** ** Result materialisation *)

Lemma generationDone_run ext finalImages w :
  generationDone ext finalImages w =
  (Returned (map (gallery_entry (getNewImageID ext (outputs w))) finalImages),
   set_outputs
     (correctOutputIDs ext
        (outputs w ++ map (gallery_entry (getNewImageID ext (outputs w))) finalImages))
     (set_images (map (gallery_entry (getNewImageID ext (outputs w))) finalImages)
        (set_cancelled false (set_progress (Fin 0) (set_generating false w))))).
Proof. reflexivity. Qed.

Lemma renumber_from_ids_only l : forall i,
  map without_id (renumber_from i l) = map without_id l.
Proof.
  induction l as [|d l IH]; intros i; simpl; [reflexivity|].
  rewrite IH. reflexivity.
Qed.

Lemma sample_outside_corrects_ids_only : corrects_ids_only sample_outside.
Proof. intros l. apply renumber_from_ids_only. Qed.

(** For an id correction that rewrites ids only, every stored entry keeps
    its position and everything but its id. *)
Lemma generationDone_outputs_up_to_ids ext finalImages w :
  corrects_ids_only ext ->
  map without_id (outputs (snd (generationDone ext finalImages w))) =
  (map without_id (outputs w)
     ++ map without_id
          (map (gallery_entry (getNewImageID ext (outputs w))) finalImages))%list.
Proof.
  intros H. rewrite generationDone_run. simpl. rewrite H, map_app. reflexivity.
Qed.


(** ** Parameter validation *)

Lemma warnings_app (a b : list event) :
  warnings (a ++ b) = (warnings a ++ warnings b)%list.
Proof.
  induction a as [|e a IH]; simpl; [reflexivity|].
  destruct e; simpl; rewrite IH; reflexivity.
Qed.

Lemma acts_seq m k f g :
  acts m f -> acts k g -> acts (m ;;; k) (fun r => g (f r)).
Proof.
  intros Hm Hk w. destruct (Hm w) as (w1 & E1 & R1).
  destruct (Hk w1) as (w2 & E2 & R2).
  exists w2. unfold bind. rewrite E1. split; [exact E2|].
  rewrite R2, R1. reflexivity.
Qed.

Lemma acts_ext m f g : (forall r, f r = g r) -> acts m f -> acts m g.
Proof.
  intros H Hm w. destruct (Hm w) as (w' & E & R). exists w'.
  split; [exact E|]. rewrite R. apply H.
Qed.

Lemma acts_modify f :
  (forall w, ranges_of (f w) = ranges_of w) -> acts (modify f) (fun r => r).
Proof. intros H w. exists (f w). split; [reflexivity|apply H]. Qed.

Lemma acts_when_id b m : acts m (fun r => r) -> acts (when b m) (fun r => r).
Proof.
  intros H. destruct b; simpl; [exact H|].
  intros w. exists w. split; reflexivity.
Qed.

Lemma acts_emit_quiet e :
  (forall msg, e <> RaiseWarning msg) -> acts (emit e) (fun r => r).
Proof.
  intros H w. eexists. split; [reflexivity|].
  unfold ranges_of. simpl. rewrite warnings_app.
  destruct e; simpl; try (rewrite app_nil_r; reflexivity).
  exfalso. eapply H. reflexivity.
Qed.

Ltac quiet :=
  repeat first
    [ apply acts_when_id
    | apply acts_modify; intros; reflexivity
    | apply acts_emit_quiet; intros; discriminate
    | apply (acts_seq _ _ (fun r => r) (fun r => r)) ].

Ltac validated_block :=
  let w := fresh "w" in
  intros w;
  unfold with_steps, with_width, with_height, opt_num_truthy, validated, as_num,
    ranges_of, cap_steps, cap_dimensions;
  cbn [r_steps r_width r_height r_options r_warnings];
  match goal with
  | |- context [when (match ?o with _ => _ end) _] =>
      destruct o as [v|]; cbn [when fst snd];
      [destruct (num_truthy v); cbn [when fst snd]|]
  end;
  try (eexists; split; [reflexivity|]; rewrite app_nil_r; reflexivity);
  unfold validateParam, maxSteps, maxDimensions; run;
  match goal with
  | |- context [num_gt ?v ?c] =>
      destruct (num_gt v c); cbn [fst snd];
      eexists; (split; [reflexivity|]); cbn [trace params set_params set_trace
        Params.steps Params.width Params.height Params.set_steps
        Params.set_width Params.set_height options];
      rewrite ?warnings_app, ?app_nil_r; reflexivity
  end.

Lemma acts_steps data :
  acts (when (opt_num_truthy (ImageData.steps data))
          (cap <- gets maxSteps ;;
           v <- validateParam "steps" (as_num (ImageData.steps data)) cap
                  (Params.steps getDefaultStore) ;;
           modify_params (Params.set_steps v)))
       (with_steps data).
Proof. validated_block. Qed.

Lemma acts_width data :
  acts (when (opt_num_truthy (ImageData.width data))
          (cap <- gets maxDimensions ;;
           v <- validateParam "width" (as_num (ImageData.width data)) cap
                  (Params.width getDefaultStore) ;;
           modify_params (Params.set_width v)))
       (with_width data).
Proof. validated_block. Qed.

Lemma acts_height data :
  acts (when (opt_num_truthy (ImageData.height data))
          (cap <- gets maxDimensions ;;
           v <- validateParam "height" (as_num (ImageData.height data)) cap
                  (Params.height getDefaultStore) ;;
           modify_params (Params.set_height v)))
       (with_height data).
Proof. validated_block. Qed.

Lemma generateText2Img_ranges data :
  acts (generateText2Img data) (text2img_ranges data).
Proof.
  unfold generateText2Img.
  eapply acts_ext; cycle 1.
  - eapply acts_seq; [quiet|].
    eapply acts_seq; [quiet|].
    eapply acts_seq; [quiet|].
    eapply acts_seq; [quiet|].
    eapply acts_seq; [quiet|].
    eapply acts_seq; [quiet|].
    eapply acts_seq; [apply acts_steps|].
    eapply acts_seq; [quiet|].
    eapply acts_seq; [apply acts_width|].
    eapply acts_seq; [apply acts_height|].
    eapply acts_seq; [quiet|].
    eapply acts_seq; [quiet|].
    eapply acts_seq; [quiet|].
    quiet.
  - intros r. unfold text2img_ranges, with_steps, with_width, with_height. simpl.
    rewrite <- !app_assoc. reflexivity.
Qed.

Lemma above_cap_truthy (v : num) (o : OptionsStore.t) :
  num_gt v (cap_steps o) = true \/ num_gt v (cap_dimensions o) = true ->
  num_truthy v = true.
Proof.
  unfold cap_steps, cap_dimensions.
  destruct (String.eqb (OptionsStore.allowLargerParams o) "Enabled");
    destruct v as [z| |]; simpl; intros [H|H]; try discriminate; try reflexivity;
    apply Z.ltb_lt in H; apply Bool.negb_true_iff; apply Z.eqb_neq; lia.
Qed.

Lemma validated_above name v cap d cur :
  num_truthy v = true -> num_gt v cap = true ->
  validated name (Some v) cap d cur = (d, [warning_text name v]).
Proof. intros T G. unfold validated. rewrite T, G. reflexivity. Qed.

Lemma validated_within name v cap d cur :
  num_truthy v = true -> num_gt v cap = false ->
  validated name (Some v) cap d cur = (Some v, []).
Proof. intros T G. unfold validated. rewrite T, G. reflexivity. Qed.

Lemma validated_multiple name given cap cur :
  multiple_of_64 cur ->
  (forall v, given = Some v -> num_truthy v = true -> multiple_of_64 (Some v)) ->
  multiple_of_64 (fst (validated name given cap (Some (Fin 512)) cur)).
Proof.
  intros Hc Hg. unfold validated. destruct given as [v|]; [|exact Hc].
  destruct (num_truthy v) eqn:T; [|exact Hc].
  destruct (num_gt v cap); simpl; [reflexivity|].
  apply Hg; auto.
Qed.

(** C4, amended.  [generateText2Img] validates caps: a steps value above
    the steps cap (50, or 500 with larger values allowed) is replaced by 30,
    a width or height above the dimension cap (1024, or 3072) by 512, each
    with one warning; a width or height within the cap is stored as given.
    Nothing checks divisibility: the stored width and height are multiples
    of 64 when the stored ones were and the given ones are. *)
Theorem generateText2Img_validates_caps :
  forall (data : ImageData.t) (w : World),
  exists w',
    generateText2Img data w = (Returned tt, w') /\
    ranges_of w' = text2img_ranges data (ranges_of w) /\
    (forall s, ImageData.steps data = Some s ->
               num_gt s (maxSteps w) = true ->
               Params.steps (params w') = Some (Fin 30) /\
               In (warning_text "steps" s) (warnings (trace w'))) /\
    (forall x, ImageData.width data = Some x ->
               num_gt x (maxDimensions w) = true ->
               Params.width (params w') = Some (Fin 512) /\
               In (warning_text "width" x) (warnings (trace w'))) /\
    (forall y, ImageData.height data = Some y ->
               num_gt y (maxDimensions w) = true ->
               Params.height (params w') = Some (Fin 512) /\
               In (warning_text "height" y) (warnings (trace w'))) /\
    (forall x, ImageData.width data = Some x -> num_truthy x = true ->
               num_gt x (maxDimensions w) = false ->
               Params.width (params w') = Some x) /\
    (forall y, ImageData.height data = Some y -> num_truthy y = true ->
               num_gt y (maxDimensions w) = false ->
               Params.height (params w') = Some y) /\
    (multiple_of_64 (Params.width (params w)) ->
     (forall x, ImageData.width data = Some x -> num_truthy x = true ->
                multiple_of_64 (Some x)) ->
     multiple_of_64 (Params.width (params w'))) /\
    (multiple_of_64 (Params.height (params w)) ->
     (forall y, ImageData.height data = Some y -> num_truthy y = true ->
                multiple_of_64 (Some y)) ->
     multiple_of_64 (Params.height (params w'))).
Proof.
  intros data w.
  destruct (generateText2Img_ranges data w) as (w' & E & R).
  exists w'. split; [exact E|]. split; [exact R|].
  assert (Rs : r_steps (ranges_of w') = r_steps (text2img_ranges data (ranges_of w)))
    by (rewrite R; reflexivity).
  assert (Rx : r_width (ranges_of w') = r_width (text2img_ranges data (ranges_of w)))
    by (rewrite R; reflexivity).
  assert (Ry : r_height (ranges_of w') = r_height (text2img_ranges data (ranges_of w)))
    by (rewrite R; reflexivity).
  assert (Rw : r_warnings (ranges_of w') = r_warnings (text2img_ranges data (ranges_of w)))
    by (rewrite R; reflexivity).
  cbn [ranges_of text2img_ranges r_steps r_width r_height r_warnings r_options] in Rs, Rx, Ry, Rw.
  change (cap_steps (options w)) with (maxSteps w) in *.
  change (cap_dimensions (options w)) with (maxDimensions w) in *.
  assert (Ts : forall v, num_gt v (maxSteps w) = true -> num_truthy v = true).
  { intros v G. apply (above_cap_truthy v (options w)). left. exact G. }
  assert (Td : forall v, num_gt v (maxDimensions w) = true -> num_truthy v = true).
  { intros v G. apply (above_cap_truthy v (options w)). right. exact G. }
  split; [|split; [|split; [|split; [|split; [|split]]]]].
  - intros s Hs Gs. rewrite Rs, Rw, Hs, validated_above by auto.
    split; [reflexivity|]. apply in_or_app. right. simpl. now left.
  - intros x Hx Gx. rewrite Rx, Rw, Hx, (validated_above "width") by auto.
    split; [reflexivity|].
    apply in_or_app. right. apply in_or_app. right. apply in_or_app. left.
    simpl. now left.
  - intros y Hy Gy. rewrite Ry, Rw, Hy, (validated_above "height") by auto.
    split; [reflexivity|].
    apply in_or_app. right. apply in_or_app. right. apply in_or_app. right.
    simpl. now left.
  - intros x Hx Tx Gx. rewrite Rx, Hx, validated_within; auto.
  - intros y Hy Ty Gy. rewrite Ry, Hy, validated_within; auto.
  - intros Hc Hg. rewrite Rx. apply validated_multiple; assumption.
  - intros Hc Hg. rewrite Ry. apply validated_multiple; assumption.
Qed.

Lemma generateText2Img_validates_caps_witness :
  exists w',
    generateText2Img (entry_of_steps (Fin 600)) sample_world = (Returned tt, w') /\
    Params.steps (params w') = Some (Fin 30) /\
    In (warning_text "steps" (Fin 600)) (warnings (trace w')).
Proof.
  destruct (generateText2Img_validates_caps (entry_of_steps (Fin 600)) sample_world)
    as (w' & E & _ & Hs & _).
  exists w'. split; [exact E|].
  apply (Hs (Fin 600)); reflexivity.
Defined.

(** C4, counterexample.  The width 100 is within the cap, so it is stored
    as it is, without a warning, and 100 is not a multiple of 64. *)
Lemma width_100_is_stored :
  let w' := snd (generateText2Img (entry_of_width (Fin 100)) sample_world) in
  num_gt (Fin 100) (maxDimensions sample_world) = false /\
  Params.width (params w') = Some (Fin 100) /\
  ~ multiple_of_64 (Params.width (params w')) /\
  warnings (trace w') = [].
Proof.
  vm_compute. repeat split. discriminate.
Qed.

(** ** The model registry *)

Lemma indexOf_some (x : value) (l : list value) :
  forall i, indexOf x l = Some i ->
            exists y, nth_error l i = Some y /\ strict_eq y x = true.
Proof.
  induction l as [|y l IH]; intros i H; simpl in H; [discriminate|].
  destruct (strict_eq y x) eqn:E.
  - inversion H; subst. exists y. auto.
  - destruct (indexOf x l) as [k|]; [|discriminate].
    inversion H; subst. simpl. apply IH. reflexivity.
Qed.

Lemma merge_model_spec (resJSON : list value) (entry : value) (record : IModelData.t) :
  merge_model resJSON entry = Some record ->
  merged_record resJSON entry record.
Proof.
  unfold merge_model. destruct (nullish entry); [discriminate|].
  destruct (includes (prop_opt "name" entry) (map (prop_opt "name") resJSON)) eqn:Ei.
  - destruct (indexOf (prop_opt "name" entry) (map (prop_opt "name") resJSON))
      as [i|] eqn:Ex; simpl; [|discriminate].
    destruct (nth_error resJSON i) as [live|] eqn:En; [|discriminate].
    destruct (nullish live); [discriminate|].
    intros H; inversion H; subst; clear H.
    unfold merged_record; simpl. repeat split. left.
    exists live. split; [eapply nth_error_In; eassumption|].
    apply indexOf_some in Ex as (y & Hy & Hs).
    rewrite nth_error_map, En in Hy. simpl in Hy. inversion Hy; subst.
    repeat split. exact Hs.
  - intros H; inversion H; subst; clear H.
    unfold merged_record; simpl. repeat split. right.
    repeat split. intros el Hin.
    unfold includes in Ei.
    destruct (same_value_zero (prop_opt "name" entry) (prop_opt "name" el)) eqn:Es;
      [|reflexivity].
    exfalso. apply Bool.not_true_iff_false in Ei. apply Ei.
    apply existsb_exists. exists (prop_opt "name" el). split; [|exact Es].
    apply in_map. exact Hin.
Qed.

Lemma merge_models_spec (resJSON : list value) (dbEntries : list value) :
  forall records,
    merge_models resJSON dbEntries = Some records ->
    Forall2 (merged_record resJSON) dbEntries records.
Proof.
  induction dbEntries as [|entry rest IH]; intros records H; simpl in H.
  - inversion H. constructor.
  - destruct (merge_model resJSON entry) as [record|] eqn:E; [|discriminate].
    destruct (merge_models resJSON rest) as [rs|]; [|discriminate].
    inversion H; subst. constructor.
    + apply merge_model_spec. exact E.
    + apply IH. reflexivity.
Qed.

Lemma merged_record_perm (l1 l2 : list value) entry record :
  Permutation l1 l2 ->
  merged_record l1 entry record -> merged_record l2 entry record.
Proof.
  intros P (N & D & S & F & T & H). unfold merged_record.
  repeat (split; [assumption|]).
  destruct H as [(el & I & R)|(A & R)].
  - left. exists el. split; [eapply Permutation_in; eassumption|exact R].
  - right. split; [|exact R]. intros el I. apply A.
    eapply Permutation_in; [apply Permutation_sym|]; eassumption.
Qed.

Lemma updateAvailableModels_merge ext w w' a1 a2 rest live :
  arrivals w = a1 :: a2 :: rest ->
  Arrival.status a1 = 200 ->
  Arrival.body a1 = VArr live ->
  updateAvailableModels ext w = (Returned tt, w') ->
  exists dbEntries,
    db_entries (Arrival.body a2) = Some dbEntries /\
    merge_models (sortByCount ext live) dbEntries = Some (modelsData w') /\
    modelsJSON w' = Arrival.body a2.
Proof.
  intros Ha Hs Hb. unfold updateAvailableModels, fetch. run.
  unfold await. simpl. rewrite Ha. simpl.
  unfold validateResponse. rewrite Hs, Hb. simpl. run.
  destruct (existsb nullish live); [destruct (Arrival.cancel_pressed a1); discriminate|].
  unfold fetch. run. unfold await.
  destruct (Arrival.cancel_pressed a1); simpl;
    (destruct (db_entries (Arrival.body a2)) as [dbs|]; simpl;
     [|destruct (Arrival.cancel_pressed a2); discriminate]);
    (destruct (merge_models (sortByCount ext live) dbs) as [recs|] eqn:Em; simpl;
     [|destruct (Arrival.cancel_pressed a2); discriminate]);
    intros E; exists dbs; (split; [reflexivity|]);
    destruct (Arrival.cancel_pressed a2); inversion E; subst; simpl; auto.
Qed.

Lemma Forall2_names (live dbEntries : list value) (records : list IModelData.t) :
  Forall2 (merged_record live) dbEntries records ->
  map IModelData.name records = map (prop_opt "name") dbEntries.
Proof.
  induction 1 as [|e r es rs H _ IH]; simpl; [reflexivity|].
  destruct H as [N _]. rewrite N, IH. reflexivity.
Qed.

Lemma insert_by_count_perm x l : Permutation (insert_by_count x l) (x :: l).
Proof.
  induction l as [|y l IH]; simpl; [apply Permutation_refl|].
  destruct (count_of y <=? count_of x); [apply Permutation_refl|].
  eapply Permutation_trans; [apply perm_skip; exact IH|apply perm_swap].
Qed.

Lemma sort_by_count_desc_perm l : Permutation (sort_by_count_desc l) l.
Proof.
  induction l as [|x l IH]; simpl; [constructor|].
  eapply Permutation_trans; [apply insert_by_count_perm|].
  apply perm_skip. exact IH.
Qed.

(** C6.  When the model list arrives with status 200, [modelsData] gets one
    record for each entry of the model database, in the order of its keys.
    The record has the name, description, style, nsfw and type of the
    database entry; when the name is in the live list it carries the count,
    performance, eta and queued of a live entry of that name, and otherwise
    queued 0, eta [Infinity], count 0 and performance 0. *)
Theorem updateAvailableModels_merges_database :
  forall (ext : Outside) (w w' : World) (a1 a2 : Arrival.t)
         (rest : list Arrival.t) (live : list value),
    (forall l, Permutation (sortByCount ext l) l) ->
    arrivals w = a1 :: a2 :: rest ->
    Arrival.status a1 = 200 ->
    Arrival.body a1 = VArr live ->
    updateAvailableModels ext w = (Returned tt, w') ->
    exists dbEntries,
      db_entries (Arrival.body a2) = Some dbEntries /\
      Forall2 (merged_record live) dbEntries (modelsData w') /\
      map IModelData.name (modelsData w') = map (prop_opt "name") dbEntries.
Proof.
  intros ext w w' a1 a2 rest live Hp Ha Hs Hb E.
  destruct (updateAvailableModels_merge ext w w' a1 a2 rest live Ha Hs Hb E)
    as (dbs & Hd & Hm & _).
  exists dbs. split; [exact Hd|].
  assert (F : Forall2 (merged_record live) dbs (modelsData w')).
  { apply merge_models_spec in Hm.
    eapply Forall2_impl; [|exact Hm].
    intros entry record. apply merged_record_perm. apply Hp. }
  split; [exact F|]. eapply Forall2_names. exact F.
Qed.

Lemma updateAvailableModels_merges_database_witness :
  let w := set_arrivals [reply 200 (VArr sample_live); reply 200 sample_db]
             sample_world in
  exists w' dbEntries,
    updateAvailableModels sample_outside w = (Returned tt, w') /\
    Forall2 (merged_record sample_live) dbEntries (modelsData w') /\
    map IModelData.name (modelsData w') =
      [VStr "stable_diffusion"; VStr "waifu_diffusion"] /\
    map IModelData.count (modelsData w') = [VNum (Fin 12); VNum (Fin 0)].
Proof.
  intros w.
  destruct (updateAvailableModels_merges_database sample_outside w
              (snd (updateAvailableModels sample_outside w))
              (reply 200 (VArr sample_live)) (reply 200 sample_db) []
              sample_live sort_by_count_desc_perm eq_refl eq_refl eq_refl
              eq_refl)
    as (dbEntries & _ & F & _).
  exists (snd (updateAvailableModels sample_outside w)), dbEntries.
  split; [reflexivity|]. split; [exact F|]. split; reflexivity.
Defined.

(** ** The negative prompt library *)

Lemma existsb_eqb_In (p : string) (l : list string) :
  existsb (String.eqb p) l = true <-> In p l.
Proof.
  rewrite existsb_exists. split.
  - intros (x & I & E). apply String.eqb_eq in E. subst. exact I.
  - intros I. exists p. split; [exact I|apply String.eqb_refl].
Qed.

Lemma push_present (p : string) (l : list string) :
  In p l -> pushToNegativeLibrary p l = l.
Proof.
  intros I. unfold pushToNegativeLibrary.
  apply existsb_eqb_In in I. rewrite I. reflexivity.
Qed.

Lemma push_absent (p : string) (l : list string) :
  ~ In p l -> pushToNegativeLibrary p l = (l ++ [p])%list.
Proof.
  intros I. unfold pushToNegativeLibrary.
  destruct (existsb (String.eqb p) l) eqn:E; [|reflexivity].
  apply existsb_eqb_In in E. contradiction.
Qed.

Lemma push_In (p : string) (l : list string) :
  In p (pushToNegativeLibrary p l).
Proof.
  destruct (in_dec string_dec p l) as [I|I].
  - rewrite push_present; assumption.
  - rewrite push_absent by assumption. apply in_or_app. right. now left.
Qed.

Lemma push_NoDup (p : string) (l : list string) :
  NoDup l -> NoDup (pushToNegativeLibrary p l).
Proof.
  intros N. destruct (in_dec string_dec p l) as [I|I].
  - rewrite push_present; assumption.
  - rewrite push_absent by assumption.
    apply NoDup_app; [exact N|repeat constructor; intros []|].
    intros x Ix [E|[]]. subst. contradiction.
Qed.

Lemma remove_In (p q : string) (l : list string) :
  In q (removeFromNegativeLibrary p l) <-> In q l /\ q <> p.
Proof.
  unfold removeFromNegativeLibrary. rewrite filter_In.
  rewrite Bool.negb_true_iff, String.eqb_neq. reflexivity.
Qed.

Lemma remove_NoDup (p : string) (l : list string) :
  NoDup l -> NoDup (removeFromNegativeLibrary p l).
Proof. apply NoDup_filter. Qed.

Lemma remove_absent (p : string) (l : list string) :
  ~ In p l -> removeFromNegativeLibrary p l = l.
Proof.
  intros I. unfold removeFromNegativeLibrary.
  induction l as [|x l IH]; simpl; [reflexivity|].
  destruct (String.eqb x p) eqn:E; simpl.
  - apply String.eqb_eq in E. subst. exfalso. apply I. now left.
  - rewrite IH; [reflexivity|]. intros J. apply I. now right.
Qed.

Lemma remove_app (p : string) (a b : list string) :
  removeFromNegativeLibrary p (a ++ b) =
  (removeFromNegativeLibrary p a ++ removeFromNegativeLibrary p b)%list.
Proof. apply filter_app. Qed.

(** X1.  The negative prompt library never holds a prompt twice: whatever
    sequence of [pushToNegativeLibrary] and [removeFromNegativeLibrary]
    calls is applied to the empty library, the result has no duplicates. *)
Theorem negative_library_has_no_duplicates :
  forall (history : list library_action),
    NoDup (fold_left act_on_library history []).
Proof.
  intros history.
  assert (G : forall l, NoDup l -> NoDup (fold_left act_on_library history l)).
  { induction history as [|a h IH]; intros l N; simpl; [exact N|].
    apply IH. destruct a; simpl; [apply push_NoDup|apply remove_NoDup]; exact N. }
  apply G. constructor.
Qed.

(** X2.  Pushing a prompt that the library does not hold and removing it
    again gives the library back as it was. *)
Theorem push_then_remove :
  forall (p : string) (library : list string),
    ~ In p library ->
    removeFromNegativeLibrary p (pushToNegativeLibrary p library) = library.
Proof.
  intros p l I. rewrite push_absent by assumption.
  rewrite remove_app, remove_absent by assumption.
  unfold removeFromNegativeLibrary. simpl. rewrite String.eqb_refl. simpl.
  apply app_nil_r.
Qed.

Lemma push_then_remove_witness :
  removeFromNegativeLibrary "blurry"
    (pushToNegativeLibrary "blurry" ["ugly"; "text"]) = ["ugly"; "text"].
Proof.
  apply (push_then_remove "blurry" ["ugly"; "text"]).
  intros [H|[H|[]]]; discriminate.
Defined.

(** X3.  After [pushToNegativeLibrary] the prompt is in the library; the
    library is the old one followed by nothing or by the prompt alone; a
    second push changes nothing; and the number of occurrences of the
    prompt is the old number, or one if there was none. *)
Theorem push_adds_once_at_the_end :
  forall (p : string) (library : list string),
    In p (pushToNegativeLibrary p library) /\
    (exists tail, pushToNegativeLibrary p library = (library ++ tail)%list /\
                  (tail = [] \/ tail = [p])) /\
    pushToNegativeLibrary p (pushToNegativeLibrary p library)
      = pushToNegativeLibrary p library /\
    count_occ string_dec (pushToNegativeLibrary p library) p
      = Nat.max 1 (count_occ string_dec library p).
Proof.
  intros p l. split; [apply push_In|]. split; [|split].
  - destruct (in_dec string_dec p l) as [I|I].
    + exists []. rewrite push_present, app_nil_r by assumption. auto.
    + exists [p]. rewrite push_absent by assumption. auto.
  - apply push_present. apply push_In.
  - destruct (in_dec string_dec p l) as [I|I].
    + rewrite push_present by assumption.
      apply (count_occ_In string_dec) in I. lia.
    + rewrite push_absent by assumption.
      rewrite count_occ_app. simpl.
      destruct (string_dec p p) as [_|N]; [|contradiction].
      apply (count_occ_not_In string_dec) in I. rewrite I. reflexivity.
Qed.

(** X4.  [removeFromNegativeLibrary] drops every occurrence of the
    prompt, leaves the number of occurrences of every other prompt as it
    was, and a second removal changes nothing. *)
Theorem remove_drops_every_occurrence :
  forall (p : string) (library : list string),
    ~ In p (removeFromNegativeLibrary p library) /\
    (forall q, q <> p ->
               count_occ string_dec (removeFromNegativeLibrary p library) q
               = count_occ string_dec library q) /\
    removeFromNegativeLibrary p (removeFromNegativeLibrary p library)
      = removeFromNegativeLibrary p library.
Proof.
  intros p l. split; [|split].
  - intros I. apply remove_In in I. destruct I as [_ N]. now apply N.
  - intros q N. unfold removeFromNegativeLibrary.
    induction l as [|x l IH]; simpl; [reflexivity|].
    destruct (String.eqb x p) eqn:E; simpl.
    + apply String.eqb_eq in E. subst x.
      destruct (string_dec p q) as [E|_]; [congruence|exact IH].
    + destruct (string_dec x q); rewrite IH; reflexivity.
  - apply remove_absent. intros I. apply remove_In in I. destruct I as [_ N].
    now apply N.
Qed.

(** ** Loading a gallery entry *)

Section Transforms.
Context {O : Type} (obs : World -> O).

Lemma transforms_seq m k F G :
  transforms obs m F -> transforms obs k G ->
  transforms obs (m ;;; k) (fun o => G (F o)).
Proof.
  intros Hm Hk w. destruct (Hm w) as (w1 & E1 & R1).
  destruct (Hk w1) as (w2 & E2 & R2).
  exists w2. unfold bind. rewrite E1. split; [exact E2|].
  rewrite R2, R1. reflexivity.
Qed.

Lemma transforms_ext m F G :
  (forall o, F o = G o) -> transforms obs m F -> transforms obs m G.
Proof.
  intros H Hm w. destruct (Hm w) as (w' & E & R). exists w'.
  split; [exact E|]. rewrite R. apply H.
Qed.

Lemma transforms_modify f :
  (forall w, obs (f w) = obs w) -> transforms obs (modify f) (fun o => o).
Proof. intros H w. exists (f w). split; [reflexivity|apply H]. Qed.

Lemma transforms_modify_params g :
  (forall w, obs (set_params (g (params w)) w) = obs w) ->
  transforms obs (modify_params g) (fun o => o).
Proof. intros H w. eexists. split; [reflexivity|apply H]. Qed.

Lemma transforms_emit e :
  (forall w, obs (set_trace (trace w ++ [e]) w) = obs w) ->
  transforms obs (emit e) (fun o => o).
Proof. intros H w. eexists. split; [reflexivity|apply H]. Qed.

Lemma transforms_when b m :
  transforms obs m (fun o => o) -> transforms obs (when b m) (fun o => o).
Proof.
  intros H. destruct b; simpl; [exact H|].
  intros w. exists w. split; reflexivity.
Qed.

Lemma transforms_validated (cap : World -> num) name v d
    (set : option num -> Params.t -> Params.t) :
  (forall w x, obs (set_params (set x (params w)) w) = obs w) ->
  (forall w msg, obs (set_trace (trace w ++ [RaiseWarning msg]) w) = obs w) ->
  transforms obs
    (c <- gets cap ;; x <- validateParam name v c d ;;
     modify_params (set x))
    (fun o => o).
Proof.
  intros Hp Ht. intros w.
  unfold validateParam. run. destruct (num_gt v (cap w)); run.
  - eexists. split; [reflexivity|].
    match goal with
    | |- obs (set_params (set ?x (params ?u)) ?u) = _ =>
        rewrite (Hp u x)
    end. apply Ht.
  - eexists. split; [reflexivity|]. apply Hp.
Qed.

End Transforms.

Ltac still :=
  cbv zeta;
  repeat first
    [ apply transforms_when
    | apply transforms_modify_params; intros; reflexivity
    | apply transforms_validated;
        [intros; reflexivity
        |intros; unfold job_state; simpl;
         rewrite ?requests_app, ?errors_app; simpl; rewrite ?app_nil_r;
         reflexivity]
    | apply transforms_modify; intros; reflexivity
    | apply transforms_emit; intros; unfold job_state; simpl;
        rewrite ?requests_app, ?errors_app; simpl; rewrite ?app_nil_r;
        reflexivity
    | apply (transforms_seq _ _ _ (fun o => o) (fun o => o)) ].

Lemma generateText2Img_job_state data :
  transforms job_state (generateText2Img data) (fun o => o).
Proof. unfold generateText2Img. still. Qed.

Lemma transforms_prompt_block data :
  transforms prompts
    (when (str_truthy (ImageData.prompt data))
       (let splitPrompt :=
          split " ### " (match ImageData.prompt data with
                         | Some p => p
                         | None => ""
                         end) in
        modify (set_prompt (nth 0 splitPrompt "")) ;;;
        modify (set_negativePrompt (nth 1 splitPrompt ""))))
    (prompts_of_entry data).
Proof.
  intros w. unfold prompts_of_entry, str_truthy.
  destruct (ImageData.prompt data) as [p|]; simpl.
  - destruct (String.eqb p ""); simpl; eexists; split; reflexivity.
  - eexists; split; reflexivity.
Qed.

Lemma generateText2Img_prompts data :
  transforms prompts (generateText2Img data) (prompts_of_entry data).
Proof.
  unfold generateText2Img.
  eapply transforms_ext; cycle 1.
  - eapply transforms_seq; [still|].
    eapply transforms_seq; [still|].
    eapply transforms_seq; [still|].
    eapply transforms_seq; [still|].
    eapply transforms_seq; [apply transforms_prompt_block|].
    still.
  - intros o. reflexivity.
Qed.

(** *** The prompts *)

Lemma append_empty_r (s : string) : s ++ "" = s.
Proof. induction s as [|c s IH]; simpl; [reflexivity|]. rewrite IH. reflexivity. Qed.

Lemma append_cons_assoc (a : string) (c : ascii) (b : string) :
  (a ++ String c "") ++ b = a ++ String c b.
Proof. induction a as [|d a IH]; simpl; [reflexivity|]. rewrite IH. reflexivity. Qed.

Lemma separator_needs_hash (c d : ascii) (r : string) :
  d <> "#"%char -> String.prefix " ### " (String c (String d r)) = false.
Proof.
  intros N. cbn [String.prefix].
  destruct (Ascii.ascii_dec " " c); [|reflexivity].
  destruct (Ascii.ascii_dec "#" d) as [E|]; [|reflexivity].
  symmetry in E. contradiction.
Qed.

Lemma separator_needs_length (c : ascii) :
  String.prefix " ### " (String c "") = false.
Proof. cbn [String.prefix]. destruct (Ascii.ascii_dec " " c); reflexivity. Qed.

Lemma no_hash_head (c : ascii) (r : string) :
  no_hash (String c r) = true -> c <> "#"%char /\ no_hash r = true.
Proof.
  simpl. intros H. apply Bool.andb_true_iff in H as [H1 H2].
  split; [|exact H2]. apply Bool.negb_true_iff in H1.
  apply Ascii.eqb_neq. exact H1.
Qed.

Lemma split_plain (s : string) :
  no_hash s = true ->
  forall cur, split_from " ### " 0 cur s = [cur ++ s].
Proof.
  induction s as [|c r IH]; intros H cur.
  - simpl. rewrite append_empty_r. reflexivity.
  - apply no_hash_head in H as [Hc Hr].
    assert (P : String.prefix " ### " (String c r) = false).
    { destruct r as [|d r'].
      - apply separator_needs_length.
      - apply separator_needs_hash. apply no_hash_head in Hr. tauto. }
    cbn [split_from]. rewrite P. rewrite (IH Hr).
    rewrite append_cons_assoc. reflexivity.
Qed.

Lemma prefix_append (a b : string) : String.prefix a (a ++ b) = true.
Proof.
  induction a as [|c a IH]; [destruct b; reflexivity|].
  cbn [String.prefix append]. destruct (Ascii.ascii_dec c c); [exact IH|contradiction].
Qed.

Lemma split_at_separator (cur n : string) :
  split_from " ### " 0 cur (" ### " ++ n) = cur :: split_from " ### " 0 "" n.
Proof.
  change ((" ### " ++ n)%string) with (String " " ("### " ++ n)).
  cbn [split_from].
  change (String " " ("### " ++ n)) with ((" ### " ++ n)%string).
  rewrite prefix_append. reflexivity.
Qed.

Lemma split_joined (p : string) :
  no_hash p = true ->
  forall cur n,
    split_from " ### " 0 cur (p ++ " ### " ++ n) =
    (cur ++ p) :: split_from " ### " 0 "" n.
Proof.
  induction p as [|c r IH]; intros H cur n.
  - rewrite append_empty_r. apply split_at_separator.
  - apply no_hash_head in H as [Hc Hr].
    assert (P : String.prefix " ### " (String c (r ++ " ### " ++ n)) = false).
    { destruct r as [|d r'].
      - simpl (("" ++ " ### " ++ n)%string).
        apply separator_needs_hash. discriminate.
      - simpl ((String d r' ++ " ### " ++ n)%string).
        apply separator_needs_hash. apply no_hash_head in Hr. tauto. }
    change ((String c r ++ " ### " ++ n)%string)
      with (String c (r ++ " ### " ++ n)).
    cbn [split_from]. rewrite P. rewrite (IH Hr).
    rewrite append_cons_assoc. reflexivity.
Qed.

Lemma split_full_prompt (w : World) :
  no_hash (prompt w) = true ->
  no_hash (negativePrompt w) = true ->
  nth 0 (split " ### " (getFullPrompt w)) "" = prompt w /\
  nth 1 (split " ### " (getFullPrompt w)) "" = negativePrompt w.
Proof.
  intros Hp Hn. unfold getFullPrompt, split.
  destruct (String.eqb (negativePrompt w) "") eqn:E.
  - apply String.eqb_eq in E. rewrite split_plain by assumption.
    simpl. rewrite E. auto.
  - rewrite split_joined by assumption.
    rewrite split_plain by assumption. simpl. auto.
Qed.

(** X5.  The prompts survive the gallery.  For a request whose prompt is
    not empty and whose two prompts hold no [#]: [generateText2Img] on the
    gallery entry of that request, in any state of the form, returns and
    sets the prompt and the negative prompt to the two the request was made
    from. *)
Theorem prompts_survive_the_gallery :
  forall (w w0 : World) (newID : num) (el : value)
         (src : option string * option string * option SourceProcessing)
         (model : list value),
    prompt w <> "" ->
    no_hash (prompt w) = true ->
    no_hash (negativePrompt w) = true ->
    let entry := gallery_entry newID (FinalImage.mk el (cacheParams src model w)) in
    exists w',
      generateText2Img entry w0 = (Returned tt, w') /\
      prompt w' = prompt w /\
      negativePrompt w' = negativePrompt w.
Proof.
  intros w w0 newID el src model Hne Hp Hn entry.
  destruct (generateText2Img_prompts entry w0) as (w' & E & R).
  exists w'. split; [exact E|].
  unfold prompts, prompts_of_entry in R.
  assert (Pe : ImageData.prompt entry = Some (getFullPrompt w)).
  { subst entry. destruct src as [[a b] c]. reflexivity. }
  rewrite Pe in R.
  assert (Ne : String.eqb (getFullPrompt w) "" = false).
  { apply String.eqb_neq. unfold getFullPrompt.
    destruct (String.eqb (negativePrompt w) ""); [exact Hne|].
    destruct (prompt w); [contradiction|discriminate]. }
  rewrite Ne in R. simpl in R.
  destruct (split_full_prompt w Hp Hn) as [S0 S1].
  rewrite S0, S1 in R. inversion R. auto.
Qed.

Lemma prompts_survive_the_gallery_witness :
  let w := set_negativePrompt "blurry" sample_world in
  let entry := gallery_entry (Fin 0)
                 (FinalImage.mk (VObj []) (cacheParams (None, None, None) [] w)) in
  ImageData.prompt entry = Some "cat ### blurry" /\
  exists w',
    generateText2Img entry sample_world = (Returned tt, w') /\
    prompt w' = "cat" /\
    negativePrompt w' = "blurry".
Proof.
  split; [reflexivity|].
  apply (prompts_survive_the_gallery
           (set_negativePrompt "blurry" sample_world) sample_world (Fin 0)
           (VObj []) (None, None, None) []).
  - discriminate.
  - reflexivity.
  - reflexivity.
Defined.

(** *** The parameter round trip *)

Lemma transforms_when_modify {O : Type} (obs : World -> O) b f G :
  (forall w, obs (f w) = G (obs w)) ->
  transforms obs (when b (modify f)) (fun o => if b then G o else o).
Proof.
  intros H w. destruct b; simpl.
  - exists (f w). split; [reflexivity|apply H].
  - exists w. split; reflexivity.
Qed.

Lemma transforms_when_modify_params {O : Type} (obs : World -> O) b g G :
  (forall w, obs (set_params (g (params w)) w) = G (obs w)) ->
  transforms obs (when b (modify_params g)) (fun o => if b then G o else o).
Proof.
  intros H w. destruct b; simpl.
  - eexists. split; [reflexivity|apply H].
  - exists w. split; reflexivity.
Qed.

Ltac still_settings :=
  cbv zeta;
  repeat first
    [ apply transforms_when
    | apply transforms_modify_params; intros; reflexivity
    | apply transforms_validated; intros; reflexivity
    | apply transforms_modify; intros; reflexivity
    | apply transforms_emit; intros; reflexivity
    | apply (transforms_seq _ _ _ (fun o => o) (fun o => o)) ].

Lemma generateText2Img_settings data :
  transforms settings (generateText2Img data) (settings_of_entry data).
Proof.
  unfold generateText2Img.
  eapply transforms_ext; cycle 1.
  - eapply transforms_seq; [still_settings|].
    eapply transforms_seq; [still_settings|].
    eapply transforms_seq; [still_settings|].
    eapply transforms_seq; [still_settings|].
    eapply transforms_seq; [still_settings|].
    eapply transforms_seq;
      [apply (transforms_when_modify_params settings _ _
                (fun o => (ImageData.sampler_name data, snd (fst (fst o)),
                           snd (fst o), snd o)));
       intros w; reflexivity|].
    eapply transforms_seq; [still_settings|].
    eapply transforms_seq;
      [apply (transforms_when_modify_params settings _ _
                (fun o => (fst (fst (fst o)), ImageData.cfg_scale data,
                           snd (fst o), snd o)));
       intros w; reflexivity|].
    eapply transforms_seq; [still_settings|].
    eapply transforms_seq; [still_settings|].
    eapply transforms_seq; [still_settings|].
    eapply transforms_seq;
      [apply (transforms_when_modify_params settings _ _
                (fun o => (fst (fst (fst o)), snd (fst (fst o)),
                           ImageData.karras data, snd o)));
       intros w; reflexivity|].
    eapply transforms_seq;
      [apply (transforms_when_modify settings _ _
                (fun o => (fst (fst (fst o)), snd (fst (fst o)), snd (fst o),
                           match ImageData.post_processing data with
                           | Some l => l
                           | None => []
                           end)));
       intros w; reflexivity|].
    still_settings.
  - intros [[[s c] k] pp]. unfold settings_of_entry. simpl.
    destruct (str_truthy (ImageData.sampler_name data));
      destruct (opt_num_truthy (ImageData.cfg_scale data));
      destruct (ImageData.karras data) as [[|]|];
      destruct (ImageData.post_processing data); reflexivity.
Qed.

Lemma run_unique {A : Type} (m : M A) (w : World) (a b : A) (w1 w2 : World) :
  m w = (Returned a, w1) -> m w = (Returned b, w2) -> w1 = w2.
Proof. intros E1 E2. rewrite E1 in E2. inversion E2. reflexivity. Qed.

Lemma scaled_plain (x : num) : scaled (Some x) false = x.
Proof. destruct x as [z| |]; simpl; [rewrite Z.mul_1_r|..]; reflexivity. Qed.

(** X6.  The settings survive the gallery.  [generateText2Img] on an entry
    made from the request of the form [w] always returns; it restores the
    post-processors of [w]; the sampler and the CFG scale when they are
    truthy; the steps when they are truthy and within the cap; without the
    upscaler the width and height likewise; [karras] is set when it was
    [true] and otherwise keeps the value of the form the entry is loaded
    into. *)
Theorem settings_survive_the_gallery :
  forall (w w0 : World) (newID : num) (el : value)
         (src : option string * option string * option SourceProcessing)
         (model : list value),
    let entry := gallery_entry newID (FinalImage.mk el (cacheParams src model w)) in
    exists w',
      generateText2Img entry w0 = (Returned tt, w') /\
      postProcessors w' = postProcessors w /\
      (str_truthy (Params.sampler_name (params w)) = true ->
       Params.sampler_name (params w') = Params.sampler_name (params w)) /\
      (opt_num_truthy (Params.cfg_scale (params w)) = true ->
       Params.cfg_scale (params w') = Params.cfg_scale (params w)) /\
      (forall s, Params.steps (params w) = Some s -> num_truthy s = true ->
                 num_gt s (maxSteps w0) = false ->
                 Params.steps (params w') = Some s) /\
      (existsb (String.eqb "RealESRGAN_x4plus") (postProcessors w) = false ->
       (forall x, Params.width (params w) = Some x -> num_truthy x = true ->
                  num_gt x (maxDimensions w0) = false ->
                  Params.width (params w') = Some x) /\
       (forall y, Params.height (params w) = Some y -> num_truthy y = true ->
                  num_gt y (maxDimensions w0) = false ->
                  Params.height (params w') = Some y)) /\
      (Params.karras (params w) = Some true ->
       Params.karras (params w') = Some true) /\
      (Params.karras (params w) <> Some true ->
       Params.karras (params w') = Params.karras (params w0)).
Proof.
  intros w w0 newID el src model entry.
  destruct (generateText2Img_settings entry w0) as (w' & E & R).
  destruct (generateText2Img_ranges entry w0) as (w2 & E2 & R2).
  pose proof (run_unique _ _ _ _ _ _ E2 E) as U. subst w2.
  exists w'. split; [exact E|].
  assert (Es : ImageData.sampler_name entry = Params.sampler_name (params w))
    by (subst entry; destruct src as [[? ?] ?]; reflexivity).
  assert (Ec : ImageData.cfg_scale entry = Params.cfg_scale (params w))
    by (subst entry; destruct src as [[? ?] ?]; reflexivity).
  assert (Ek : ImageData.karras entry = Params.karras (params w))
    by (subst entry; destruct src as [[? ?] ?]; reflexivity).
  assert (Ep : ImageData.post_processing entry = Some (postProcessors w))
    by (subst entry; destruct src as [[? ?] ?]; reflexivity).
  assert (Et : ImageData.steps entry = Params.steps (params w))
    by (subst entry; destruct src as [[? ?] ?]; reflexivity).
  assert (Ex : ImageData.width entry =
               Some (scaled (Params.width (params w))
                       (existsb (String.eqb "RealESRGAN_x4plus") (postProcessors w))))
    by (subst entry; destruct src as [[? ?] ?]; reflexivity).
  assert (Ey : ImageData.height entry =
               Some (scaled (Params.height (params w))
                       (existsb (String.eqb "RealESRGAN_x4plus") (postProcessors w))))
    by (subst entry; destruct src as [[? ?] ?]; reflexivity).
  unfold settings, settings_of_entry in R. rewrite Es, Ec, Ek, Ep in R.
  pose proof (f_equal (fun o => fst (fst (fst o))) R) as Rs.
  pose proof (f_equal (fun o => snd (fst (fst o))) R) as Rc.
  pose proof (f_equal (fun o => snd (fst o)) R) as Rk.
  pose proof (f_equal snd R) as Rp.
  cbn [fst snd] in Rs, Rc, Rk, Rp. clear R.
  assert (Qs : r_steps (ranges_of w') = r_steps (text2img_ranges entry (ranges_of w0)))
    by (rewrite R2; reflexivity).
  assert (Qx : r_width (ranges_of w') = r_width (text2img_ranges entry (ranges_of w0)))
    by (rewrite R2; reflexivity).
  assert (Qy : r_height (ranges_of w') = r_height (text2img_ranges entry (ranges_of w0)))
    by (rewrite R2; reflexivity).
  cbn [ranges_of text2img_ranges r_steps r_width r_height r_options] in Qs, Qx, Qy.
  change (cap_steps (options w0)) with (maxSteps w0) in *.
  change (cap_dimensions (options w0)) with (maxDimensions w0) in *.
  rewrite Et in Qs. rewrite Ex in Qx. rewrite Ey in Qy.
  split; [exact Rp|].
  split; [intros T; rewrite Rs, T; reflexivity|].
  split; [intros T; rewrite Rc, T; reflexivity|].
  split; [intros s Hs Ts Gs; rewrite Qs, Hs, validated_within; auto|].
  split.
  { intros U. rewrite U in Qx, Qy. split.
    - intros x Hx Tx Gx. rewrite Hx, scaled_plain in Qx.
      rewrite Qx, validated_within; auto.
    - intros y Hy Ty Gy. rewrite Hy, scaled_plain in Qy.
      rewrite Qy, validated_within; auto. }
  split.
  - intros K. rewrite Rk, K. reflexivity.
  - intros K. rewrite Rk. destruct (Params.karras (params w)) as [[|]|];
      [contradiction|reflexivity|reflexivity].
Qed.

Lemma settings_survive_the_gallery_witness :
  let w := set_params (Params.set_steps (Some (Fin 45)) getDefaultStore)
             sample_world in
  let entry := gallery_entry (Fin 0)
                 (FinalImage.mk (VObj []) (cacheParams (None, None, None) [] w)) in
  exists w',
    generateText2Img entry sample_world = (Returned tt, w') /\
    Params.steps (params w') = Some (Fin 45) /\
    Params.sampler_name (params w') = Some "k_euler" /\
    Params.width (params w') = Some (Fin 512).
Proof.
  intros w entry.
  destruct (settings_survive_the_gallery w sample_world (Fin 0) (VObj [])
              (None, None, None) [])
    as (w' & E & _ & Hs & _ & Ht & Hd & _).
  exists w'. split; [exact E|].
  split; [exact (Ht (Fin 45) eq_refl eq_refl eq_refl)|].
  split; [exact (Hs eq_refl)|].
  exact (proj1 (Hd eq_refl) (Fin 512) eq_refl eq_refl eq_refl).
Defined.

Lemma scaled_multiple (o : option num) (b : bool) :
  multiple_of_64 o -> multiple_of_64 (Some (scaled o b)).
Proof.
  destruct o as [[z| |]|]; simpl; try contradiction.
  intros H. destruct b.
  - rewrite Z.mul_comm. rewrite Z.mul_mod by lia. rewrite H. reflexivity.
  - rewrite Z.mul_1_r. exact H.
Qed.

(** X7.  Dimensions that are multiples of 64 stay so through the gallery:
    the entry of a request with such a width and height has such a width
    and height, upscaled or not, and loading it into a form whose
    dimensions are multiples of 64 leaves them multiples of 64. *)
Theorem multiples_of_64_survive_the_gallery :
  forall (w w0 : World) (newID : num) (el : value)
         (src : option string * option string * option SourceProcessing)
         (model : list value),
    multiple_of_64 (Params.width (params w)) ->
    multiple_of_64 (Params.height (params w)) ->
    multiple_of_64 (Params.width (params w0)) ->
    multiple_of_64 (Params.height (params w0)) ->
    let entry := gallery_entry newID (FinalImage.mk el (cacheParams src model w)) in
    multiple_of_64 (ImageData.width entry) /\
    multiple_of_64 (ImageData.height entry) /\
    exists w',
      generateText2Img entry w0 = (Returned tt, w') /\
      multiple_of_64 (Params.width (params w')) /\
      multiple_of_64 (Params.height (params w')).
Proof.
  intros w w0 newID el src model Hx Hy Hx0 Hy0 entry.
  assert (Mx : multiple_of_64 (ImageData.width entry)).
  { subst entry. destruct src as [[? ?] ?].
    apply (scaled_multiple (Params.width (params w))). exact Hx. }
  assert (My : multiple_of_64 (ImageData.height entry)).
  { subst entry. destruct src as [[? ?] ?].
    apply (scaled_multiple (Params.height (params w))). exact Hy. }
  split; [exact Mx|]. split; [exact My|].
  destruct (generateText2Img_ranges entry w0) as (w' & E & R).
  exists w'. split; [exact E|].
  assert (Qx : r_width (ranges_of w') = r_width (text2img_ranges entry (ranges_of w0)))
    by (rewrite R; reflexivity).
  assert (Qy : r_height (ranges_of w') = r_height (text2img_ranges entry (ranges_of w0)))
    by (rewrite R; reflexivity).
  cbn [ranges_of text2img_ranges r_width r_height r_options] in Qx, Qy.
  split.
  - rewrite Qx. apply validated_multiple; [exact Hx0|].
    intros v Hv _. rewrite <- Hv. exact Mx.
  - rewrite Qy. apply validated_multiple; [exact Hy0|].
    intros v Hv _. rewrite <- Hv. exact My.
Qed.

Lemma multiples_of_64_survive_the_gallery_witness :
  let w := set_postProcessors ["RealESRGAN_x4plus"] sample_world in
  let entry := gallery_entry (Fin 0)
                 (FinalImage.mk (VObj []) (cacheParams (None, None, None) [] w)) in
  ImageData.width entry = Some (Fin 2048) /\
  exists w',
    generateText2Img entry sample_world = (Returned tt, w') /\
    multiple_of_64 (Params.width (params w')) /\
    multiple_of_64 (Params.height (params w')).
Proof.
  intros w entry. split; [reflexivity|].
  exact (proj2 (proj2
           (multiples_of_64_survive_the_gallery w sample_world (Fin 0)
              (VObj []) (None, None, None) []
              eq_refl eq_refl eq_refl eq_refl))).
Defined.

(** X8.  An upscaled entry is validated at its output size.  Under
    [RealESRGAN_x4plus] the entry carries four times the requested width,
    so a requested width (of at most 2^51) whose fourfold exceeds the cap
    comes back as the default 512 with a warning that names the fourfold,
    although the request itself may have been within the cap. *)
Theorem upscaled_entry_is_capped_at_its_output_size :
  forall (w w0 : World) (newID : num) (el : value)
         (src : option string * option string * option SourceProcessing)
         (model : list value) (z : Z),
    existsb (String.eqb "RealESRGAN_x4plus") (postProcessors w) = true ->
    Params.width (params w) = Some (Fin z) ->
    z <= 2 ^ 51 ->
    num_gt (Fin (z * 4)) (maxDimensions w0) = true ->
    let entry := gallery_entry newID (FinalImage.mk el (cacheParams src model w)) in
    exists w',
      generateText2Img entry w0 = (Returned tt, w') /\
      Params.width (params w') = Some (Fin 512) /\
      In (warning_text "width" (Fin (z * 4))) (warnings (trace w')).
Proof.
  intros w w0 newID el src model z U Hx _ G entry.
  destruct (generateText2Img_ranges entry w0) as (w' & E & R).
  exists w'. split; [exact E|].
  assert (Ex : ImageData.width entry =
               Some (scaled (Params.width (params w))
                       (existsb (String.eqb "RealESRGAN_x4plus") (postProcessors w))))
    by (subst entry; destruct src as [[? ?] ?]; reflexivity).
  rewrite U, Hx in Ex. cbn [scaled num_scale] in Ex.
  assert (Qx : r_width (ranges_of w') = r_width (text2img_ranges entry (ranges_of w0)))
    by (rewrite R; reflexivity).
  assert (Qw : r_warnings (ranges_of w') = r_warnings (text2img_ranges entry (ranges_of w0)))
    by (rewrite R; reflexivity).
  cbn [ranges_of text2img_ranges r_width r_warnings r_options] in Qx, Qw.
  change (cap_dimensions (options w0)) with (maxDimensions w0) in *.
  assert (T : num_truthy (Fin (z * 4)) = true).
  { apply (above_cap_truthy _ (options w0)). right. exact G. }
  rewrite Ex in Qx, Qw. rewrite (validated_above "width") in Qx, Qw by assumption.
  split; [exact Qx|]. rewrite Qw.
  apply in_or_app. right. apply in_or_app. right. apply in_or_app. left.
  simpl. now left.
Qed.

Lemma upscaled_entry_is_capped_at_its_output_size_witness :
  let w := set_postProcessors ["RealESRGAN_x4plus"] sample_world in
  let entry := gallery_entry (Fin 0)
                 (FinalImage.mk (VObj []) (cacheParams (None, None, None) [] w)) in
  exists w',
    generateText2Img entry sample_world = (Returned tt, w') /\
    Params.width (params w') = Some (Fin 512) /\
    In (warning_text "width" (Fin 2048)) (warnings (trace w')).
Proof.
  intros w entry.
  apply (upscaled_entry_is_capped_at_its_output_size w sample_world (Fin 0)
           (VObj []) (None, None, None) [] 512); try reflexivity.
  discriminate.
Defined.

(** X9.  [generateText2Img] always returns, and it leaves the queue, the
    [generating] and [cancelled] flags, the images and the outputs as they
    were, sends no request and raises no error. *)
Theorem generateText2Img_leaves_the_jobs_alone :
  forall (data : ImageData.t) (w : World),
  exists w',
    generateText2Img data w = (Returned tt, w') /\
    queue w' = queue w /\
    generating w' = generating w /\
    cancelled w' = cancelled w /\
    images w' = images w /\
    outputs w' = outputs w /\
    requests (trace w') = requests (trace w) /\
    errors (trace w') = errors (trace w).
Proof.
  intros data w.
  destruct (generateText2Img_job_state data w) as (w' & E & R).
  exists w'. split; [exact E|].
  unfold job_state in R. inversion R. repeat split; assumption.
Qed.

(** ** The offered models *)

Lemma filter_throwing_spec p l kept :
  filter_throwing p l = Some kept ->
  kept = filter (fun el => match p el with Some true => true | _ => false end) l /\
  Forall (fun el => p el <> None) l.
Proof.
  revert kept. induction l as [|el l IH]; intros kept H; simpl in H.
  - inversion H. split; [reflexivity|constructor].
  - destruct (p el) as [b|] eqn:E; [|discriminate].
    destruct (filter_throwing p l) as [k|]; [|discriminate].
    destruct (IH k eq_refl) as [K F]. inversion H; subst kept. split.
    + simpl. rewrite E. destruct b; rewrite <- K; reflexivity.
    + constructor; [congruence|exact F].
Qed.

Lemma filter_for_sublist type all filtered :
  filter_for type all = Some filtered ->
  exists keep, filtered = filter keep all.
Proof.
  destruct type; simpl; intros H.
  - apply filter_throwing_spec in H as [K _]. eauto.
  - inversion H. eauto.
  - apply filter_throwing_spec in H as [K _]. eauto.
Qed.

Lemma same_value_zero_string (s : string) :
  same_value_zero (VStr s) (VStr s) = true.
Proof. simpl. apply String.eqb_refl. Qed.

(** X10.  One evaluation of [filteredAvailableModels] over options whose
    values are strings: the offered models are a sublist of the available
    ones; unless there are none available, the selected model is afterwards
    one of the offered; a selection that is offered already is not touched;
    and nothing but the selection is ever changed. *)
Theorem selection_is_among_the_offered_models :
  forall (w w' : World) (offered : list ModelOption.t),
    string_names (availableModels w) ->
    filteredAvailableModels w = (Returned offered, w') ->
    (exists keep, offered = filter keep (availableModels w)) /\
    (availableModels w <> [] ->
     includes (selectedModel w') (map ModelOption.value offered) = true) /\
    (includes (selectedModel w) (map ModelOption.value offered) = true ->
     w' = w) /\
    w' = set_selectedModel (selectedModel w') w.
Proof.
  intros w w' offered Hn. unfold filteredAvailableModels. run.
  destruct (availableModels w) as [|a rest] eqn:Ea.
  - intros E. inversion E; subst. split; [exists (fun _ => true); reflexivity|].
    split; [intros C; contradiction|]. split; [reflexivity|].
    destruct w'; reflexivity.
  - destruct (filter_for (generatorType w) (a :: rest)) as [filtered|] eqn:Ef;
      [|discriminate].
    pose proof (filter_for_sublist _ _ _ Ef) as [keep K].
    destruct (includes (selectedModel w) (map ModelOption.value filtered)) eqn:Ei;
      simpl.
    + intros E. inversion E; subst offered w'. split; [eauto|].
      split; [intros _; exact Ei|]. split; [reflexivity|].
      destruct w; reflexivity.
    + destruct filtered as [|first more] eqn:Efl; [discriminate|].
      intros E. inversion E; subst offered w'. split; [eauto|]. simpl.
      split; [|split; [intros C; simpl in *; congruence|reflexivity]].
      intros _.
      assert (I : In first (a :: rest)).
      { assert (J : In first (filter keep (a :: rest)))
          by (rewrite <- K; now left).
        apply filter_In in J. tauto. }
      unfold string_names in Hn. rewrite Forall_forall in Hn.
      destruct (Hn first I) as [s Hs]. rewrite Hs.
      rewrite same_value_zero_string. reflexivity.
Qed.

Lemma selection_is_among_the_offered_models_witness :
  let w := set_generatorType Inpainting
             (set_availableModels sample_options sample_world) in
  exists offered w',
    filteredAvailableModels w = (Returned offered, w') /\
    map ModelOption.value offered = [VStr "stable_diffusion_inpainting"] /\
    selectedModel w' = VStr "stable_diffusion_inpainting" /\
    includes (selectedModel w') (map ModelOption.value offered) = true.
Proof.
  intros w.
  assert (N : string_names (availableModels w)).
  { repeat constructor; eexists; reflexivity. }
  assert (E : filteredAvailableModels w =
              (Returned [ModelOption.mk (VStr "stable_diffusion_inpainting")
                           "stable_diffusion_inpainting (3)"],
               set_selectedModel (VStr "stable_diffusion_inpainting") w))
    by reflexivity.
  eexists. eexists. split; [exact E|].
  split; [reflexivity|]. split; [reflexivity|].
  refine (proj1 (proj2 (selection_is_among_the_offered_models w _ _ N E)) _).
  discriminate.
Defined.

Lemma filter_for_random (type : GeneratorType) all filtered :
  filter_for type all = Some filtered ->
  In random_option all ->
  (type = Inpainting -> ~ In random_option filtered) /\
  (type <> Inpainting -> In random_option filtered).
Proof.
  intros H I. destruct type; simpl in H.
  - apply filter_throwing_spec in H as [K _]. subst filtered.
    split; [discriminate|]. intros _. apply filter_In. split; [exact I|reflexivity].
  - inversion H; subst filtered.
    split; [discriminate|]. intros _. apply filter_In. split; [exact I|reflexivity].
  - apply filter_throwing_spec in H as [K _]. subst filtered.
    split; [|intros C; contradiction]. intros _ J.
    apply filter_In in J as [_ J]. discriminate.
Qed.

(** X11.  The option [Random!] is offered for text-to-image and
    image-to-image and never for inpainting. *)
Theorem random_is_offered_except_for_inpainting :
  forall (w w' : World) (offered : list ModelOption.t),
    In random_option (availableModels w) ->
    filteredAvailableModels w = (Returned offered, w') ->
    (generatorType w = Inpainting -> ~ In random_option offered) /\
    (generatorType w <> Inpainting -> In random_option offered).
Proof.
  intros w w' offered I. unfold filteredAvailableModels. run.
  destruct (availableModels w) as [|a rest] eqn:Ea; [contradiction|].
  destruct (filter_for (generatorType w) (a :: rest)) as [filtered|] eqn:Ef;
    [|discriminate].
  pose proof (filter_for_random _ _ _ Ef I) as R.
  destruct (negb (includes (selectedModel w) (map ModelOption.value filtered))).
  - destruct filtered; [discriminate|]. intros E; inversion E; subst. exact R.
  - intros E; inversion E; subst. exact R.
Qed.

Lemma random_is_offered_except_for_inpainting_witness :
  let w := set_availableModels sample_options sample_world in
  (exists offered w',
      filteredAvailableModels w = (Returned offered, w') /\
      In random_option offered)
  /\
  (exists offered w',
      filteredAvailableModels (set_generatorType Inpainting w)
        = (Returned offered, w') /\
      ~ In random_option offered).
Proof.
  intros w. split.
  - eexists. eexists. split; [reflexivity|].
    refine (proj2 (random_is_offered_except_for_inpainting w _ _ _ eq_refl) _).
    + right. right. left. reflexivity.
    + discriminate.
  - eexists. eexists. split; [reflexivity|].
    refine (proj1 (random_is_offered_except_for_inpainting
                     (set_generatorType Inpainting w) _ _ _ eq_refl) eq_refl).
    right. right. left. reflexivity.
Defined.

(** X12.  For inpainting, when models are available and none of them has
    [inpainting] in its name, [filteredAvailableModels] throws (the read of
    [filtered[0].value]) and changes nothing. *)
Theorem nothing_to_offer_is_an_exception :
  forall (w : World),
    availableModels w <> [] ->
    generatorType w = Inpainting ->
    Forall (fun el => exists s, ModelOption.value el = VStr s /\
                                contains "inpainting" s = false)
           (availableModels w) ->
    filteredAvailableModels w = (TypeError, w).
Proof.
  intros w Hne Ht Hall. unfold filteredAvailableModels. run.
  destruct (availableModels w) as [|a rest] eqn:Ea; [contradiction|].
  rewrite Ht.
  assert (G : forall l,
             Forall (fun el => exists s, ModelOption.value el = VStr s /\
                                         contains "inpainting" s = false) l ->
             filter_for Inpainting l = Some []).
  { intros l H. simpl. induction H as [|el l' (s & Hs & Hc) _ IH]; [reflexivity|].
    cbn [filter_throwing]. rewrite Hs. cbn [value_includes]. rewrite Hc, IH.
    reflexivity. }
  rewrite (G _ Hall). reflexivity.
Qed.

Lemma nothing_to_offer_is_an_exception_witness :
  let w := set_generatorType Inpainting
             (set_availableModels
                [ModelOption.mk (VStr "stable_diffusion") "stable_diffusion (12)"]
                sample_world) in
  filteredAvailableModels w = (TypeError, w).
Proof.
  intros w. apply (nothing_to_offer_is_an_exception w).
  - discriminate.
  - reflexivity.
  - repeat constructor. exists "stable_diffusion". split; reflexivity.
Defined.

(** ** The trigger of a model *)

Lemma set_prompt_same (w : World) : set_prompt (prompt w) w = w.
Proof. destruct w; reflexivity. Qed.

(** X13.  When [addDreamboothTrigger] returns, the world is the one before
    with a suffix appended to the prompt and nothing else changed; the
    suffix is empty when the selected model is not a key of the database,
    and it is empty or the given trigger when a non-empty trigger is
    given. *)
Theorem trigger_only_extends_the_prompt :
  forall (trigger : option string) (w w' : World),
    addDreamboothTrigger trigger w = (Returned tt, w') ->
    exists suffix,
      w' = set_prompt (prompt w ++ suffix) w /\
      (own_entry (to_string (selectedModel w)) (modelsJSON w) = Some None ->
       suffix = "") /\
      (forall t, trigger = Some t -> t <> "" -> suffix = "" \/ suffix = t).
Proof.
  intros trigger w w'. unfold addDreamboothTrigger. run.
  destruct (own_entry (to_string (selectedModel w)) (modelsJSON w))
    as [[entry|]|]; [| |discriminate].
  - destruct (prop "trigger" entry) as [triggers|]; [|discriminate].
    destruct (truthy triggers); simpl.
    + destruct (str_truthy trigger) eqn:Et.
      * intros E; inversion E; subst. eexists. split; [reflexivity|].
        split; [discriminate|]. intros t Ht _. subst trigger. now right.
      * destruct (first_of triggers) as [t0|]; [|discriminate].
        intros E; inversion E; subst. eexists. split; [reflexivity|].
        split; [discriminate|]. intros t Ht Hne. subst trigger. simpl in Et.
        apply Bool.negb_false_iff, String.eqb_eq in Et. contradiction.
    + intros E; inversion E; subst. exists "".
      rewrite append_empty_r, set_prompt_same. repeat split; auto.
  - intros E; inversion E; subst. exists "".
    rewrite append_empty_r, set_prompt_same. repeat split; auto.
Qed.

Lemma trigger_only_extends_the_prompt_witness :
  let w := set_modelsJSON sample_triggers sample_world in
  exists suffix,
    snd (addDreamboothTrigger (Some "style") w)
      = set_prompt ("cat" ++ suffix) w /\
    (suffix = "" \/ suffix = "style").
Proof.
  intros w.
  destruct (trigger_only_extends_the_prompt (Some "style") w
              (snd (addDreamboothTrigger (Some "style") w)) eq_refl)
    as (suffix & E & _ & H).
  exists suffix. split; [exact E|].
  apply (H "style" eq_refl). discriminate.
Defined.

(** X14.  For a selected model whose database entry has a truthy
    [trigger]: a non-empty trigger given by the caller is appended to the
    prompt; without one the first element of the list of triggers is; and
    an empty list of triggers appends the text [undefined]. *)
Theorem trigger_appended :
  forall (given : option string) (w : World) (entry triggers : value),
    own_entry (to_string (selectedModel w)) (modelsJSON w) = Some (Some entry) ->
    prop "trigger" entry = Some triggers ->
    truthy triggers = true ->
    (forall t, given = Some t -> t <> "" ->
               addDreamboothTrigger given w =
               (Returned tt, set_prompt (prompt w ++ t) w)) /\
    (str_truthy given = false ->
     forall first rest, triggers = VArr (first :: rest) ->
       addDreamboothTrigger given w =
       (Returned tt, set_prompt (prompt w ++ to_string first) w)) /\
    (str_truthy given = false -> triggers = VArr [] ->
     addDreamboothTrigger given w =
     (Returned tt, set_prompt (prompt w ++ "undefined") w)).
Proof.
  intros given w entry triggers Ho Hp Ht.
  unfold addDreamboothTrigger. run. rewrite Ho, Hp, Ht. simpl.
  split; [|split].
  - intros t Hg Hne. subst given. simpl.
    apply String.eqb_neq in Hne. rewrite Hne. reflexivity.
  - intros Hg first rest Hl. rewrite Hg. subst triggers. reflexivity.
  - intros Hg Hl. rewrite Hg. subst triggers. reflexivity.
Qed.

Lemma trigger_appended_witness :
  let w := set_modelsJSON sample_triggers sample_world in
  addDreamboothTrigger None w = (Returned tt, set_prompt "catsks" w) /\
  addDreamboothTrigger (Some "style") w
    = (Returned tt, set_prompt "catstyle" w).
Proof.
  intros w.
  destruct (trigger_appended None w
              (VObj [("trigger", VArr [VStr "sks"; VStr "style"])])
              (VArr [VStr "sks"; VStr "style"]) eq_refl eq_refl eq_refl)
    as (_ & H & _).
  destruct (trigger_appended (Some "style") w
              (VObj [("trigger", VArr [VStr "sks"; VStr "style"])])
              (VArr [VStr "sks"; VStr "style"]) eq_refl eq_refl eq_refl)
    as (G & _ & _).
  split.
  - exact (H eq_refl (VStr "sks") [VStr "style"] eq_refl).
  - apply (G "style" eq_refl). discriminate.
Defined.

(** ** Reset *)

Lemma resetStore_run (w : World) :
  resetStore w = (Returned true, after_reset w).
Proof. destruct w. reflexivity. Qed.

(** X15.  [resetStore] returns [true]; afterwards the parameters are the
    defaults, the images are empty, the image-to-image source, mask and file
    list are empty, and the inpainting source and mask are empty while its
    file list is kept; the prompts, post-processors, selected model,
    generator type, queue, flags, outputs and trace are as before; and a
    second reset changes nothing. *)
Theorem resetStore_resets_parameters_and_images_only :
  forall (w : World),
  exists w',
    resetStore w = (Returned true, w') /\
    params w' = getDefaultStore /\
    images w' = [] /\
    img2img w' = ITypeParams.mk "" "" [] /\
    inpainting w' = ITypeParams.mk "" "" (ITypeParams.fileList (inpainting w)) /\
    prompt w' = prompt w /\ negativePrompt w' = negativePrompt w /\
    postProcessors w' = postProcessors w /\
    selectedModel w' = selectedModel w /\
    generatorType w' = generatorType w /\
    queue w' = queue w /\ generating w' = generating w /\
    cancelled w' = cancelled w /\ outputs w' = outputs w /\
    trace w' = trace w /\
    resetStore w' = (Returned true, w').
Proof.
  intros w. exists (after_reset w). split; [apply resetStore_run|].
  rewrite resetStore_run. destruct w. cbv. repeat split.
Qed.

(** ** The random model *)

(** X16.  With [Random!] selected, the model of the request is the value
    of one of the available options other than [Random!], and the pick
    changes nothing; when every available option is [Random!] (or there is
    none), the pick throws. *)
Theorem random_pick_is_a_real_model :
  forall (w : World),
    is_random (selectedModel w) = true ->
    (forall models w',
        pickModel w = (Returned models, w') ->
        w' = w /\
        exists el, models = [ModelOption.value el] /\
                   In el (availableModels w) /\
                   is_random (ModelOption.value el) = false) /\
    (Forall (fun el => is_random (ModelOption.value el) = true)
            (availableModels w) ->
     pickModel w = (TypeError, w)).
Proof.
  intros w Hr. unfold pickModel. run. rewrite Hr. split.
  - intros models w'.
    destruct (nth_error _ _) as [el|] eqn:En; [|discriminate].
    intros E; inversion E; subst. split; [reflexivity|].
    exists el. split; [reflexivity|].
    apply nth_error_In in En. apply filter_In in En as [I N].
    split; [exact I|]. apply Bool.negb_true_iff. exact N.
  - intros Hall.
    assert (F : filter (fun el => negb (is_random (ModelOption.value el)))
                       (availableModels w) = []).
    { induction Hall as [|el l H _ IH]; [reflexivity|].
      simpl. rewrite H. exact IH. }
    rewrite F. simpl. destruct (dice w); reflexivity.
Qed.

Lemma random_pick_is_a_real_model_witness :
  let w := set_selectedModel (VStr "Random!")
             (set_availableModels sample_options sample_world) in
  (exists el,
      pickModel w = (Returned [ModelOption.value el], w) /\
      In el sample_options /\ is_random (ModelOption.value el) = false)
  /\
  pickModel (set_availableModels [random_option] w)
    = (TypeError, set_availableModels [random_option] w).
Proof.
  intros w. split.
  - destruct (proj1 (random_pick_is_a_real_model w eq_refl)
                [VStr "stable_diffusion"] w eq_refl)
      as (_ & el & E & I & R).
    exists el. split; [|split; assumption].
    inversion E. reflexivity.
  - apply (proj2 (random_pick_is_a_real_model
                    (set_availableModels [random_option] w) eq_refl)).
    repeat constructor.
Defined.

(** ** What a call leaves alone *)

Lemma bind_inv {A B : Type} (m : M A) (k : A -> M B) (w : World)
    (out : outcome B) (w' : World) :
  bind m k w = (out, w') ->
  (exists a w1, m w = (Returned a, w1) /\ k a w1 = (out, w')) \/
  (m w = (TypeError, w') /\ out = TypeError) \/
  (m w = (Pending, w') /\ out = Pending).
Proof.
  unfold bind. destruct (m w) as [[a| |] w1]; intros E.
  - left. eauto.
  - inversion E; subst. auto.
  - inversion E; subst. auto.
Qed.

Section Keeps.

Context {T : Type} (f : World -> T).

Lemma keeps_ret {A : Type} (a : A) : keeps f (ret a).
Proof. intros w out w' E. inversion E. reflexivity. Qed.

Lemma keeps_throw {A : Type} : keeps f (@throw A).
Proof. intros w out w' E. inversion E. reflexivity. Qed.

Lemma keeps_gets {A : Type} (g : World -> A) : keeps f (gets g).
Proof. intros w out w' E. inversion E. reflexivity. Qed.

Lemma keeps_modify (g : World -> World) :
  (forall w, f (g w) = f w) -> keeps f (modify g).
Proof. intros H w out w' E. inversion E. apply H. Qed.

Lemma keeps_bind {A B : Type} (m : M A) (k : A -> M B) :
  keeps f m -> (forall a, keeps f (k a)) -> keeps f (bind m k).
Proof.
  intros Hm Hk w out w' E.
  destruct (bind_inv m k w out w' E) as [(a & w1 & E1 & E2)|[[E1 _]|[E1 _]]].
  - rewrite (Hk a w1 out w' E2). exact (Hm w _ _ E1).
  - exact (Hm w _ _ E1).
  - exact (Hm w _ _ E1).
Qed.

(** An observation that the network, the timer, the cancel button and the
    error display do not change. *)
Hypothesis f_arrivals : forall x w, f (set_arrivals x w) = f w.
Hypothesis f_cancelled : forall x w, f (set_cancelled x w) = f w.
Hypothesis f_trace : forall x w, f (set_trace x w) = f w.
Hypothesis f_progress : forall x w, f (set_progress x w) = f w.
Hypothesis f_images : forall x w, f (set_images x w) = f w.

Lemma keeps_emit (e : event) : keeps f (emit e).
Proof. apply keeps_modify. intros w. apply f_trace. Qed.

Lemma keeps_await : keeps f await.
Proof.
  intros w out w'. unfold await. destruct (arrivals w) as [|a rest].
  - intros E. inversion E. reflexivity.
  - intros E. inversion E. destruct (Arrival.cancel_pressed a);
      rewrite ?f_cancelled, f_arrivals; reflexivity.
Qed.

Lemma keeps_fetch m url key body : keeps f (fetch m url key body).
Proof.
  unfold fetch. apply keeps_bind; [apply keeps_emit|intros _; apply keeps_await].
Qed.

Lemma keeps_sleep ms : keeps f (sleep ms).
Proof.
  unfold sleep. apply keeps_bind; [apply keeps_emit|intros _].
  apply keeps_bind; [apply keeps_await|intros _; apply keeps_ret].
Qed.

Lemma keeps_validateResponse status json good msg :
  keeps f (validateResponse status json good msg).
Proof.
  intros w out w' E.
  destruct (validateResponse_cases status good json msg w) as [H|[H|[t H]]];
    rewrite H in E.
  - inversion E. reflexivity.
  - inversion E. reflexivity.
  - rewrite onInvalidResponse_eq in E. inversion E.
    rewrite f_images, f_cancelled, f_progress, f_trace. reflexivity.
Qed.

Ltac keep :=
  repeat first
    [ apply keeps_ret | apply keeps_throw | apply keeps_gets
    | apply keeps_emit | apply keeps_await | apply keeps_fetch
    | apply keeps_sleep | apply keeps_validateResponse
    | apply keeps_bind; [|intros ?]
    | match goal with
      | |- keeps _ (if ?b then _ else _) => destruct b
      | |- keeps _ (match ?x with _ => _ end) => destruct x
      end ].

Lemma keeps_fetchNewID p : keeps f (fetchNewID p).
Proof. unfold fetchNewID. keep. Qed.

Lemma keeps_checkImage id : keeps f (checkImage id).
Proof. unfold checkImage. keep. Qed.

Lemma keeps_cancelImage id : keeps f (cancelImage id).
Proof. unfold cancelImage, cancelImage_request. keep. Qed.

Lemma keeps_getImageStatus id : keeps f (getImageStatus id).
Proof. unfold getImageStatus. keep. Qed.

Lemma keeps_collectFinal q : forall acc, keeps f (collectFinal q acc).
Proof.
  induction q as [|j q IH]; intros acc; simpl; [apply keeps_ret|].
  apply keeps_bind; [apply keeps_gets|intros c].
  apply keeps_bind.
  - destruct c; [apply keeps_cancelImage|apply keeps_getImageStatus].
  - intros [g|]; [|apply keeps_ret].
    destruct (negb (truthy g)); [apply keeps_ret|].
    destruct (spread g); [apply IH|apply keeps_throw].
Qed.

(** ... nor the status stored in a job. *)
Hypothesis f_queue : forall x w, f (set_queue x w) = f w.

Lemma keeps_pollJobs todo : forall checked, keeps f (pollJobs checked todo).
Proof.
  induction todo as [|j todo IH]; intros checked; simpl; [apply keeps_ret|].
  destruct (job_done j); [apply IH|].
  apply keeps_bind; [apply keeps_checkImage|intros [st|]]; [|apply keeps_ret].
  apply keeps_bind; [apply keeps_modify; intros w; apply f_queue|intros _].
  apply IH.
Qed.

Lemma keeps_pollLoop fuel : forall se, keeps f (pollLoop fuel se).
Proof.
  induction fuel as [|fuel IH]; intros se; simpl.
  - intros w out w' E. inversion E. reflexivity.
  - apply keeps_bind; [apply keeps_gets|intros c].
    destruct (negb c); [apply keeps_ret|].
    apply keeps_bind; [apply keeps_gets|intros q].
    apply keeps_bind; [apply keeps_pollJobs|intros ok].
    destruct (negb ok); [apply keeps_ret|].
    apply keeps_bind; [apply keeps_gets|intros mapped].
    apply keeps_bind; [apply keeps_emit|intros _].
    apply keeps_bind; [apply keeps_sleep|intros _].
    apply IH.
Qed.

End Keeps.

Lemma queue_kept_by_collectFinal q acc : keeps queue (collectFinal q acc).
Proof. apply keeps_collectFinal; intros; reflexivity. Qed.

Lemma generating_kept_by_fetchNewID p : keeps generating (fetchNewID p).
Proof. apply keeps_fetchNewID; intros; reflexivity. Qed.

Lemma generating_kept_by_pollLoop fuel se : keeps generating (pollLoop fuel se).
Proof. apply keeps_pollLoop; intros; reflexivity. Qed.

Lemma generating_kept_by_collectFinal q acc :
  keeps generating (collectFinal q acc).
Proof. apply keeps_collectFinal; intros; reflexivity. Qed.

Lemma generationFailed_idle w : idle_iff_returned (generationFailed w).
Proof.
  rewrite generationFailed_run. unfold idle_iff_returned. simpl. auto.
Qed.

Lemma pollAndCollect_idle ext pc w :
  generating w = true ->
  idle_iff_returned (pollAndCollect ext pc w).
Proof.
  intros G. unfold pollAndCollect.
  unfold bind at 1. unfold gets at 1.
  unfold bind at 1.
  destruct (pollLoop (S (List.length (arrivals w))) 0 w) as [[exit| |] w1] eqn:El;
    try (apply generating_kept_by_pollLoop in El; unfold idle_iff_returned;
         simpl; congruence).
  apply generating_kept_by_pollLoop in El.
  destruct exit; [|apply generationFailed_idle].
  run.
  destruct (collectFinal (queue w1) [] (set_queue [] w1))
    as [[[imgs|]| |] w2] eqn:Ec.
  - rewrite generationDone_run. unfold idle_iff_returned. simpl.
    split; [reflexivity|]. apply queue_kept_by_collectFinal in Ec. exact Ec.
  - apply generationFailed_idle.
  - apply generating_kept_by_collectFinal in Ec. unfold idle_iff_returned.
    simpl in *. congruence.
  - apply generating_kept_by_collectFinal in Ec. unfold idle_iff_returned.
    simpl in *. congruence.
Qed.

Lemma sources_returns ext type w :
  exists src ws, sources ext type w = (Returned src, ws) /\
                 selectedModel ws = selectedModel w /\
                 availableModels ws = availableModels w /\
                 dice ws = dice w.
Proof.
  destruct type; simpl; unfold saveImages; run; eexists; eexists;
    (split; [reflexivity|]); simpl; auto.
Qed.

Lemma pickModel_cases (w : World) :
  (exists model, pickModel w = (Returned model, w)) \/
  pickModel w = (TypeError, w).
Proof.
  unfold pickModel. run. destruct (is_random (selectedModel w)); [|eauto].
  destruct (nth_error _ _); eauto.
Qed.

Lemma pickModel_same (w ws : World) :
  selectedModel ws = selectedModel w ->
  availableModels ws = availableModels w ->
  dice ws = dice w ->
  fst (pickModel ws) = fst (pickModel w).
Proof.
  intros S A D. unfold pickModel. run. rewrite S.
  destruct (is_random (selectedModel w)); [|reflexivity].
  rewrite A, D. destruct (nth_error _ _); reflexivity.
Qed.

Lemma generateImage_idle (ext : Outside) (type : GeneratorType) (w : World) :
  prompt w <> "" ->
  fst (pickModel w) <> TypeError ->
  idle_iff_returned (generateImage ext type w).
Proof.
  intros Hp Hm. unfold generateImage.
  unfold bind at 1. unfold gets at 1.
  apply String.eqb_neq in Hp. rewrite Hp.
  destruct (sources_returns ext type w) as (src & ws & Es & S & A & D).
  unfold bind at 1. rewrite Es.
  rewrite <- (pickModel_same w ws S A D) in Hm.
  unfold bind at 1.
  destruct (pickModel_cases ws) as [[model Em]|Em]; rewrite Em in *;
    [|contradiction Hm; reflexivity].
  run.
  destruct (fetchNewID (cacheParams src model ws) (set_generating true ws))
    as [[[r|]| |] w1] eqn:Ef;
    try (apply generating_kept_by_fetchNewID in Ef; unfold idle_iff_returned;
         simpl in *; congruence).
  - apply generating_kept_by_fetchNewID in Ef. simpl in Ef.
    destruct (prop "id" r) as [id|].
    + apply pollAndCollect_idle. simpl. exact Ef.
    + unfold idle_iff_returned. simpl. exact Ef.
  - apply generationFailed_idle.
Qed.

(** X17.  The [generating] flag follows the call.  For a non-empty prompt
    and a model pick that does not throw: when [generateImage] returns,
    [generating] is [false] and the queue is empty; when it ends in an
    exception, or is still waiting, [generating] is [true]. *)
Theorem generating_is_cleared_exactly_on_return :
  forall (ext : Outside) (type : GeneratorType) (w w' : World)
         (out : outcome (list ImageData.t)),
    prompt w <> "" ->
    fst (pickModel w) <> TypeError ->
    generateImage ext type w = (out, w') ->
    match out with
    | Returned _ => generating w' = false /\ queue w' = []
    | TypeError | Pending => generating w' = true
    end.
Proof.
  intros ext type w w' out Hp Hm E.
  pose proof (generateImage_idle ext type w Hp Hm) as H.
  unfold idle_iff_returned in H. rewrite E in H. simpl in H.
  destruct out; exact H.
Qed.

Lemma generating_is_cleared_exactly_on_return_witness :
  let accepted := reply 202 (VObj [("id", VStr "a")]) in
  (exists w',
      generateImage sample_outside Text2Img
        (set_arrivals [accepted; reply 200 VNull] sample_world)
        = (TypeError, w') /\
      generating w' = true)
  /\
  (exists w',
      generateImage sample_outside Text2Img
        (set_arrivals [accepted; reply 404 (VObj [])] sample_world)
        = (Returned [], w') /\
      generating w' = false /\ queue w' = []).
Proof.
  intros accepted. split.
  - eexists. split; [vm_compute; reflexivity|].
    refine (generating_is_cleared_exactly_on_return sample_outside Text2Img
              (set_arrivals [accepted; reply 200 VNull] sample_world) _
              TypeError _ _ _).
    + discriminate.
    + discriminate.
    + vm_compute. reflexivity.
  - eexists. split; [vm_compute; reflexivity|].
    refine (generating_is_cleared_exactly_on_return sample_outside Text2Img
              (set_arrivals [accepted; reply 404 (VObj [])] sample_world) _
              (Returned []) _ _ _).
    + discriminate.
    + discriminate.
    + vm_compute. reflexivity.
Defined.

(** ** An undisturbed run *)

Lemma fetchNewID_accepted p w accepted rest :
  arrivals w = reply 202 accepted :: rest ->
  truthy accepted = true ->
  fetchNewID p w =
  (Returned (Some accepted),
   set_arrivals rest
     (set_trace
        (trace w ++ [Fetch POST (url_async w)
                       (Some (OptionsStore.apiKey (options w))) (Some p)])
        w)).
Proof.
  intros Ha Ht. unfold fetchNewID, fetch. run. unfold await. simpl.
  rewrite Ha. simpl. unfold validateResponse. simpl. rewrite Ht. reflexivity.
Qed.

Lemma getImageStatus_accepted id w final g rest :
  arrivals w = reply 200 final :: rest ->
  truthy final = true ->
  prop "generations" final = Some g ->
  getImageStatus id w =
  (Returned (Some g),
   set_arrivals rest
     (set_trace (trace w ++ [Fetch GET (url_status w id) None None]) w)).
Proof.
  intros Ha Ht Hg. unfold getImageStatus, fetch. run. unfold await. simpl.
  rewrite Ha. simpl. unfold validateResponse. simpl. rewrite Ht. simpl.
  unfold ret. rewrite Hg. reflexivity.
Qed.

Lemma set_waitData_twice a b j :
  set_waitData a (set_waitData b j) = set_waitData a j.
Proof. reflexivity. Qed.

Lemma pollLoop_undisturbed (done : value) (polls : list value) :
  truthy done = true ->
  truthy (prop_opt "done" done) = true ->
  Forall waiting polls ->
  forall fuel se w j rest,
    queue w = [j] ->
    job_done j = false ->
    cancelled w = false ->
    arrivals w =
      (flat_map (fun b => [reply 200 b; timer]) polls
         ++ reply 200 done :: timer :: rest)%list ->
    (List.length polls + 2 <= fuel)%nat ->
    exists tr,
      pollLoop fuel se w =
      (Returned ConditionFalse,
       set_arrivals rest
         (set_trace (trace w ++ tr) (set_queue [set_waitData done j] w))) /\
      requests tr =
        repeat (GET, url_check w (ICurrentGeneration.id j))
               (S (List.length polls)) /\
      errors tr = [].
Proof.
  intros Td Dd Hw. induction Hw as [|b polls [Tb Db] _ IH];
    intros fuel se w j rest Hq Hj Hc Ha Hf.
  - destruct fuel as [|[|fuel]]; [simpl in Hf; lia|simpl in Hf; lia|].
    simpl in Ha.
    assert (Hl : loop_condition w = true).
    { unfold loop_condition. rewrite Hq, Hc. simpl. rewrite Hj. reflexivity. }
    rewrite (pollLoop_round (S fuel) se w [reply 200 done] timer rest Hl Ha).
    2:{ rewrite Hq. unfold pending_jobs. simpl. rewrite Hj. reflexivity. }
    2:{ simpl. rewrite Td. reflexivity. }
    rewrite pollLoop_exit.
    2:{ unfold loop_condition, after_round. simpl. rewrite Hq. simpl.
        rewrite Hj. simpl. unfold job_done. simpl. rewrite Dd. reflexivity. }
    exists [check_event (OptionsStore.baseURL (options w)) j;
            UpdateProgress [waitData_value (set_waitData done j)] (se + 1);
            Sleep 500].
    split.
    + unfold after_round, pressed. rewrite Hq. simpl. rewrite Hj. simpl.
      destruct w; simpl in *; subst. reflexivity.
    + split; reflexivity.
  - destruct fuel as [|fuel]; [simpl in Hf; lia|].
    simpl in Ha.
    assert (Hl : loop_condition w = true).
    { unfold loop_condition. rewrite Hq, Hc. simpl. rewrite Hj. reflexivity. }
    rewrite (pollLoop_round fuel se w [reply 200 b] timer
               (flat_map (fun b => [reply 200 b; timer]) polls
                  ++ reply 200 done :: timer :: rest)%list Hl Ha).
    2:{ rewrite Hq. unfold pending_jobs. simpl. rewrite Hj. reflexivity. }
    2:{ simpl. rewrite Tb. reflexivity. }
    destruct (IH fuel (se + 1)
                (after_round se [reply 200 b] timer
                   (flat_map (fun b => [reply 200 b; timer]) polls
                      ++ reply 200 done :: timer :: rest)%list w)
                (set_waitData b j) rest)
      as (tr & E & R & S).
    + unfold after_round. simpl. rewrite Hq. simpl. rewrite Hj. reflexivity.
    + unfold job_done. simpl. exact Db.
    + reflexivity.
    + reflexivity.
    + simpl in Hf. lia.
    + rewrite E.
      exists ([check_event (OptionsStore.baseURL (options w)) j;
               UpdateProgress [waitData_value (set_waitData b j)] (se + 1);
               Sleep 500] ++ tr)%list.
      split.
      * unfold after_round, pressed. rewrite Hq. simpl. rewrite Hj. simpl.
        rewrite <- !app_assoc.
        destruct w; simpl in *; subst. reflexivity.
      * rewrite !requests_app, !errors_app, R, S. simpl. auto.
Qed.

Lemma prop_array_truthy k v l : prop k v = Some (VArr l) -> truthy v = true.
Proof.
  destruct v; simpl; try discriminate; try reflexivity.
Qed.

(** X18.  An undisturbed text-to-image run.  From an empty queue and with
    [cancelled] unset: the submission is accepted with an id, the status
    checks answer any number of valid bodies that are not done and then one
    that is, and the final status carries a list of generations.  Then
    [generateImage] returns one gallery entry per generation, made with the
    parameters cached at the start; it has sent the POST, one status check
    more than there were bodies not done, and the final GET, in this order,
    and raised no error; [generating] and [cancelled] are [false], the
    queue and the arrivals are used up, the entries are the images, and the
    output store holds what its [correctOutputIDs] makes of its old entries
    followed by the new ones. *)
Theorem undisturbed_run_materialises_the_job :
  forall (ext : Outside) (w : World) (accepted id done final : value)
         (polls gens : list value),
    prompt w <> "" ->
    is_random (selectedModel w) = false ->
    queue w = [] ->
    cancelled w = false ->
    truthy accepted = true ->
    prop "id" accepted = Some id ->
    Forall waiting polls ->
    truthy done = true ->
    truthy (prop_opt "done" done) = true ->
    prop "generations" final = Some (VArr gens) ->
    arrivals w = undisturbed accepted polls done final ->
    let paramsCached := cacheParams (None, None, None) [selectedModel w] w in
    let entries :=
      map (fun el => gallery_entry (getNewImageID ext (outputs w))
                       (FinalImage.mk el paramsCached)) gens in
    exists w',
      generateImage ext Text2Img w = (Returned entries, w') /\
      requests (trace w') =
        (requests (trace w)
           ++ (POST, url_async w)
           :: repeat (GET, url_check w id) (S (List.length polls))
           ++ [(GET, url_status w id)])%list /\
      errors (trace w') = errors (trace w) /\
      generating w' = false /\
      cancelled w' = false /\
      queue w' = [] /\
      arrivals w' = [] /\
      images w' = entries /\
      outputs w' = correctOutputIDs ext (outputs w ++ entries).
Proof.
  intros ext w accepted id done final polls gens Hp Hr Hq Hc Ta Hid Hw Td Dd Hg Ha
         paramsCached entries.
  pose proof (prop_array_truthy _ _ _ Hg) as Tf.
  unfold generateImage.
  unfold bind at 1. unfold gets at 1.
  apply String.eqb_neq in Hp. rewrite Hp.
  unfold sources. unfold bind at 1. unfold ret at 1.
  unfold bind at 1. unfold pickModel. unfold bind at 1. unfold gets at 1.
  rewrite Hr. unfold ret at 1.
  unfold bind at 1. unfold gets at 1. fold paramsCached.
  unfold bind at 1. unfold modify at 1.
  unfold bind at 1.
  unfold undisturbed in Ha.
  rewrite (fetchNewID_accepted paramsCached (set_generating true w) accepted _
             Ha Ta).
  unfold bind at 1. unfold modify at 1. rewrite Hid.
  unfold bind at 1. unfold modify at 1.
  unfold pollAndCollect.
  unfold bind at 1. unfold gets at 1.
  unfold bind at 1.
  match goal with
  | |- context [pollLoop ?fuel 0 ?x] =>
      destruct (pollLoop_undisturbed done polls Td Dd Hw fuel 0 x
                  (ICurrentGeneration.mk paramsCached id None)
                  [reply 200 final])
        as (tr & El & Rl & Sl)
  end.
  - simpl. rewrite Hq. reflexivity.
  - reflexivity.
  - exact Hc.
  - reflexivity.
  - assert (L : forall l : list value,
               (List.length l
                <= List.length (flat_map (fun b => [reply 200 b; timer]) l))%nat).
    { induction l as [|b l IH]; simpl; lia. }
    simpl. rewrite !length_app. simpl. specialize (L polls). lia.
  - rewrite El. clear El. cbn beta iota.
    unfold bind at 1. unfold gets at 1.
    unfold bind at 1. unfold modify at 1.
    unfold bind at 1.
    cbn [collectFinal queue set_arrivals set_trace set_queue].
    unfold bind at 1. unfold gets at 1.
    match goal with
    | |- context [cancelled ?x] =>
        change (cancelled x) with (cancelled w)
    end.
    rewrite Hc. unfold bind at 1.
    match goal with
    | |- context [getImageStatus ?i ?x] =>
        rewrite (getImageStatus_accepted i x final (VArr gens) [] eq_refl Tf Hg)
    end.
    cbn [truthy negb spread app]. unfold ret at 1.
    rewrite generationDone_run, map_map.
    cbn -[requests errors correctOutputIDs getNewImageID gallery_entry
          cacheParams].
    eexists. split; [reflexivity|].
    cbn -[requests errors correctOutputIDs getNewImageID gallery_entry
          cacheParams].
    rewrite !requests_app, !errors_app, Rl, Sl. simpl.
    rewrite !app_nil_r. repeat split.
    rewrite <- !app_assoc. reflexivity.
Qed.

Lemma undisturbed_run_materialises_the_job_witness :
  let still := VObj [("done", VBool false); ("wait_time", VNum (Fin 9))] in
  let finished := VObj [("done", VBool true)] in
  let image := VObj [("img", VStr "AAAA"); ("seed", VStr "7")] in
  let final := VObj [("generations", VArr [image])] in
  let w := set_arrivals
             (undisturbed (VObj [("id", VStr "a")]) [still; still] finished final)
             sample_world in
  exists entry w',
    generateImage sample_outside Text2Img w = (Returned [entry], w') /\
    ImageData.image entry = "data:image/webp;base64,AAAA" /\
    ImageData.prompt entry = Some "cat" /\
    requests (trace w') =
      [(POST, "https://horde.example/api/v2/generate/async");
       (GET, "https://horde.example/api/v2/generate/check/a");
       (GET, "https://horde.example/api/v2/generate/check/a");
       (GET, "https://horde.example/api/v2/generate/check/a");
       (GET, "https://horde.example/api/v2/generate/status/a")] /\
    generating w' = false /\ queue w' = [] /\ images w' = [entry].
Proof.
  intros still finished image final w.
  destruct (undisturbed_run_materialises_the_job sample_outside w
              (VObj [("id", VStr "a")]) (VStr "a") finished final
              [still; still] [image])
    as (w' & E & R & _ & G & _ & Q & _ & I & _);
    try reflexivity; try discriminate.
  { repeat constructor. }
  eexists. exists w'. split; [exact E|].
  split; [reflexivity|]. split; [reflexivity|].
  split; [rewrite R; reflexivity|].
  split; [exact G|]. split; [exact Q|exact I].
Defined.

(** ** The model registry, further *)

(** X19.  A refresh of the model list that is answered by a body other
    than [null] with a wrong status or a falsy value: the call returns
    after that one request and one error message, and leaves the available
    models, the database and the model data as they were; but it empties
    the images, resets the progress and clears [cancelled], whatever they
    were; the queue and [generating] are not touched. *)
Theorem failed_model_refresh_resets_images_and_cancel :
  forall (ext : Outside) (w : World) (a : Arrival.t) (rest : list Arrival.t),
    arrivals w = a :: rest ->
    nullish (Arrival.body a) = false ->
    Arrival.status a <> 200 \/ truthy (Arrival.body a) = false ->
    exists msg w',
      updateAvailableModels ext w = (Returned tt, w') /\
      availableModels w' = availableModels w /\
      modelsJSON w' = modelsJSON w /\
      modelsData w' = modelsData w /\
      requests (trace w') = (requests (trace w) ++ [(GET, url_models w)])%list /\
      errors (trace w') = (errors (trace w) ++ [msg])%list /\
      arrivals w' = rest /\
      images w' = [] /\
      cancelled w' = false /\
      progress w' = Fin 0 /\
      queue w' = queue w /\
      generating w' = generating w.
Proof.
  intros ext w a rest Ha Hn Hbad.
  unfold updateAvailableModels, fetch. run. unfold await. simpl. rewrite Ha.
  match goal with
  | |- context [validateResponse ?s ?j ?g ?m ?x] =>
      destruct (validateResponse_present_body s g j m x Hn)
        as [(Es & Et & _)|(_ & msg & E)]
  end.
  - destruct Hbad as [Hs|Ht]; [contradiction|congruence].
  - exists msg. rewrite E, onInvalidResponse_eq. cbn beta iota.
    eexists. split; [reflexivity|].
    destruct (Arrival.cancel_pressed a); simpl;
      rewrite !requests_app, !errors_app; simpl; rewrite !app_nil_r;
      repeat split; reflexivity.
Qed.

Lemma failed_model_refresh_resets_images_and_cancel_witness :
  let w := set_cancelled true
             (set_arrivals [reply 503 (VObj [("message", VStr "maintenance")])]
                sample_world) in
  exists w',
    updateAvailableModels sample_outside w = (Returned tt, w') /\
    cancelled w' = false /\
    errors (trace w') = ["Failed to get available models: maintenance"].
Proof.
  intros w.
  destruct (failed_model_refresh_resets_images_and_cancel sample_outside w
              (reply 503 (VObj [("message", VStr "maintenance")])) []
              eq_refl eq_refl)
    as (msg & w' & E & _ & _ & _ & _ & Er & _ & _ & C & _).
  { left. discriminate. }
  pose (w0 := snd (updateAvailableModels sample_outside w)).
  assert (E0 : updateAvailableModels sample_outside w = (Returned tt, w0))
    by reflexivity.
  rewrite E0 in E. inversion E as [W]. subst w'.
  exists w0. split; [exact E0|]. split; [exact C|reflexivity].
Defined.

Lemma In_model_option (l : list value) (o : ModelOption.t) :
  In o (map model_option l ++ [random_option]) ->
  is_random (ModelOption.value o) = false ->
  exists el, In el l /\ ModelOption.value o = prop_opt "name" el.
Proof.
  intros I R. apply in_app_or in I. destruct I as [I|[I|[]]].
  - apply in_map_iff in I as (el & E & I). exists el. subst o. auto.
  - subst o. discriminate.
Qed.

(** X20.  Once the model list has arrived with status 200 as an array
    without [null]s, the available options are the sorted list followed by
    [Random!], however the call ends: also when the request of the database
    throws or never completes.  If the sort returns elements of its input
    only, a random pick made afterwards names one of the models of the
    list. *)
Theorem refreshed_models_are_offered_at_once :
  forall (ext : Outside) (w w' : World) (a : Arrival.t)
         (live : list value) (later : list Arrival.t) (out : outcome unit),
    arrivals w = a :: later ->
    Arrival.status a = 200 ->
    Arrival.body a = VArr live ->
    existsb nullish live = false ->
    (forall el, In el (sortByCount ext live) -> In el live) ->
    updateAvailableModels ext w = (out, w') ->
    availableModels w' =
      (map model_option (sortByCount ext live) ++ [random_option])%list /\
    (is_random (selectedModel w') = true ->
     forall models w'',
       pickModel w' = (Returned models, w'') ->
       exists el,
         In el live /\ models = [prop_opt "name" el] /\
         is_random (prop_opt "name" el) = false).
Proof.
  intros ext w w' a live later out Ha Hs Hb Hn Hsort E.
  assert (A : availableModels w' =
              (map model_option (sortByCount ext live)
                 ++ [random_option])%list).
  { revert E. unfold updateAvailableModels, fetch. run. unfold await. simpl.
    rewrite Ha. unfold validateResponse. rewrite Hs, Hb. simpl. run.
    rewrite Hn. unfold fetch. run. unfold await.
    destruct (Arrival.cancel_pressed a); simpl;
      (destruct later as [|a2 later]; simpl;
       [intros E; inversion E; reflexivity|]);
      (destruct (opt_bind (db_entries (Arrival.body a2))
                   (merge_models (sortByCount ext live)));
       destruct (Arrival.cancel_pressed a2); simpl;
       intros E; inversion E; reflexivity). }
  split; [exact A|].
  intros Hr models w''. unfold pickModel. run. rewrite Hr.
  destruct (nth_error _ _) as [o|] eqn:En; [|discriminate].
  intros E2. inversion E2; subst models w''.
  apply nth_error_In in En. apply filter_In in En as [I N].
  apply Bool.negb_true_iff in N. rewrite A in I.
  destruct (In_model_option _ _ I N) as (el & Il & V).
  exists el. split; [apply Hsort; exact Il|]. rewrite <- V. auto.
Qed.

Lemma refreshed_models_are_offered_at_once_witness :
  let w := set_selectedModel (VStr "Random!")
             (set_arrivals [reply 200 (VArr sample_live)] sample_world) in
  exists w',
    updateAvailableModels sample_outside w = (Pending, w') /\
    map ModelOption.value (availableModels w')
      = [VStr "stable_diffusion"; VStr "Random!"] /\
    pickModel w' = (Returned [VStr "stable_diffusion"], w').
Proof.
  intros w.
  pose (w' := snd (updateAvailableModels sample_outside w)).
  assert (E : updateAvailableModels sample_outside w = (Pending, w'))
    by reflexivity.
  destruct (refreshed_models_are_offered_at_once sample_outside w w'
              (reply 200 (VArr sample_live)) sample_live [] Pending
              eq_refl eq_refl eq_refl eq_refl)
    as (A & P); [|exact E|].
  { intros el I. apply (Permutation_in el (sort_by_count_desc_perm sample_live) I). }
  exists w'. split; [exact E|]. split; [rewrite A; reflexivity|].
  reflexivity.
Defined.

(** ** A cancelled run *)

Lemma cancelImage_accepted id w final g rest :
  arrivals w = reply 200 final :: rest ->
  truthy final = true ->
  prop "generations" final = Some g ->
  cancelImage id w =
  (Returned (Some g),
   set_arrivals rest
     (set_trace (trace w ++ [Fetch DELETE (url_status w id) None None]) w)).
Proof.
  intros Ha Ht Hg. unfold cancelImage, cancelImage_request. run.
  unfold await. simpl.
  rewrite Ha. simpl. unfold validateResponse. simpl. rewrite Ht. simpl.
  unfold ret. rewrite Hg. reflexivity.
Qed.

Lemma pollLoop_cancelled (a : Arrival.t) (polls : list value) :
  Arrival.cancel_pressed a = true ->
  Forall waiting polls ->
  forall fuel se w j rest,
    queue w = [j] ->
    job_done j = false ->
    cancelled w = false ->
    arrivals w =
      (flat_map (fun b => [reply 200 b; timer]) polls
         ++ a :: timer :: rest)%list ->
    (List.length polls + 2 <= fuel)%nat ->
    exists tr,
      pollLoop fuel se w =
      (Returned ConditionFalse,
       set_cancelled true
         (set_arrivals rest
            (set_trace (trace w ++ tr)
               (set_queue [set_waitData cancelled_status j] w)))) /\
      requests tr =
        repeat (GET, url_check w (ICurrentGeneration.id j))
               (S (List.length polls)) /\
      errors tr = [].
Proof.
  intros Pa Hw. induction Hw as [|b polls [Tb Db] _ IH];
    intros fuel se w j rest Hq Hj Hc Ha Hf.
  - destruct fuel as [|[|fuel]]; [simpl in Hf; lia|simpl in Hf; lia|].
    simpl in Ha.
    assert (Hl : loop_condition w = true).
    { unfold loop_condition. rewrite Hq, Hc. simpl. rewrite Hj. reflexivity. }
    rewrite (pollLoop_round (S fuel) se w [a] timer rest Hl Ha).
    2:{ rewrite Hq. unfold pending_jobs. simpl. rewrite Hj. reflexivity. }
    2:{ simpl. rewrite Pa. reflexivity. }
    rewrite pollLoop_exit.
    2:{ unfold loop_condition, after_round, pressed. simpl. rewrite Pa.
        apply Bool.andb_false_r. }
    exists [check_event (OptionsStore.baseURL (options w)) j;
            UpdateProgress [waitData_value (set_waitData cancelled_status j)]
              (se + 1);
            Sleep 500].
    split.
    + unfold after_round, pressed. rewrite Hq. simpl. rewrite Hj, Pa. simpl.
      destruct w; simpl in *; subst. reflexivity.
    + split; reflexivity.
  - destruct fuel as [|fuel]; [simpl in Hf; lia|].
    simpl in Ha.
    assert (Hl : loop_condition w = true).
    { unfold loop_condition. rewrite Hq, Hc. simpl. rewrite Hj. reflexivity. }
    rewrite (pollLoop_round fuel se w [reply 200 b] timer
               (flat_map (fun b => [reply 200 b; timer]) polls
                  ++ a :: timer :: rest)%list Hl Ha).
    2:{ rewrite Hq. unfold pending_jobs. simpl. rewrite Hj. reflexivity. }
    2:{ simpl. rewrite Tb. reflexivity. }
    destruct (IH fuel (se + 1)
                (after_round se [reply 200 b] timer
                   (flat_map (fun b => [reply 200 b; timer]) polls
                      ++ a :: timer :: rest)%list w)
                (set_waitData b j) rest)
      as (tr & E & R & S).
    + unfold after_round. simpl. rewrite Hq. simpl. rewrite Hj. reflexivity.
    + unfold job_done. simpl. exact Db.
    + reflexivity.
    + reflexivity.
    + simpl in Hf. lia.
    + rewrite E.
      exists ([check_event (OptionsStore.baseURL (options w)) j;
               UpdateProgress [waitData_value (set_waitData b j)] (se + 1);
               Sleep 500] ++ tr)%list.
      split.
      * unfold after_round, pressed. rewrite Hq. simpl. rewrite Hj. simpl.
        rewrite <- !app_assoc.
        destruct w; simpl in *; subst. reflexivity.
      * rewrite !requests_app, !errors_app, R, S. simpl. auto.
Qed.

(** The part of a cancelled run up to the reply of the cancel request. *)
Lemma cancelled_run_collects (ext : Outside) (w : World)
    (accepted id final g : value) (polls : list value) (a : Arrival.t) :
  prompt w <> "" ->
  is_random (selectedModel w) = false ->
  queue w = [] ->
  cancelled w = false ->
  truthy accepted = true ->
  prop "id" accepted = Some id ->
  Forall waiting polls ->
  Arrival.cancel_pressed a = true ->
  truthy final = true ->
  prop "generations" final = Some g ->
  arrivals w = cancelled_in_flight accepted polls a final ->
  let paramsCached := cacheParams (None, None, None) [selectedModel w] w in
  exists w1,
    generateImage ext Text2Img w =
    (if negb (truthy g) then generationFailed w1
     else match spread g with
          | None => (TypeError, w1)
          | Some l =>
              generationDone ext
                (map (fun el => FinalImage.mk el paramsCached) l) w1
          end) /\
    requests (trace w1) =
      (requests (trace w)
         ++ (POST, url_async w)
         :: repeat (GET, url_check w id) (S (List.length polls))
         ++ [(DELETE, url_status w id)])%list /\
    errors (trace w1) = errors (trace w) /\
    options w1 = options w /\
    outputs w1 = outputs w /\
    cancelled w1 = true /\
    queue w1 = [] /\
    images w1 = [] /\
    arrivals w1 = [].
Proof.
  intros Hp Hr Hq Hc Ta Hid Hw Pa Tf Hg Ha paramsCached.
  unfold generateImage.
  unfold bind at 1. unfold gets at 1.
  apply String.eqb_neq in Hp. rewrite Hp.
  unfold sources. unfold bind at 1. unfold ret at 1.
  unfold bind at 1. unfold pickModel. unfold bind at 1. unfold gets at 1.
  rewrite Hr. unfold ret at 1.
  unfold bind at 1. unfold gets at 1. fold paramsCached.
  unfold bind at 1. unfold modify at 1.
  unfold bind at 1.
  unfold cancelled_in_flight in Ha.
  rewrite (fetchNewID_accepted paramsCached (set_generating true w) accepted _
             Ha Ta).
  unfold bind at 1. unfold modify at 1. rewrite Hid.
  unfold bind at 1. unfold modify at 1.
  unfold pollAndCollect.
  unfold bind at 1. unfold gets at 1.
  unfold bind at 1.
  match goal with
  | |- context [pollLoop ?fuel 0 ?x] =>
      destruct (pollLoop_cancelled a polls Pa Hw fuel 0 x
                  (ICurrentGeneration.mk paramsCached id None)
                  [reply 200 final])
        as (tr & El & Rl & Sl)
  end.
  - simpl. rewrite Hq. reflexivity.
  - reflexivity.
  - exact Hc.
  - reflexivity.
  - assert (L : forall l : list value,
               (List.length l
                <= List.length (flat_map (fun b => [reply 200 b; timer]) l))%nat).
    { induction l as [|b l IH]; simpl; lia. }
    simpl. rewrite !length_app. simpl. specialize (L polls). lia.
  - rewrite El. clear El. cbn beta iota.
    unfold bind at 1. unfold gets at 1.
    unfold bind at 1. unfold modify at 1.
    unfold bind at 1.
    cbn [collectFinal queue set_arrivals set_trace set_queue set_cancelled].
    unfold bind at 1. unfold gets at 1.
    cbn [cancelled set_queue set_cancelled].
    unfold bind at 1.
    match goal with
    | |- context [cancelImage ?i ?x] =>
        rewrite (cancelImage_accepted i x final g [] eq_refl Tf Hg)
    end.
    cbn beta iota. unfold ret at 1.
    eexists. split.
    + destruct (negb (truthy g)); [reflexivity|].
      destruct (spread g); reflexivity.
    + cbn -[requests errors cacheParams].
      rewrite !requests_app, !errors_app, Rl, Sl. simpl.
      rewrite !app_nil_r. repeat split.
      rewrite <- !app_assoc. reflexivity.
Qed.

(** X21.  A run cancelled in flight.  The cancel button is pressed while
    a status check is in flight, after any number of checks that were not
    done.  Whatever that check is answered, the loop is left after its
    round, one DELETE is sent for the job and no final GET, and when the
    reply of the DELETE carries a list of generations these become the
    gallery entries the call returns and the images; no error is raised,
    and [cancelled] is [false] again afterwards. *)
Theorem cancelled_run_keeps_the_finished_images :
  forall (ext : Outside) (w : World) (accepted id final : value)
         (polls gens : list value) (a : Arrival.t),
    prompt w <> "" ->
    is_random (selectedModel w) = false ->
    queue w = [] ->
    cancelled w = false ->
    truthy accepted = true ->
    prop "id" accepted = Some id ->
    Forall waiting polls ->
    Arrival.cancel_pressed a = true ->
    prop "generations" final = Some (VArr gens) ->
    arrivals w = cancelled_in_flight accepted polls a final ->
    let paramsCached := cacheParams (None, None, None) [selectedModel w] w in
    let entries :=
      map (fun el => gallery_entry (getNewImageID ext (outputs w))
                       (FinalImage.mk el paramsCached)) gens in
    exists w',
      generateImage ext Text2Img w = (Returned entries, w') /\
      requests (trace w') =
        (requests (trace w)
           ++ (POST, url_async w)
           :: repeat (GET, url_check w id) (S (List.length polls))
           ++ [(DELETE, url_status w id)])%list /\
      errors (trace w') = errors (trace w) /\
      generating w' = false /\
      cancelled w' = false /\
      queue w' = [] /\
      images w' = entries.
Proof.
  intros ext w accepted id final polls gens a Hp Hr Hq Hc Ta Hid Hw Pa Hg Ha
         paramsCached entries.
  pose proof (prop_array_truthy _ _ _ Hg) as Tf.
  destruct (cancelled_run_collects ext w accepted id final (VArr gens) polls a
              Hp Hr Hq Hc Ta Hid Hw Pa Tf Hg Ha)
    as (w1 & E & R & S & _ & O & _ & Q & _ & _).
  cbn [truthy negb spread] in E. rewrite generationDone_run, map_map in E.
  rewrite O in E. fold paramsCached in E.
  eexists. split; [exact E|].
  cbn -[requests errors]. repeat split; assumption.
Qed.

Lemma cancelled_run_keeps_the_finished_images_witness :
  let still := VObj [("done", VBool false)] in
  let image := VObj [("img", VStr "AAAA")] in
  let w := set_arrivals
             (cancelled_in_flight (VObj [("id", VStr "a")]) [still]
                (reply_with_cancel 200 (VObj [("done", VBool true)]))
                (VObj [("generations", VArr [image])]))
             sample_world in
  exists entry w',
    generateImage sample_outside Text2Img w = (Returned [entry], w') /\
    ImageData.image entry = "data:image/webp;base64,AAAA" /\
    requests (trace w') =
      [(POST, "https://horde.example/api/v2/generate/async");
       (GET, "https://horde.example/api/v2/generate/check/a");
       (GET, "https://horde.example/api/v2/generate/check/a");
       (DELETE, "https://horde.example/api/v2/generate/status/a")] /\
    cancelled w' = false.
Proof.
  intros still image w.
  destruct (cancelled_run_keeps_the_finished_images sample_outside w
              (VObj [("id", VStr "a")]) (VStr "a")
              (VObj [("generations", VArr [image])]) [still] [image]
              (reply_with_cancel 200 (VObj [("done", VBool true)])))
    as (w' & E & R & _ & _ & C & _);
    try reflexivity; try discriminate.
  { repeat constructor. }
  eexists. exists w'. split; [exact E|].
  split; [reflexivity|]. split; [rewrite R; reflexivity|exact C].
Defined.

(** X22.  A cancel reply without generations.  In the same run, when the
    reply of the DELETE is valid but its [generations] is falsy (a missing
    key), the call returns the empty list through [generationFailed]: no
    error message is raised, and [cancelled] stays [true]. *)
Theorem cancel_without_generations_fails_silently :
  forall (ext : Outside) (w : World) (accepted id final g : value)
         (polls : list value) (a : Arrival.t),
    prompt w <> "" ->
    is_random (selectedModel w) = false ->
    queue w = [] ->
    cancelled w = false ->
    truthy accepted = true ->
    prop "id" accepted = Some id ->
    Forall waiting polls ->
    Arrival.cancel_pressed a = true ->
    truthy final = true ->
    prop "generations" final = Some g ->
    truthy g = false ->
    arrivals w = cancelled_in_flight accepted polls a final ->
    exists w',
      generateImage ext Text2Img w = (Returned [], w') /\
      errors (trace w') = errors (trace w) /\
      requests (trace w') =
        (requests (trace w)
           ++ (POST, url_async w)
           :: repeat (GET, url_check w id) (S (List.length polls))
           ++ [(DELETE, url_status w id)])%list /\
      cancelled w' = true /\
      generating w' = false /\
      queue w' = [] /\
      images w' = [].
Proof.
  intros ext w accepted id final g polls a Hp Hr Hq Hc Ta Hid Hw Pa Tf Hg Fg Ha.
  destruct (cancelled_run_collects ext w accepted id final g polls a
              Hp Hr Hq Hc Ta Hid Hw Pa Tf Hg Ha)
    as (w1 & E & R & S & _ & _ & C & Q & I & _).
  rewrite Fg in E. cbn [negb] in E. rewrite generationFailed_run, Q in E.
  eexists. split; [exact E|].
  cbn -[requests errors]. rewrite app_nil_r. repeat split; assumption.
Qed.

Lemma cancel_without_generations_fails_silently_witness :
  let w := set_arrivals
             (cancelled_in_flight (VObj [("id", VStr "a")]) []
                (reply_with_cancel 200 (VObj [("done", VBool false)]))
                (VObj [("message", VStr "cancelled")]))
             sample_world in
  exists w',
    generateImage sample_outside Text2Img w = (Returned [], w') /\
    errors (trace w') = [] /\
    cancelled w' = true.
Proof.
  intros w.
  destruct (cancel_without_generations_fails_silently sample_outside w
              (VObj [("id", VStr "a")]) (VStr "a")
              (VObj [("message", VStr "cancelled")]) VUndefined []
              (reply_with_cancel 200 (VObj [("done", VBool false)])))
    as (w' & E & S & _ & C & _);
    try reflexivity; try discriminate.
  { constructor. }
  exists w'. split; [exact E|]. split; [rewrite S; reflexivity|exact C].
Defined.

(** X23.  [generateImage] does not reset [cancelled] when it starts.  A
    call made with the flag set and an empty queue submits its job, never
    asks for its status, and sends the DELETE for it at once; with a valid
    reply it returns the generations of that reply, and the flag is [false]
    afterwards. *)
Theorem call_with_cancelled_set_cancels_its_own_job :
  forall (ext : Outside) (w : World) (accepted id final : value)
         (gens : list value),
    prompt w <> "" ->
    is_random (selectedModel w) = false ->
    queue w = [] ->
    cancelled w = true ->
    truthy accepted = true ->
    prop "id" accepted = Some id ->
    prop "generations" final = Some (VArr gens) ->
    arrivals w = [reply 202 accepted; reply 200 final] ->
    let paramsCached := cacheParams (None, None, None) [selectedModel w] w in
    let entries :=
      map (fun el => gallery_entry (getNewImageID ext (outputs w))
                       (FinalImage.mk el paramsCached)) gens in
    exists w',
      generateImage ext Text2Img w = (Returned entries, w') /\
      requests (trace w') =
        (requests (trace w)
           ++ [(POST, url_async w); (DELETE, url_status w id)])%list /\
      errors (trace w') = errors (trace w) /\
      cancelled w' = false /\
      generating w' = false /\
      queue w' = [].
Proof.
  intros ext w accepted id final gens Hp Hr Hq Hc Ta Hid Hg Ha
         paramsCached entries.
  pose proof (prop_array_truthy _ _ _ Hg) as Tf.
  unfold generateImage.
  unfold bind at 1. unfold gets at 1.
  apply String.eqb_neq in Hp. rewrite Hp.
  unfold sources. unfold bind at 1. unfold ret at 1.
  unfold bind at 1. unfold pickModel. unfold bind at 1. unfold gets at 1.
  rewrite Hr. unfold ret at 1.
  unfold bind at 1. unfold gets at 1. fold paramsCached.
  unfold bind at 1. unfold modify at 1.
  unfold bind at 1.
  rewrite (fetchNewID_accepted paramsCached (set_generating true w) accepted _
             Ha Ta).
  unfold bind at 1. unfold modify at 1. rewrite Hid.
  unfold bind at 1. unfold modify at 1.
  unfold pollAndCollect.
  unfold bind at 1. unfold gets at 1.
  unfold bind at 1.
  rewrite pollLoop_exit.
  2:{ unfold loop_condition. cbn [cancelled set_queue set_images set_arrivals
                                  set_trace set_generating].
      rewrite Hc. apply Bool.andb_false_r. }
  unfold bind at 1. unfold gets at 1.
  unfold bind at 1. unfold modify at 1.
  unfold bind at 1.
  cbn [queue set_arrivals set_trace set_queue set_images set_generating].
  rewrite Hq. cbn [app collectFinal].
  unfold bind at 1. unfold gets at 1.
  cbn [cancelled set_queue set_images set_arrivals set_trace set_generating].
  rewrite Hc. unfold bind at 1.
  match goal with
  | |- context [cancelImage ?i ?x] =>
      rewrite (cancelImage_accepted i x final (VArr gens) [] eq_refl Tf Hg)
  end.
  cbn [truthy negb spread app]. unfold ret at 1.
  rewrite generationDone_run, map_map.
  cbn -[requests errors correctOutputIDs getNewImageID gallery_entry
        cacheParams].
  eexists. split; [reflexivity|].
  cbn -[requests errors correctOutputIDs getNewImageID gallery_entry
        cacheParams].
  rewrite !requests_app, !errors_app. simpl.
  rewrite !app_nil_r, <- !app_assoc. repeat split.
Qed.

Lemma call_with_cancelled_set_cancels_its_own_job_witness :
  let w := set_cancelled true
             (set_arrivals
                [reply 202 (VObj [("id", VStr "b")]);
                 reply 200 (VObj [("generations", VArr [])])]
                sample_world) in
  exists w',
    generateImage sample_outside Text2Img w = (Returned [], w') /\
    requests (trace w') =
      [(POST, "https://horde.example/api/v2/generate/async");
       (DELETE, "https://horde.example/api/v2/generate/status/b")] /\
    cancelled w' = false.
Proof.
  intros w.
  destruct (call_with_cancelled_set_cancels_its_own_job sample_outside w
              (VObj [("id", VStr "b")]) (VStr "b")
              (VObj [("generations", VArr [])]) [])
    as (w' & E & R & _ & C & _);
    try reflexivity; try discriminate.
  exists w'. split; [exact E|]. split; [rewrite R; reflexivity|exact C].
Defined.
